(** * DefiBuddy: percentage normalization, request validation and the
      deployment run, verified over a shallow embedding of the TypeScript.

    Sources embedded here:
    - [server/routes.ts] (second half of [src/server/storage.ts]): the
      handlers of POST /api/wallet/lookup, POST /api/uniswap/check-tokens
      and POST /api/portfolio/chat;
    - [shared/routes.ts] (second half of [src/shared/schema.ts]): the zod
      contract [api.wallet.lookup.input];
    - [client/src/pages/home.tsx]: [deployPortfolio].

    Conventions of the embedding.
    - A JavaScript [number] is an exact rational ([Q]); the IEEE rounding of
      the arithmetic is not modelled.  [Math.round] is [floor (x + 1/2)].
    - A [bigint] is a [Z]; [/] on bigints truncates toward zero ([Z.quot])
      and throws a RangeError on a zero divisor.
    - A value produced by [JSON.parse] is a [json] tree.
    - [Array.prototype.sort] is stable (ECMAScript 2019); it is embedded as a
      stable insertion sort, which returns the same array as any other stable
      sort whenever the comparator is a total preorder, as it is on [Q].
    - Calls that leave the process (HTTP, database, wallet, chain) are
      explicit state passing over an abstract world. *)

From Stdlib Require Import ZArith QArith Qround Qabs List String Ascii Bool Lia.
From Stdlib Require Import DecimalString Sorted Lqa.
Import ListNotations.

Local Open Scope Z_scope.

(* ================================================================== *)
(** ** JavaScript values and primitives                               *)
(* ================================================================== *)

Module JS.

(** [Math.round(x)]: nearest integer, ties toward +infinity. *)
Definition Math_round (x : Q) : Z := Qfloor (x + (1 # 2)).

(** [a < b] on numbers. *)
Definition ltb (a b : Q) : bool :=
  (Qnum a * QDen b <? Qnum b * QDen a)%Z.

(** [a !== b] on numbers. *)
Definition neqb (a b : Q) : bool := negb (Qeq_bool a b).

(** [x || d] on an optional number: [undefined] and [0] are falsy. *)
Definition num_or (x : option Q) (d : Q) : Q :=
  match x with
  | Some q => if Qeq_bool q 0 then d else q
  | None => d
  end.

(** [arr.reduce((s, t) => s + f(t), 0)] *)
Definition sumQ {A} (f : A -> Q) (l : list A) : Q :=
  fold_left (fun s t => (s + f t)%Q) l 0%Q.

Definition sumZ {A} (f : A -> Z) (l : list A) : Z :=
  fold_left (fun s t => s + f t) l 0.

(** Values produced by [JSON.parse]. An object is the list of its
    own properties; a key occurs at most once and [get] reads it. *)
#[warnings="-register-all"]
Inductive json : Type :=
| JNull
| JBool (b : bool)
| JNum (q : Q)
| JStr (s : string)
| JArr (l : list json)
| JObj (fields : list (string * json)).

Fixpoint get (k : string) (fields : list (string * json)) : option json :=
  match fields with
  | [] => None
  | (k', v) :: rest => if String.eqb k k' then Some v else get k rest
  end.

(** Truthiness of a property value; an absent property is [undefined]. *)
Definition truthy (v : option json) : bool :=
  match v with
  | None => false
  | Some JNull => false
  | Some (JBool b) => b
  | Some (JNum q) => negb (Qeq_bool q 0)
  | Some (JStr s) => negb (String.eqb s "")
  | Some (JArr _) => true
  | Some (JObj _) => true
  end.

(** Result of an expression that may throw. *)
Inductive Exn : Type :=
| TypeError (msg : string)
| RangeError (msg : string)
| ZodError (msg : string)
| OtherError (msg : string).

Definition message (e : Exn) : string :=
  match e with
  | TypeError m => m
  | RangeError m => m
  | ZodError m => m
  | OtherError m => m
  end.

(** [BigInt(x)] for a number: a RangeError unless [x] is an integer. *)
Definition BigInt (x : Q) : Exn + Z :=
  if Qeq_bool (inject_Z (Qfloor x)) x then inr (Qfloor x)
  else inl (RangeError "The number cannot be converted to a BigInt because it is not an integer").

(** [a / b] on bigints. *)
Definition bigint_div (a b : Z) : Exn + Z :=
  if b =? 0 then inl (RangeError "Division by zero") else inr (Z.quot a b).

(** Stable sort by a comparator given as a strict "must come after" test:
    [insert x l] puts [x] before the first element that [x] does not have
    to follow, so equal elements keep their order. *)
Section Sort.
Context {A : Type} (after : A -> A -> bool).

Fixpoint insert (x : A) (l : list A) : list A :=
    match l with
    | [] => [x]
    | y :: r => if after x y then y :: insert x r else x :: y :: r
    end.

Fixpoint sort (l : list A) : list A :=
    match l with
    | [] => []
    | x :: r => insert x (sort r)
    end.
End Sort.

(** [arr.slice(0, n)] *)
Definition slice0 {A} (n : nat) (l : list A) : list A := firstn n l.

(** [arr.join(sep)] on strings. *)
Fixpoint join (sep : string) (l : list string) : string :=
  match l with
  | [] => ""
  | [s] => s
  | s :: r => s ++ sep ++ join sep r
  end.

(** [String(n)] for an array length. *)
Definition string_of_nat (n : nat) : string :=
  NilZero.string_of_uint (Nat.to_uint n).

End JS.

(* ================================================================== *)
(** ** Regular expressions, as far as the address pattern needs them  *)
(* ================================================================== *)

Module Regex.

(** The syntax of a pattern between [^] and [$].  Without the [m] flag the
    two anchors pin the match to the whole subject, so [test] below decides
    whether the complete string belongs to the language of the body. *)
Inductive regex : Type :=
| Never
| Eps
| Chr (c : ascii)
| Class (ranges : list (ascii * ascii))
| Seq (r1 r2 : regex)
| Alt (r1 r2 : regex).

(** [r{n}] *)
Fixpoint times (n : nat) (r : regex) : regex :=
  match n with
  | O => Eps
  | S k => Seq r (times k r)
  end.

Definition in_range (c : ascii) (rg : ascii * ascii) : bool :=
  (nat_of_ascii (fst rg) <=? nat_of_ascii c)%nat
  && (nat_of_ascii c <=? nat_of_ascii (snd rg))%nat.

Fixpoint nullable (r : regex) : bool :=
  match r with
  | Never => false
  | Eps => true
  | Chr _ => false
  | Class _ => false
  | Seq r1 r2 => nullable r1 && nullable r2
  | Alt r1 r2 => nullable r1 || nullable r2
  end.

(** Brzozowski derivative: the pattern left to match after reading [c]. *)
Fixpoint deriv (c : ascii) (r : regex) : regex :=
  match r with
  | Never => Never
  | Eps => Never
  | Chr d => if Ascii.eqb c d then Eps else Never
  | Class rs => if existsb (in_range c) rs then Eps else Never
  | Seq r1 r2 =>
      if nullable r1
      then Alt (Seq (deriv c r1) r2) (deriv c r2)
      else Seq (deriv c r1) r2
  | Alt r1 r2 => Alt (deriv c r1) (deriv c r2)
  end.

(** [/^r$/.test(s)] *)
Fixpoint test (r : regex) (s : string) : bool :=
  match s with
  | EmptyString => nullable r
  | String c rest => test (deriv c r) rest
  end.

(** The language of a pattern, for stating what [test] decides. *)
Inductive matches : regex -> string -> Prop :=
| MEps : matches Eps ""
| MChr c : matches (Chr c) (String c "")
| MClass c rs : existsb (in_range c) rs = true -> matches (Class rs) (String c "")
| MSeq r1 r2 s1 s2 : matches r1 s1 -> matches r2 s2 -> matches (Seq r1 r2) (s1 ++ s2)
| MAltL r1 r2 s : matches r1 s -> matches (Alt r1 r2) s
| MAltR r1 r2 s : matches r2 s -> matches (Alt r1 r2) s.

End Regex.

(* ================================================================== *)
(** ** shared/routes.ts                                               *)
(* ================================================================== *)

Module Shared.
Import JS Regex.

(** [[a-fA-F0-9]] *)
Definition hex_class : regex :=
  Class [("a"%char, "f"%char); ("A"%char, "F"%char); ("0"%char, "9"%char)].

(** [/^0x[a-fA-F0-9]{40}$/] *)
Definition address_regex : regex :=
  Seq (Chr "0") (Seq (Chr "x") (times 40 hex_class)).

(** [api.wallet.lookup.input.parse(body)]:
    [z.object({ address: z.string().regex(address_regex, ...) })].
    [None] is a request without a parsed body. *)
Definition wallet_lookup_input_parse (body : option json) : Exn + string :=
  match body with
  | Some (JObj fields) =>
      match get "address" fields with
      | Some (JStr s) =>
          if test address_regex s then inr s
          else inl (ZodError "Invalid Ethereum address")
      | Some _ => inl (ZodError "Expected string")
      | None => inl (ZodError "Required")
      end
  | _ => inl (ZodError "Expected object")
  end.

End Shared.

(* ================================================================== *)
(** ** server/routes.ts: POST /api/wallet/lookup                      *)
(* ================================================================== *)

Module WalletRoute.
Import JS.

(** The element type of [rawTokens]. *)
Record RawToken : Type := mkRawToken {
  name : string;
  symbol : string;
  balance : string;
  balanceUsd : Q
}.

(** [{ ...t, percentage: pct }] *)
Record WalletToken : Type := mkWalletToken {
  spread : RawToken;
  percentage : Z
}.

(** The body of Ethplorer's [getAddressInfo], as the handler casts it.
    An absent property is [None]; [price: false] reads like an absent
    price.  [decimals] is taken to hold an integer. *)
Record Price : Type := { rate : option Q }.
Record EthInfo : Type := { eth_balance : option Q; eth_price : option Price }.
Record TokenInfo : Type := {
  info_name : option string;
  info_symbol : option string;
  info_decimals : option Z;
  info_type : option string;
  info_price : option Price
}.
Record TokenRow : Type := { tokenInfo : option TokenInfo; row_balance : option Q }.
Record ErrorInfo : Type := { error_message : option string }.
Record AddressInfo : Type := {
  ETH : option EthInfo;
  tokens : option (list TokenRow);
  error : option ErrorInfo
}.

(** What [fetch] and [ethplorerRes.json()] can do. *)
Inductive Fetch : Type :=
| FetchThrows (e : Exn)
| FetchNotOk (status : Z)
| FetchOk (data : AddressInfo).

(** A row of [wallet_searches]; [createdAt] is filled in by the database
    and never read by the handler. *)
Record WalletSearch : Type := {
  id : nat;
  address : string;
  search_tokens : list WalletToken
}.

(** The part of the world the handler acts on: the history table and the
    addresses it has asked Ethplorer about. *)
Record Server : Type := {
  walletSearches : list WalletSearch;
  lookups : list string
}.

Inductive Body : Type :=
| Message (m : string)
| Lookup (address : string) (tokens : list WalletToken).

Inductive Response : Type := Res (status : Z) (body : Body).

(** [(a, b) => b.balanceUsd - a.balanceUsd] is positive, so [a] goes after
    [b], exactly when [a.balanceUsd < b.balanceUsd]. *)
Definition after (a b : RawToken) : bool := ltb (balanceUsd a) (balanceUsd b).

(** The callback of [top5Raw.map]. *)
Definition pct (totalUsd : Q) (arr : list RawToken) (t : RawToken) : Z :=
  if ltb 0 totalUsd
  then Math_round (balanceUsd t / totalUsd * 100)
  else Math_round (100 / inject_Z (Z.of_nat (List.length arr))).

(** [topTokens[0].percentage += d] *)
Definition add_to_first (d : Z) (l : list WalletToken) : list WalletToken :=
  match l with
  | [] => []
  | t :: r => {| spread := spread t; percentage := percentage t + d |} :: r
  end.

(** Lines 227-235: from [top5Raw] to the final [topTokens]. *)
Definition topTokens (top5Raw : list RawToken) : list WalletToken :=
  let totalUsd := sumQ balanceUsd top5Raw in
  let mapped :=
    map (fun t => {| spread := t; percentage := pct totalUsd top5Raw t |}) top5Raw in
  let pctSum := sumZ percentage mapped in
  if negb (pctSum =? 100) && (0 <? List.length mapped)%nat
  then add_to_first (100 - pctSum) mapped
  else mapped.

(** Lines 225-226. *)
Definition top5Raw (rawTokens : list RawToken) : list RawToken :=
  slice0 5 (sort after rawTokens).

Section Handler.
(** [Number.prototype.toFixed] and the Ethplorer service. *)
Variable toFixed : Q -> nat -> string.
Variable ethplorer : string -> Fetch.

Definition price_rate (p : option Price) : option Q :=
  match p with
  | Some pr => rate pr
  | None => None
  end.

Definition usd (x : Q) : Q := (inject_Z (Math_round (x * 100)) / 100)%Q.

(** Lines 194-203. *)
Definition ethEntry (e : EthInfo) : RawToken :=
  let ethBalance := num_or (eth_balance e) 0 in
  let ethPrice := num_or (price_rate (eth_price e)) 0 in
  {| name := "Ethereum";
     symbol := "ETH";
     balance := toFixed ethBalance 4;
     balanceUsd := usd (ethBalance * ethPrice) |}.

Definition nonempty (s : option string) : option string :=
  match s with
  | Some v => if String.eqb v "" then None else Some v
  | None => None
  end.

(** One turn of the loop of lines 206-222; [None] is [continue]. *)
Definition tokenEntry (token : TokenRow) : option RawToken :=
  match tokenInfo token with
  | None => None
  | Some info =>
      match nonempty (info_name info), nonempty (info_symbol info) with
      | Some n, Some s =>
          if match nonempty (info_type info) with
             | Some ty => negb (String.eqb ty "ERC-20")
             | None => false
             end
          then None
          else
            let decimals := match info_decimals info with Some d => d | None => 0 end in
            let adjustedBalance := (num_or (row_balance token) 0 / (10 ^ decimals))%Q in
            let price := num_or (price_rate (info_price info)) 0 in
            Some {| name := n; symbol := s;
                    balance := if ltb 1000 adjustedBalance
                               then toFixed adjustedBalance 0
                               else toFixed adjustedBalance 4;
                    balanceUsd := usd (adjustedBalance * price) |}
      | _, _ => None
      end
  end.

Fixpoint tokenEntries (rows : list TokenRow) : list RawToken :=
  match rows with
  | [] => []
  | row :: rest =>
      match tokenEntry row with
      | Some t => t :: tokenEntries rest
      | None => tokenEntries rest
      end
  end.

(** Lines 192-223. *)
Definition rawTokens (data : AddressInfo) : list RawToken :=
  (match ETH data with Some e => [ethEntry e] | None => [] end)
  ++ (match tokens data with Some rows => tokenEntries rows | None => [] end).

(** [storage.createWalletSearch]: the row is appended with the next serial;
    a failing database is not modelled. *)
Definition createWalletSearch (addr : string) (toks : list WalletToken)
    (st : Server) : WalletSearch * Server :=
  let saved :=
    {| id := S (List.length (walletSearches st)); address := addr; search_tokens := toks |} in
  (saved, {| walletSearches := walletSearches st ++ [saved]; lookups := lookups st |}).

(** The handler of [api.wallet.lookup.path]. *)
Definition wallet_lookup (body : option json) (st : Server) : Response * Server :=
  match Shared.wallet_lookup_input_parse body with
  | inl (ZodError _) => (Res 400 (Message "Invalid Ethereum address format"), st)
  | inl _ => (Res 500 (Message "Failed to fetch wallet data"), st)
  | inr addr =>
      let st1 := {| walletSearches := walletSearches st; lookups := addr :: lookups st |} in
      match ethplorer addr with
      | FetchThrows (ZodError _) =>
          (Res 400 (Message "Invalid Ethereum address format"), st1)
      | FetchThrows _ => (Res 500 (Message "Failed to fetch wallet data"), st1)
      | FetchNotOk _ =>
          (Res 502 (Message "Failed to fetch wallet data from blockchain"), st1)
      | FetchOk data =>
          match error data with
          | Some err =>
              (Res 400 (Message (match nonempty (error_message err) with
                                 | Some m => m
                                 | None => "Invalid address"
                                 end)), st1)
          | None =>
              let (saved, st2) :=
                createWalletSearch addr (topTokens (top5Raw (rawTokens data))) st1 in
              (Res 200 (Lookup (address saved) (search_tokens saved)), st2)
          end
      end
  end.

End Handler.
End WalletRoute.

(* ================================================================== *)
(** ** server/routes.ts: POST /api/uniswap/check-tokens               *)
(* ================================================================== *)

Module UniswapRoute.
Import JS.

(** An entry of the list served by tokens.uniswap.org. *)
Record ListedToken : Type := {
  listed_symbol : string;
  listed_address : string;
  chainId : Z;
  listed_decimals : Z;
  listed_name : string
}.

(** An element of [results]; [null] is [None]. *)
Record TokenCheck : Type := {
  symbol : string;
  available : bool;
  address : option string;
  decimals : option Z;
  name : option string
}.

Section Handler.
Variable toLowerCase : string -> string.

Definition str_or_null (s : string) : option string :=
  if String.eqb s "" then None else Some s.

(** The callback of [symbols.map], lines 276-287. *)
Definition check (mainnetTokens : list ListedToken) (sym : string) : TokenCheck :=
  let token :=
    find (fun t => String.eqb (toLowerCase (listed_symbol t)) (toLowerCase sym))
         mainnetTokens in
  match token with
  | Some t =>
      {| symbol := sym;
         available := true;
         address := str_or_null (listed_address t);
         decimals := if listed_decimals t =? 0 then None else Some (listed_decimals t);
         name := str_or_null (listed_name t) |}
  | None =>
      {| symbol := sym; available := false;
         address := None; decimals := None; name := None |}
  end.

(** Lines 274-289: the [tokens] array of the reply. *)
Definition check_tokens (tokenList : list ListedToken) (symbols : list string)
    : list TokenCheck :=
  let mainnetTokens := filter (fun t => chainId t =? 1) tokenList in
  map (check mainnetTokens) symbols.

End Handler.
End UniswapRoute.

(* ================================================================== *)
(** ** server/routes.ts: POST /api/portfolio/chat                     *)
(* ================================================================== *)

Module ChatRoute.
Import JS.

Record PortfolioItem : Type := mkItem {
  name : string;
  symbol : option string;
  percentage : Q
}.

(** [z.object({ name: z.string(), symbol: z.string().optional(),
                percentage: z.number() })] *)
Definition parse_item (j : json) : option PortfolioItem :=
  match j with
  | JObj f =>
      match get "name" f, get "percentage" f with
      | Some (JStr n), Some (JNum p) =>
          match get "symbol" f with
          | None => Some {| name := n; symbol := None; percentage := p |}
          | Some (JStr s) => Some {| name := n; symbol := Some s; percentage := p |}
          | Some _ => None
          end
      | _, _ => None
      end
  | _ => None
  end.

(** [z.array(item)] *)
Fixpoint parse_items (l : list json) : option (list PortfolioItem) :=
  match l with
  | [] => Some []
  | j :: rest =>
      match parse_item j, parse_items rest with
      | Some i, Some r => Some (i :: r)
      | _, _ => None
      end
  end.

(** [schema.parse(req.body)], lines 397-405. *)
Definition request_parse (body : option json) : Exn + (string * list PortfolioItem) :=
  match body with
  | Some (JObj f) =>
      match get "message" f, get "portfolio" f with
      | Some (JStr m), Some (JArr l) =>
          if String.eqb m "" then inl (ZodError "String must contain at least 1 character(s)")
          else match parse_items l with
               | Some items => inr (m, items)
               | None => inl (ZodError "Invalid portfolio")
               end
      | _, _ => inl (ZodError "Invalid input")
      end
  | _ => inl (ZodError "Expected object")
  end.

(** [responseSchema.safeParse(parsed)], lines 447-456; [None] is
    [success: false]. *)
Definition responseSchema_safeParse (parsed : json)
    : option (string * list PortfolioItem) :=
  match parsed with
  | JObj f =>
      match get "reply" f, get "portfolio" f with
      | Some (JStr r), Some (JArr l) =>
          match parse_items l with
          | Some items => Some (r, items)
          | None => None
          end
      | _, _ => None
      end
  | _ => None
  end.

(** [items[0].percentage += diff] *)
Definition add_to_first (diff : Q) (items : list PortfolioItem) : list PortfolioItem :=
  match items with
  | [] => []
  | i :: r =>
      {| name := name i; symbol := symbol i; percentage := (percentage i + diff)%Q |} :: r
  end.

(** The callback of [items.map], line 465. *)
Definition scaled (total : Q) (i : PortfolioItem) : PortfolioItem :=
  {| name := name i; symbol := symbol i;
     percentage := inject_Z (Math_round (percentage i / total * 100)) |}.

(** Lines 461-469: the accepted [items]. *)
Definition rescale (items : list PortfolioItem) : list PortfolioItem :=
  if (0 <? List.length items)%nat then
    let total := sumQ percentage items in
    if ltb 0 total && ltb (1 # 2) (Qabs (total - 100)) then
      let items1 := map (scaled total) items in
      let diff := (100 - sumQ percentage items1)%Q in
      if neqb diff 0 then add_to_first diff items1 else items1
    else items
  else items.

(** [res.json({ reply, portfolio })] or [res.status(s).json({ message })].
    [reply] is whatever value the handler put there. *)
Inductive Response : Type :=
| Reply (reply : json) (portfolio : list PortfolioItem)
| Failure (status : Z) (message : string).

(** [parsed.reply]: reading a property of [null] throws; a primitive or an
    array has no such property. *)
Definition parsed_reply (parsed : json) : Exn + option json :=
  match parsed with
  | JNull => inl (TypeError "Cannot read properties of null (reading 'reply')")
  | JObj f => inr (get "reply" f)
  | _ => inr None
  end.

(** [err.message || "Failed to process chat"] *)
Definition chat_error (e : Exn) : Response :=
  Failure 500 (if String.eqb (message e) "" then "Failed to process chat" else message e).

Section Handler.
(** [completion m p] is [response.choices[0]?.message?.content] of the model
    called on the user message and the current portfolio, or what the call
    threw; [JSON_parse] is [JSON.parse], [None] when it throws. *)
Variable completion : string -> list PortfolioItem -> Exn + option string.
Variable JSON_parse : string -> option json.

(** Lines 435-471, once the model has answered with [content]. *)
Definition interpret (content : string) (portfolio : list PortfolioItem) : Response :=
  match JSON_parse content with
  | None =>
      Reply (JStr "I had trouble processing that. Could you try rephrasing?") portfolio
  | Some parsed =>
      match responseSchema_safeParse parsed with
      | None =>
          match parsed_reply parsed with
          | inl e => chat_error e
          | inr r =>
              Reply (match r with
                     | Some v =>
                         if truthy r then v
                         else JStr "I had trouble updating the portfolio. Please try again."
                     | None => JStr "I had trouble updating the portfolio. Please try again."
                     end) portfolio
          end
      | Some (reply, items) => Reply (JStr reply) (rescale items)
      end
  end.

(** The handler of [/api/portfolio/chat]. *)
Definition chat (body : option json) : Response :=
  match request_parse body with
  | inl e => chat_error e
  | inr (msg, portfolio) =>
      match completion msg portfolio with
      | inl e => chat_error e
      | inr None => Failure 500 "No response from AI"
      | inr (Some content) =>
          if String.eqb content "" then Failure 500 "No response from AI"
          else interpret content portfolio
      end
  end.

End Handler.
End ChatRoute.

(* ================================================================== *)
(** ** client/src/pages/home.tsx: deployPortfolio                     *)
(* ================================================================== *)

Module Home.
Import JS.
Export UniswapRoute.

Record PortfolioItem : Type := mkItem {
  item_name : string;
  item_symbol : option string;
  percentage : Q
}.

Record Portfolio : Type := { source : string; items : list PortfolioItem }.

Definition UNISWAP_ROUTER : string := "0x3bFA4769FB09eefC5a80d6E87c3B9C650f7Ae48E".
Definition WETH_ADDRESS : string := "0xfFf9976782d46CC05630D1f6eBAb18b2324d6B14".
Definition SEPOLIA_CHAIN_ID : Z := 11155111.

(** The argument of [exactInputSingle]. *)
Record SwapParams : Type := {
  tokenIn : string;
  tokenOut : option string;
  fee : Z;
  recipient : string;
  deadline : Z;
  amountIn : Z;
  amountOutMinimum : Z;
  sqrtPriceLimitX96 : Z
}.

(** What the run does to the outside, most recent first in [log]. *)
Inductive Event : Type :=
| CheckTokens (symbols : list string)
| GetNetwork
| GetSigner
| GetBalance
| EstimateGas (params : SwapParams) (value : Z)
| GetFeeData
| ExactInputSingle (params : SwapParams) (value : Z)
| Toast (title description : string).

Definition is_swap (e : Event) : bool :=
  match e with
  | ExactInputSingle _ _ => true
  | _ => false
  end.

(** [i.symbol || i.name] *)
Definition symbol_or_name (i : PortfolioItem) : string :=
  match item_symbol i with
  | Some s => if String.eqb s "" then item_name i else s
  | None => item_name i
  end.

(** [totalPercentage > 0 ? totalPercentage : 100] *)
Definition divisor (totalPercentage : Q) : Q :=
  if ltb 0 totalPercentage then totalPercentage else 100%Q.

(** [(b * BigInt(item.percentage)) / BigInt(totalPercentage > 0 ? totalPercentage : 100)],
    the expression of lines 209 and 245. *)
Definition share (b : Z) (pct totalPercentage : Q) : Exn + Z :=
  match BigInt pct with
  | inl e => inl e
  | inr p =>
      match BigInt (divisor totalPercentage) with
      | inl e => inl e
      | inr d => bigint_div (b * p) d
      end
  end.

(** [gasEstimate * gasPrice * BigInt(120) / BigInt(100)] *)
Definition gasCost (gasEstimate gasPrice : Z) : Z :=
  Z.quot (gasEstimate * gasPrice * 120) 100.

(** [feeData.gasPrice || parseEther("0.00000005")] *)
Definition gasPrice_of (feeGasPrice : option Z) : Z :=
  match feeGasPrice with
  | Some p => if p =? 0 then 50000000000 else p
  | None => 50000000000
  end.

Section Run.
(** The browser, the API server and the chain.  Every awaited call answers
    from the current world and leaves a next one. *)
Variable World : Type.
Variable toLowerCase : string -> string.
Variable string_of_number : Q -> string.
Variable toFixed : Q -> nat -> string.
Variable Date_now : World -> Z.
Variable api_check_tokens : list string -> World -> (Exn + list TokenCheck) * World.
Variable getNetwork : World -> (Exn + Z) * World.
Variable getSigner : World -> (Exn + unit) * World.
Variable getBalance : string -> World -> (Exn + Z) * World.
Variable estimateGas : SwapParams -> Z -> World -> (Exn + Z) * World.
Variable getFeeData : World -> (Exn + option Z) * World.
Variable exactInputSingle : SwapParams -> Z -> World -> (Exn + unit) * World.

(** The component state the run writes, the world and the log. *)
Record St : Type := {
  world : World;
  deployLoading : bool;
  deployStatus : option string;
  tokenChecks : option (list TokenCheck);
  log : list Event
}.

(** Computations that read and write [St] and may throw. *)
Definition M (A : Type) : Type := St -> (Exn + A) * St.

Definition ret {A} (a : A) : M A := fun st => (inr a, st).

Definition bind {A B} (m : M A) (k : A -> M B) : M B :=
  fun st =>
    match m st with
    | (inl e, st1) => (inl e, st1)
    | (inr a, st1) => k a st1
    end.

Definition throw_or {A} (r : Exn + A) : M A := fun st => (r, st).

(** [try { m } catch (e) { h e }] *)
Definition try_catch {A} (m : M A) (h : Exn -> M A) : M A :=
  fun st =>
    match m st with
    | (inl e, st1) => h e st1
    | (inr a, st1) => (inr a, st1)
    end.

Notation "x <- m ;; k" := (bind m (fun x => k))
  (at level 61, m at next level, right associativity).
Notation "m ;;; k" := (bind m (fun _ => k))
  (at level 61, right associativity).

(** An awaited call of the outside: log it, then let the world answer. *)
Definition call {A} (ev : Event) (f : World -> (Exn + A) * World) : M A :=
  fun st =>
    let (r, w) := f (world st) in
    (r, {| world := w; deployLoading := deployLoading st;
           deployStatus := deployStatus st; tokenChecks := tokenChecks st;
           log := ev :: log st |}).

Definition setDeployLoading (b : bool) : M unit :=
  fun st => (inr tt, {| world := world st; deployLoading := b;
                        deployStatus := deployStatus st;
                        tokenChecks := tokenChecks st; log := log st |}).

Definition setDeployStatus (s : string) : M unit :=
  fun st => (inr tt, {| world := world st; deployLoading := deployLoading st;
                        deployStatus := Some s;
                        tokenChecks := tokenChecks st; log := log st |}).

Definition setTokenChecks (c : option (list TokenCheck)) : M unit :=
  fun st => (inr tt, {| world := world st; deployLoading := deployLoading st;
                        deployStatus := deployStatus st;
                        tokenChecks := c; log := log st |}).

Definition toast (title description : string) : M unit :=
  fun st => (inr tt, {| world := world st; deployLoading := deployLoading st;
                        deployStatus := deployStatus st;
                        tokenChecks := tokenChecks st;
                        log := Toast title description :: log st |}).

Definition now : M Z := fun st => (inr (Date_now (world st)), st).

(** [portfolio.items.find((i) => (i.symbol || i.name).toLowerCase()
                                   === t.symbol.toLowerCase())] *)
Definition find_item (portfolio : Portfolio) (t : TokenCheck) : option PortfolioItem :=
  find (fun i => String.eqb (toLowerCase (symbol_or_name i)) (toLowerCase (symbol t)))
       (items portfolio).

(** [item?.percentage || 0] *)
Definition percentage_or_0 (i : option PortfolioItem) : Q :=
  match i with
  | Some it => percentage it
  | None => 0%Q
  end.

(** Lines 196-199. *)
Definition totalPercentage (portfolio : Portfolio) (availableTokens : list TokenCheck) : Q :=
  fold_left (fun sum t => (sum + percentage_or_0 (find_item portfolio t))%Q)
            availableTokens 0%Q.

(** [checks.filter((t) => t.available && t.address)] *)
Definition has_address (t : TokenCheck) : bool :=
  match address t with
  | Some a => negb (String.eqb a "")
  | None => false
  end.

Definition availableTokens (checks : list TokenCheck) : list TokenCheck :=
  filter (fun t => available t && has_address t) checks.

(** The status of lines 166-167. *)
Definition missing_status (missing : list TokenCheck) : string :=
  string_of_nat (List.length missing) ++ " asset"
  ++ (if (1 <? List.length missing)%nat then "s" else "")
  ++ " not available on Uniswap: " ++ join ", " (map symbol missing).

(** [(Number(gasCost) / 1e18).toFixed(6)] *)
Definition eth_text (cost : Z) : string :=
  toFixed (inject_Z cost / inject_Z (10 ^ 18))%Q 6.

Inductive Control : Type := Continue | Break.

(** One turn of the loop of lines 201-263, for a token whose portfolio item
    is [item]; the result carries the updated [successCount]. *)
Definition iteration (connectedAddress : string) (total : Q)
    (token : TokenCheck) (item : PortfolioItem) (successCount : nat)
    : M (Control * nat) :=
  balance <- call GetBalance (getBalance connectedAddress) ;;
  preliminaryAmount <- throw_or (share balance (percentage item) total) ;;
  if preliminaryAmount =? 0 then ret (Continue, successCount) else
  setDeployStatus ("Estimating gas for ETH → " ++ symbol token ++ " ("
                   ++ string_of_number (percentage item) ++ "%)...") ;;;
  t <- now ;;
  let params :=
    {| tokenIn := WETH_ADDRESS; tokenOut := address token; fee := 3000;
       recipient := connectedAddress; deadline := t / 1000 + 1800;
       amountIn := preliminaryAmount; amountOutMinimum := 1;
       sqrtPriceLimitX96 := 0 |} in
  est <- try_catch
           (g <- call (EstimateGas params preliminaryAmount)
                      (estimateGas params preliminaryAmount) ;;
            ret (Some g))
           (fun _ =>
              toast ("Skipped " ++ symbol token)
                    "Could not estimate gas for this swap." ;;;
              ret None) ;;
  match est with
  | None => ret (Continue, successCount)
  | Some gasEstimate =>
      feeGasPrice <- call GetFeeData getFeeData ;;
      let cost := gasCost gasEstimate (gasPrice_of feeGasPrice) in
      if balance <=? cost then
        setDeployStatus ("Not enough ETH for gas. Need ~" ++ eth_text cost
                         ++ " ETH for " ++ symbol token ++ " swap.") ;;;
        toast "Not enough ETH for gas"
              ("The " ++ symbol token ++ " swap needs ~" ++ eth_text cost
               ++ " ETH in gas but your wallet can't cover it.") ;;;
        ret (Break, successCount)
      else
        let usableBalance := balance - cost in
        amount <- throw_or (share usableBalance (percentage item) total) ;;
        if amount =? 0 then ret (Continue, successCount) else
        setDeployStatus ("Swapping ETH → " ++ symbol token ++ " ("
                         ++ string_of_number (percentage item) ++ "%)...") ;;;
        let finalParams :=
          {| tokenIn := tokenIn params; tokenOut := tokenOut params;
             fee := fee params; recipient := recipient params;
             deadline := deadline params; amountIn := amount;
             amountOutMinimum := amountOutMinimum params;
             sqrtPriceLimitX96 := sqrtPriceLimitX96 params |} in
        try_catch
          (call (ExactInputSingle finalParams amount)
                (exactInputSingle finalParams amount) ;;;
           ret (Continue, S successCount))
          (fun swapErr =>
             toast ("Swap failed: " ++ symbol token)
                   (if String.eqb (message swapErr) "" then "Transaction rejected"
                    else message swapErr) ;;;
             ret (Continue, successCount))
  end.

(** [for (const token of availableTokens) { ... }] *)
Fixpoint loop (connectedAddress : string) (portfolio : Portfolio) (total : Q)
    (tokens : list TokenCheck) (successCount : nat) : M nat :=
  match tokens with
  | [] => ret successCount
  | token :: rest =>
      match find_item portfolio token with
      | None => loop connectedAddress portfolio total rest successCount
      | Some item =>
          r <- iteration connectedAddress total token item successCount ;;
          match r with
          | (Break, n) => ret n
          | (Continue, n) => loop connectedAddress portfolio total rest n
          end
      end
  end.

(** The [try] block of lines 158-269 for a non-empty portfolio and a
    connected wallet. *)
Definition deploy_try (portfolio : Portfolio) (connectedAddress : string) : M unit :=
  let symbols :=
    filter (fun s => negb (String.eqb s "")) (map symbol_or_name (items portfolio)) in
  checks <- call (CheckTokens symbols) (api_check_tokens symbols) ;;
  setTokenChecks (Some checks) ;;;
  let missing := filter (fun t => negb (available t)) checks in
  if (0 <? List.length missing)%nat then
    setDeployStatus (missing_status missing) ;;;
    setDeployLoading false
  else
    setDeployStatus "All tokens available. Connecting to Ethereum mainnet..." ;;;
    chain <- call GetNetwork getNetwork ;;
    if negb (chain =? SEPOLIA_CHAIN_ID) then
      setDeployStatus "Please switch MetaMask to Sepolia testnet before deploying." ;;;
      setDeployLoading false
    else
      call GetSigner getSigner ;;;
      balance <- call GetBalance (getBalance connectedAddress) ;;
      if balance =? 0 then
        setDeployStatus "Your wallet has 0 ETH. You need ETH to swap on Uniswap." ;;;
        setDeployLoading false
      else
        let usable := availableTokens checks in
        let total := totalPercentage portfolio usable in
        successCount <- loop connectedAddress portfolio total usable 0 ;;
        setDeployStatus
          (if (0 <? successCount)%nat
           then "Portfolio deployed! " ++ string_of_nat successCount ++ "/"
                ++ string_of_nat (List.length usable) ++ " swaps completed."
           else "No swaps were completed. Transactions may have been rejected.").

(** [deployPortfolio], lines 144-276. [None] is [null]. *)
Definition deployPortfolio (portfolio : option Portfolio)
    (connectedAddress : option string) : St -> St :=
  fun st =>
    match portfolio with
    | None =>
        snd (toast "No portfolio" "Clone a portfolio first." st)
    | Some p =>
        if (List.length (items p) =? 0)%nat
        then snd (toast "No portfolio" "Clone a portfolio first." st)
        else
          match connectedAddress with
          | None =>
              snd (toast "Wallet not connected"
                         "Connect your MetaMask wallet first." st)
          | Some addr =>
              if String.eqb addr ""
              then snd (toast "Wallet not connected"
                              "Connect your MetaMask wallet first." st)
              else
                snd ((setDeployLoading true ;;;
                      setDeployStatus "Checking token availability on Uniswap..." ;;;
                      setTokenChecks None ;;;
                      try_catch (deploy_try p addr)
                        (fun err =>
                           setDeployStatus
                             (if String.eqb (message err) ""
                              then "Failed to deploy portfolio"
                              else message err)) ;;;
                      setDeployLoading false) st)
          end
    end.

End Run.

Arguments world {World} _.
Arguments deployLoading {World} _.
Arguments deployStatus {World} _.
Arguments tokenChecks {World} _.
Arguments log {World} _.

End Home.

(* ================================================================== *)
(** ** contracts/DefiBuddyNFT.sol                                     *)
(* ================================================================== *)

Module DefiBuddyNFT.

(** An [address] and a [uint256] are integers; [address(0)] is [0].  A
    [mapping] is a total function, zero where nothing was written.  A call
    that reverts, by a failed [require] or by the overflow check of
    Solidity 0.8, is [None] and leaves the storage as it was. *)
Definition address : Type := Z.
Definition uint256 : Type := Z.

Definition MAX_UINT256 : Z := 2 ^ 256 - 1.

Record Storage : Type := {
  _owners : uint256 -> address;
  _balances : address -> uint256;
  _tokenURIs : uint256 -> string;
  _tokenApprovals : uint256 -> address;
  _operatorApprovals : address -> address -> bool;
  _nextTokenId : uint256
}.

Inductive Event : Type :=
| Transfer (from to : address) (tokenId : uint256)
| Approval (owner approved : address) (tokenId : uint256)
| ApprovalForAll (owner operator : address) (approved : bool).

(** The storage of a freshly deployed contract. *)
Definition deployed : Storage :=
  {| _owners := fun _ => 0;
     _balances := fun _ => 0;
     _tokenURIs := fun _ => EmptyString;
     _tokenApprovals := fun _ => 0;
     _operatorApprovals := fun _ _ => false;
     _nextTokenId := 0 |}.

(** [m[k] = v] *)
Definition write {A} (m : Z -> A) (k : Z) (v : A) : Z -> A :=
  fun k' => if k' =? k then v else m k'.

(** [x++] and [x--] on a [uint256], checked. *)
Definition incr (x : uint256) : option uint256 :=
  if x <? MAX_UINT256 then Some (x + 1) else None.

Definition decr (x : uint256) : option uint256 :=
  if 0 <? x then Some (x - 1) else None.

Definition supportsInterface (interfaceId : Z) : bool :=
  (interfaceId =? 0x80ac58cd) || (interfaceId =? 0x5b5e139f)
  || (interfaceId =? 0x01ffc9a7).

Definition balanceOf (s : Storage) (owner : address) : option uint256 :=
  if owner =? 0 then None else Some (_balances s owner).

Definition ownerOf (s : Storage) (tokenId : uint256) : option address :=
  let owner := _owners s tokenId in
  if owner =? 0 then None else Some owner.

Definition tokenURI (s : Storage) (tokenId : uint256) : option string :=
  if _owners s tokenId =? 0 then None else Some (_tokenURIs s tokenId).

Definition getApproved (s : Storage) (tokenId : uint256) : option address :=
  if _owners s tokenId =? 0 then None else Some (_tokenApprovals s tokenId).

Definition isApprovedForAll (s : Storage) (owner operator : address) : bool :=
  _operatorApprovals s owner operator.

Definition _isApprovedOrOwner (s : Storage) (spender : address)
    (tokenId : uint256) : bool :=
  let owner := _owners s tokenId in
  (spender =? owner) || (_tokenApprovals s tokenId =? spender)
  || _operatorApprovals s owner spender.

Definition approve (sender : address) (to : address) (tokenId : uint256)
    (s : Storage) : option (Storage * list Event) :=
  match ownerOf s tokenId with
  | None => None
  | Some owner =>
      if (sender =? owner) || _operatorApprovals s owner sender then
        Some ({| _owners := _owners s;
                 _balances := _balances s;
                 _tokenURIs := _tokenURIs s;
                 _tokenApprovals := write (_tokenApprovals s) tokenId to;
                 _operatorApprovals := _operatorApprovals s;
                 _nextTokenId := _nextTokenId s |},
              [Approval owner to tokenId])
      else None
  end.

Definition setApprovalForAll (sender : address) (operator : address)
    (approved : bool) (s : Storage) : option (Storage * list Event) :=
  Some ({| _owners := _owners s;
           _balances := _balances s;
           _tokenURIs := _tokenURIs s;
           _tokenApprovals := _tokenApprovals s;
           _operatorApprovals :=
             write (_operatorApprovals s) sender
                   (write (_operatorApprovals s sender) operator approved);
           _nextTokenId := _nextTokenId s |},
        [ApprovalForAll sender operator approved]).

Definition transferFrom (sender : address) (from to : address)
    (tokenId : uint256) (s : Storage) : option (Storage * list Event) :=
  if negb (_isApprovedOrOwner s sender tokenId) then None
  else if negb (from =? _owners s tokenId) then None
  else if to =? 0 then None
  else
    let approvals := write (_tokenApprovals s) tokenId 0 in
    match decr (_balances s from) with
    | None => None
    | Some bf =>
        let balances1 := write (_balances s) from bf in
        match incr (balances1 to) with
        | None => None
        | Some bt =>
            Some ({| _owners := write (_owners s) tokenId to;
                     _balances := write balances1 to bt;
                     _tokenURIs := _tokenURIs s;
                     _tokenApprovals := approvals;
                     _operatorApprovals := _operatorApprovals s;
                     _nextTokenId := _nextTokenId s |},
                  [Transfer from to tokenId])
        end
    end.

(** Both overloads. *)
Definition safeTransferFrom (sender : address) (from to : address)
    (tokenId : uint256) (s : Storage) : option (Storage * list Event) :=
  transferFrom sender from to tokenId s.

Definition mint (sender : address) (to : address) (uri : string) (s : Storage)
    : option (uint256 * Storage * list Event) :=
  let tokenId := _nextTokenId s in
  match incr (_nextTokenId s) with
  | None => None
  | Some next =>
      match incr (_balances s to) with
      | None => None
      | Some bt =>
          Some (tokenId,
                {| _owners := write (_owners s) tokenId to;
                   _balances := write (_balances s) to bt;
                   _tokenURIs := write (_tokenURIs s) tokenId uri;
                   _tokenApprovals := _tokenApprovals s;
                   _operatorApprovals := _operatorApprovals s;
                   _nextTokenId := next |},
                [Transfer 0 to tokenId])
      end
  end.

(** A transaction, with the account that sends it. *)
Inductive Call : Type :=
| CallMint (to : address) (uri : string)
| CallTransferFrom (from to : address) (tokenId : uint256)
| CallApprove (to : address) (tokenId : uint256)
| CallSetApprovalForAll (operator : address) (approved : bool).

(** The storage after a transaction; a reverted one changes nothing. *)
Definition execute (sender : address) (c : Call) (s : Storage) : Storage :=
  match c with
  | CallMint to uri =>
      match mint sender to uri s with
      | Some (_, s', _) => s'
      | None => s
      end
  | CallTransferFrom from to tokenId =>
      match transferFrom sender from to tokenId s with
      | Some (s', _) => s'
      | None => s
      end
  | CallApprove to tokenId =>
      match approve sender to tokenId s with
      | Some (s', _) => s'
      | None => s
      end
  | CallSetApprovalForAll operator approved =>
      match setApprovalForAll sender operator approved s with
      | Some (s', _) => s'
      | None => s
      end
  end.

End DefiBuddyNFT.

(* ================================================================== *)
(** ** String methods used by the pool routes                         *)
(* ================================================================== *)

Module JSString.

(** A string is read as a sequence of code units below 256.  [is_space] is
    the class [\s], which is also what [trim] strips: tab, line feed,
    vertical tab, form feed, carriage return, space and no-break space. *)
Definition is_space (c : ascii) : bool :=
  let n := nat_of_ascii c in
  ((9 <=? n) && (n <=? 13))%nat || (n =? 32)%nat || (n =? 160)%nat.

(** [hay.includes(needle)] *)
Fixpoint includes (needle hay : string) : bool :=
  String.prefix needle hay
  || match hay with
     | EmptyString => false
     | String _ rest => includes needle rest
     end.

(** [s.split(/[...]+/)] for a class [sep] of separator characters: [cur] is
    the piece being read, [in_run] tells that the last character was a
    separator.  A separator at either end leaves an empty piece there. *)
Fixpoint split_run (sep : ascii -> bool) (s : string) (cur : string)
    (in_run : bool) : list string :=
  match s with
  | EmptyString => [cur]
  | String c rest =>
      if sep c then
        if in_run then split_run sep rest EmptyString true
        else cur :: split_run sep rest EmptyString true
      else split_run sep rest (cur ++ String c EmptyString) false
  end.

Definition split (sep : ascii -> bool) (s : string) : list string :=
  split_run sep s EmptyString false.

(** [s.trimStart()] *)
Fixpoint trimStart (s : string) : string :=
  match s with
  | EmptyString => EmptyString
  | String c rest => if is_space c then trimStart rest else s
  end.

(** [s.trimEnd()]: what is left when the trailing run of spaces goes. *)
Fixpoint trimEnd (s : string) : string :=
  match s with
  | EmptyString => EmptyString
  | String c rest =>
      match trimEnd rest with
      | EmptyString => if is_space c then EmptyString else String c EmptyString
      | kept => String c kept
      end
  end.

(** [s.trim()] *)
Definition trim (s : string) : string := trimEnd (trimStart s).

End JSString.

(* ================================================================== *)
(** ** server/routes.ts: POST /api/uniswap/pools                      *)
(* ================================================================== *)

Module PoolsRoute.
Import JS JSString.

(** An element of [poolsData.data]; [null] is [None]. *)
Record LlamaPool : Type := {
  pool : string;
  chain : string;
  project : string;
  symbol : string;
  tvlUsd : Q;
  apy : option Q;
  apyBase : option Q;
  apyReward : option Q
}.

(** An element of [matchingPools]. *)
Record Pool : Type := {
  id : string;
  name : string;
  pool_project : string;
  pool_chain : string;
  pool_tvlUsd : Q;
  apr : Q;
  pool_apyBase : Q;
  pool_apyReward : Q
}.

(** The body of yields.llama.fi/pools as the handler casts it. *)
Record PoolsData : Type := {
  status : string;
  data : option (list LlamaPool)
}.

Inductive Fetch : Type :=
| FetchThrows (e : Exn)
| FetchNotOk (code : Z)
| FetchOk (body : PoolsData).

Inductive Response : Type :=
| Pools (pools : list Pool)
| Failure (code : Z) (message : string).

(** [a ?? b] *)
Definition coalesce (a : option Q) (b : Q) : Q :=
  match a with
  | Some v => v
  | None => b
  end.

(** [/[-\/\s]+/] *)
Definition separator (c : ascii) : bool :=
  Ascii.eqb c "-" || Ascii.eqb c "/" || is_space c.

(** [(a, b) => b.apr - a.apr] *)
Definition after (a b : Pool) : bool := ltb (apr a) (apr b).

(** [schema.parse(req.body)] with [{ symbols: z.array(z.string()) }]. *)
Fixpoint parse_strings (l : list json) : option (list string) :=
  match l with
  | [] => Some []
  | JStr s :: rest =>
      match parse_strings rest with
      | Some r => Some (s :: r)
      | None => None
      end
  | _ :: _ => None
  end.

Definition symbols_parse (body : option json) : Exn + list string :=
  match body with
  | Some (JObj fields) =>
      match get "symbols" fields with
      | Some (JArr l) =>
          match parse_strings l with
          | Some symbols => inr symbols
          | None => inl (ZodError "Expected string")
          end
      | Some _ => inl (ZodError "Expected array")
      | None => inl (ZodError "Required")
      end
  | _ => inl (ZodError "Expected object")
  end.

Section Handler.
Variable toLowerCase : string -> string.

(** Lines 326-331. *)
Definition uniswapPools (pools : list LlamaPool) : list LlamaPool :=
  filter (fun p => includes "uniswap" (project p)
                   && String.eqb (chain p) "Ethereum"
                   && ltb 100000 (tvlUsd p))
         pools.

(** The callback of the second [filter], lines 334-337. *)
Definition matching (lowerSymbols : list string) (p : LlamaPool) : bool :=
  let poolSymbols := map trim (split separator (toLowerCase (symbol p))) in
  existsb (fun ps => existsb (String.eqb ps) lowerSymbols) poolSymbols.

(** The callback of [map], lines 338-347. *)
Definition to_pool (p : LlamaPool) : Pool :=
  {| id := pool p;
     name := symbol p;
     pool_project := project p;
     pool_chain := chain p;
     pool_tvlUsd := tvlUsd p;
     apr := coalesce (apy p) (coalesce (apyBase p) 0);
     pool_apyBase := coalesce (apyBase p) 0;
     pool_apyReward := coalesce (apyReward p) 0 |}.

(** Lines 326-349. *)
Definition matchingPools (symbols : list string) (pools : list LlamaPool) : list Pool :=
  let lowerSymbols := map toLowerCase symbols in
  slice0 20 (sort after (map to_pool (filter (matching lowerSymbols)
                                             (uniswapPools pools)))).

(** [err.message || "Failed to fetch pools"] *)
Definition pools_error (e : Exn) : Response :=
  Failure 500 (if String.eqb (message e) "" then "Failed to fetch pools" else message e).

(** The handler of [/api/uniswap/pools]; [llama] is the fetch of the pool
    list together with [poolsRes.json()]. *)
Definition uniswap_pools (llama : Fetch) (body : option json) : Response :=
  match symbols_parse body with
  | inl e => pools_error e
  | inr symbols =>
      match llama with
      | FetchThrows e => pools_error e
      | FetchNotOk _ => Failure 502 "Pool data service unavailable"
      | FetchOk poolsData =>
          match data poolsData with
          | None => Failure 502 "Failed to fetch pool data"
          | Some pools =>
              if negb (String.eqb (status poolsData) "success")
              then Failure 502 "Failed to fetch pool data"
              else Pools (matchingPools symbols pools)
          end
      end
  end.

End Handler.
End PoolsRoute.

(* ================================================================== *)
(** ** server/routes.ts: POST /api/crypto/lookup                      *)
(* ================================================================== *)

Module CryptoRoute.
Import JS.

Record CryptoInvestment : Type := mkInvestment {
  name : string;
  percentage : Q
}.

(** A row of [searches], without the [createdAt] the database fills in. *)
Record Search : Type := {
  id : nat;
  personName : string;
  investments : list CryptoInvestment
}.

(** The history table and the names the model has been asked about. *)
Record Server : Type := {
  searches : list Search;
  asked : list string
}.

Inductive Response : Type :=
| Lookup (personName : string) (investments : list CryptoInvestment)
| Failure (code : Z) (message : string).

(** [api.crypto.lookup.input.parse(body)]: [z.object({ personName: z.string() })] *)
Definition input_parse (body : option json) : Exn + string :=
  match body with
  | Some (JObj fields) =>
      match get "personName" fields with
      | Some (JStr s) => inr s
      | Some _ => inl (ZodError "Expected string")
      | None => inl (ZodError "Required")
      end
  | _ => inl (ZodError "Expected object")
  end.

(** [z.object({ name: z.string(), percentage: z.number() })] *)
Definition parse_investment (j : json) : option CryptoInvestment :=
  match j with
  | JObj f =>
      match get "name" f, get "percentage" f with
      | Some (JStr n), Some (JNum p) => Some {| name := n; percentage := p |}
      | _, _ => None
      end
  | _ => None
  end.

Fixpoint parse_investments (l : list json) : option (list CryptoInvestment) :=
  match l with
  | [] => Some []
  | j :: rest =>
      match parse_investment j, parse_investments rest with
      | Some i, Some r => Some (i :: r)
      | _, _ => None
      end
  end.

(** [responseSchema.safeParse(parsed)], lines 121-127. *)
Definition responseSchema_safeParse (parsed : json) : option (list CryptoInvestment) :=
  match parsed with
  | JObj f =>
      match get "investments" f with
      | Some (JArr l) => parse_investments l
      | _ => None
      end
  | _ => None
  end.

Section Handler.
(** [completion name] is [response.choices[0]?.message?.content] of the
    model asked about [name], or what the call threw. *)
Variable completion : string -> Exn + option string.
Variable JSON_parse : string -> option json.

(** [JSON.parse(content)] where [content] is the model's text or, when that
    is missing or empty, the literal [{"investments":[]}]. *)
Definition parsed_content (content : option string) : option json :=
  match content with
  | Some c =>
      if String.eqb c "" then Some (JObj [("investments"%string, JArr [])])
      else JSON_parse c
  | None => Some (JObj [("investments"%string, JArr [])])
  end.

(** Lines 118-136: the value of [top5] after the [try]. *)
Definition top5 (content : option string) : list CryptoInvestment :=
  match parsed_content content with
  | None => []
  | Some parsed =>
      match responseSchema_safeParse parsed with
      | Some validated => slice0 5 validated
      | None => []
      end
  end.

(** [storage.createSearch]; a failing database is not modelled. *)
Definition createSearch (person : string) (invs : list CryptoInvestment)
    (st : Server) : Search * Server :=
  let saved :=
    {| id := S (List.length (searches st)); personName := person;
       investments := invs |} in
  (saved, {| searches := searches st ++ [saved]; asked := asked st |}).

(** The handler of [api.crypto.lookup.path]. *)
Definition crypto_lookup (body : option json) (st : Server) : Response * Server :=
  match input_parse body with
  | inl (ZodError _) => (Failure 400 "Invalid input", st)
  | inl _ => (Failure 500 "Failed to fetch crypto data", st)
  | inr person =>
      let st1 := {| searches := searches st; asked := person :: asked st |} in
      match completion person with
      | inl (ZodError _) => (Failure 400 "Invalid input", st1)
      | inl _ => (Failure 500 "Failed to fetch crypto data", st1)
      | inr content =>
          let (saved, st2) := createSearch person (top5 content) st1 in
          (Lookup (personName saved) (investments saved), st2)
      end
  end.

End Handler.
End CryptoRoute.

(* ================================================================== *)
(** ** client/src/pages/home.tsx: deployToPool                        *)
(* ================================================================== *)

Module HomePool.
Import JS JSString.
Export Home.

(** What a [catch] of [deployToPool] can receive: an error of the language,
    or one of the wallet library with its [code], [reason] and [message]. *)
Inductive Code : Type :=
| CodeName (s : string)
| CodeNumber (n : Z).

Inductive Thrown : Type :=
| Native (e : Exn)
| Ethers (code : option Code) (reason : option string) (msg : string).

(** [err?.code === "ACTION_REJECTED" || err?.code === 4001] *)
Definition user_rejected (err : Thrown) : bool :=
  match err with
  | Ethers (Some (CodeName s)) _ _ => String.eqb s "ACTION_REJECTED"
  | Ethers (Some (CodeNumber n)) _ _ => n =? 4001
  | _ => false
  end.

(** [err.reason || err.message || "Transaction rejected or failed."] *)
Definition failure_text (err : Thrown) : string :=
  match err with
  | Native e =>
      if String.eqb (message e) "" then "Transaction rejected or failed."
      else message e
  | Ethers _ (Some r) m =>
      if negb (String.eqb r "") then r
      else if String.eqb m "" then "Transaction rejected or failed." else m
  | Ethers _ None m =>
      if String.eqb m "" then "Transaction rejected or failed." else m
  end.

Record PoolRef : Type := { pool_id : string; pool_name : string }.

(** [/[-\/\s]+/] *)
Definition separator (c : ascii) : bool :=
  Ascii.eqb c "-" || Ascii.eqb c "/" || is_space c.

(** [s.replace(/\.e$/, "")] *)
Fixpoint strip_dot_e (s : string) : string :=
  match s with
  | EmptyString => EmptyString
  | String c rest =>
      if Ascii.eqb c "." && String.eqb rest "e" then EmptyString
      else String c (strip_dot_e rest)
  end.

Definition is_eth (s : string) : bool := String.eqb s "eth" || String.eqb s "weth".

(** [otherSymbols.find((s) => s !== "eth" && s !== "weth") || otherSymbols[0]];
    [None] is [undefined]. *)
Definition pick_target (otherSymbols : list string) : option string :=
  match find (fun s => negb (is_eth s)) otherSymbols with
  | Some s => if String.eqb s "" then hd_error otherSymbols else Some s
  | None => hd_error otherSymbols
  end.

(** [feeTiers] *)
Definition feeTiers : list Z := [3000; 500; 10000; 100].

(** How one turn of the fee-tier loop ends when it does not throw. *)
Inductive Turn : Type :=
| Swapped
| NextTier
| GaveUp.

(** How the fee-tier loop ends. *)
Inductive Outcome : Type :=
| Success
| Returned
| Rethrown (err : Thrown)
| Exhausted (lastErr : option Thrown).

Section Run.
Variable World : Type.
Variable toLowerCase : string -> string.
Variable toUpperCase : string -> string.
Variable string_of_number : Q -> string.
Variable toFixed : Q -> nat -> string.
Variable Date_now : World -> Z.
Variable has_ethereum : World -> bool.
Variable api_check_tokens : list string -> World -> (Thrown + list TokenCheck) * World.
Variable getNetwork : World -> (Thrown + Z) * World.
Variable getSigner : World -> (Thrown + unit) * World.
Variable getBalance : string -> World -> (Thrown + Z) * World.
Variable estimateGas : SwapParams -> Z -> World -> (Thrown + Z) * World.
Variable getFeeData : World -> (Thrown + option Z) * World.
Variable exactInputSingle : SwapParams -> Z -> World -> (Thrown + unit) * World.

Record St : Type := {
  world : World;
  deployingPoolId : option string;
  log : list Event
}.

Definition M (A : Type) : Type := St -> (Thrown + A) * St.

Definition ret {A} (a : A) : M A := fun st => (inr a, st).

Definition bind {A B} (m : M A) (k : A -> M B) : M B :=
  fun st =>
    match m st with
    | (inl e, st1) => (inl e, st1)
    | (inr a, st1) => k a st1
    end.

Definition native {A} (r : Exn + A) : M A :=
  fun st =>
    match r with
    | inl e => (inl (Native e), st)
    | inr a => (inr a, st)
    end.

Notation "x <- m ;; k" := (bind m (fun x => k))
  (at level 61, m at next level, right associativity).
Notation "m ;;; k" := (bind m (fun _ => k))
  (at level 61, right associativity).

Definition call {A} (ev : Event) (f : World -> (Thrown + A) * World) : M A :=
  fun st =>
    let (r, w) := f (world st) in
    (r, {| world := w; deployingPoolId := deployingPoolId st; log := ev :: log st |}).

Definition setDeployingPoolId (v : option string) : M unit :=
  fun st => (inr tt, {| world := world st; deployingPoolId := v; log := log st |}).

Definition toast (title description : string) : M unit :=
  fun st => (inr tt, {| world := world st; deployingPoolId := deployingPoolId st;
                        log := Toast title description :: log st |}).

Definition now : M Z := fun st => (inr (Date_now (world st)), st).

(** [pool.name.toLowerCase().split(/[-\/\s]+/).map((s) => s.trim().replace(/\.e$/, ""))] *)
Definition poolSymbols (pool : PoolRef) : list string :=
  map (fun s => strip_dot_e (trim s))
      (split separator (toLowerCase (pool_name pool))).

(** [portfolio.items.find((i) => (i.symbol || i.name).toLowerCase() === ps)] *)
Definition find_by_symbol (portfolio : Portfolio) (ps : string) : option PortfolioItem :=
  find (fun i => String.eqb (toLowerCase (symbol_or_name i)) ps) (items portfolio).

(** The loop of lines 317-327: the first part of the pool's name that the
    portfolio holds, with the target picked among the other parts. *)
Fixpoint match_pool (portfolio : Portfolio) (all parts : list string)
    : option (PortfolioItem * option string) :=
  match parts with
  | [] => None
  | ps :: rest =>
      match find_by_symbol portfolio ps with
      | Some found =>
          Some (found,
                pick_target (filter (fun s => negb (String.eqb s ps)) all))
      | None => match_pool portfolio all rest
      end
  end.

(** [(b * BigInt(allocationPct)) / BigInt(100)] *)
Definition hundredth (b : Z) (allocationPct : Q) : Exn + Z :=
  match BigInt allocationPct with
  | inl e => inl e
  | inr p => bigint_div (b * p) 100
  end.

(** The body of the inner [try], lines 372-420, for one fee tier. *)
Definition tier (connectedAddress : string) (tokenInfo : TokenCheck)
    (balance : Z) (allocationPct : Q) (fee_tier : Z) : M Turn :=
  preliminaryAmount <- native (hundredth balance allocationPct) ;;
  if preliminaryAmount =? 0 then
    toast "Amount too small"
          (string_of_number allocationPct
           ++ "% allocation results in zero ETH to swap.") ;;;
    setDeployingPoolId None ;;;
    ret GaveUp
  else
  t <- now ;;
  let params :=
    {| tokenIn := WETH_ADDRESS; tokenOut := address tokenInfo; fee := fee_tier;
       recipient := connectedAddress; deadline := t / 1000 + 1800;
       amountIn := preliminaryAmount; amountOutMinimum := 1;
       sqrtPriceLimitX96 := 0 |} in
  fun st =>
    match call (EstimateGas params preliminaryAmount)
               (estimateGas params preliminaryAmount) st with
    | (inl _, st1) => (inr NextTier, st1)
    | (inr gasEstimate, st1) =>
        (feeGasPrice <- call GetFeeData getFeeData ;;
         let cost := gasCost gasEstimate (gasPrice_of feeGasPrice) in
         if balance <=? cost then
           toast "Not enough ETH for gas"
                 ("This transaction needs ~"
                  ++ toFixed (inject_Z cost / inject_Z (10 ^ 18))%Q 6
                  ++ " ETH in gas but your wallet can't cover it.") ;;;
           setDeployingPoolId None ;;;
           ret GaveUp
         else
           let usableBalance := balance - cost in
           amount <- native (hundredth usableBalance allocationPct) ;;
           if amount =? 0 then
             toast "Amount too small"
                   ("After gas fees, " ++ string_of_number allocationPct
                    ++ "% allocation results in zero ETH to swap.") ;;;
             setDeployingPoolId None ;;;
             ret GaveUp
           else
             let finalParams :=
               {| tokenIn := tokenIn params; tokenOut := tokenOut params;
                  fee := fee params; recipient := recipient params;
                  deadline := deadline params; amountIn := amount;
                  amountOutMinimum := amountOutMinimum params;
                  sqrtPriceLimitX96 := sqrtPriceLimitX96 params |} in
             call (ExactInputSingle finalParams amount)
                  (exactInputSingle finalParams amount) ;;;
             ret Swapped) st1
    end.

(** [for (const fee of feeTiers) { try { ... } catch (err) { ... } }] *)
Fixpoint tiers (connectedAddress : string) (tokenInfo : TokenCheck)
    (balance : Z) (allocationPct : Q) (fees : list Z)
    (lastErr : option Thrown) (st : St) : Outcome * St :=
  match fees with
  | [] => (Exhausted lastErr, st)
  | fee_tier :: rest =>
      match tier connectedAddress tokenInfo balance allocationPct fee_tier st with
      | (inr Swapped, st1) => (Success, st1)
      | (inr GaveUp, st1) => (Returned, st1)
      | (inr NextTier, st1) =>
          tiers connectedAddress tokenInfo balance allocationPct rest lastErr st1
      | (inl err, st1) =>
          if user_rejected err then (Rethrown err, st1)
          else tiers connectedAddress tokenInfo balance allocationPct rest
                     (Some err) st1
      end
  end.

(** The outer [catch] and [finally]. *)
Definition deploy_failed (err : Thrown) (st : St) : St :=
  snd ((toast "Deploy failed" (failure_text err) ;;;
        setDeployingPoolId None) st).

(** The outer [try] of lines 342-427, with its [catch] and [finally]. *)
Definition deploy_try (pool : PoolRef) (connectedAddress : string)
    (matchingItem : PortfolioItem) (targetSymbol : string) (st : St) : St :=
  match call (CheckTokens [targetSymbol]) (api_check_tokens [targetSymbol]) st with
  | (inl err, st1) => deploy_failed err st1
  | (inr tokens, st1) =>
      match hd_error tokens with
      | Some tokenInfo =>
          if available tokenInfo && has_address tokenInfo then
            match call GetNetwork getNetwork st1 with
            | (inl err, st2) => deploy_failed err st2
            | (inr chain, st2) =>
                if negb (chain =? SEPOLIA_CHAIN_ID) then
                  snd ((toast "Wrong network"
                              "Please switch MetaMask to Sepolia testnet." ;;;
                        setDeployingPoolId None) st2)
                else
                  match (call GetSigner getSigner ;;;
                         call GetBalance (getBalance connectedAddress)) st2 with
                  | (inl err, st3) => deploy_failed err st3
                  | (inr balance, st3) =>
                      match tiers connectedAddress tokenInfo balance
                                  (percentage matchingItem) feeTiers None st3 with
                      | (Success, st4) =>
                          snd ((toast "Deployed successfully!"
                                      ("Swapped "
                                       ++ string_of_number (percentage matchingItem)
                                       ++ "% of your ETH into "
                                       ++ toUpperCase targetSymbol ++ " via "
                                       ++ pool_name pool ++ " pool.") ;;;
                                setDeployingPoolId None) st4)
                      | (Returned, st4) => snd (setDeployingPoolId None st4)
                      | (Rethrown err, st4) => deploy_failed err st4
                      | (Exhausted (Some err), st4) => deploy_failed err st4
                      | (Exhausted None, st4) =>
                          deploy_failed
                            (Native (OtherError "All fee tiers failed")) st4
                      end
                  end
            end
          else
            snd ((toast "Token not found"
                        (toUpperCase targetSymbol
                         ++ " is not available on Uniswap's token list.") ;;;
                  setDeployingPoolId None) st1)
      | None =>
          snd ((toast "Token not found"
                      (toUpperCase targetSymbol
                       ++ " is not available on Uniswap's token list.") ;;;
                setDeployingPoolId None) st1)
      end
  end.

(** [deployToPool], lines 298-437. *)
Definition deployToPool (portfolio : option Portfolio)
    (connectedAddress : option string) (pool : PoolRef) (st : St) : St :=
  match portfolio with
  | None => snd (toast "No portfolio" "Clone a portfolio first." st)
  | Some p =>
      if (List.length (items p) =? 0)%nat
      then snd (toast "No portfolio" "Clone a portfolio first." st)
      else
        match connectedAddress with
        | None =>
            snd (toast "Wallet not connected"
                       "Connect your MetaMask wallet first." st)
        | Some addr =>
            if String.eqb addr ""
            then snd (toast "Wallet not connected"
                            "Connect your MetaMask wallet first." st)
            else if negb (has_ethereum (world st))
            then snd (toast "MetaMask required"
                            "Please install MetaMask to deploy funds." st)
            else
              match match_pool p (poolSymbols pool) (poolSymbols pool) with
              | Some (matchingItem, Some targetSymbol) =>
                  if String.eqb targetSymbol "" then
                    snd (toast "No matching asset"
                               ("None of your portfolio assets match this pool ("
                                ++ pool_name pool ++ ").") st)
                  else if is_eth targetSymbol then
                    snd (toast "Already holding ETH"
                               "This pool pairs your asset with ETH — you already hold ETH in your wallet."
                               st)
                  else
                    deploy_try pool addr matchingItem targetSymbol
                               (snd (setDeployingPoolId (Some (pool_id pool)) st))
              | _ =>
                  snd (toast "No matching asset"
                             ("None of your portfolio assets match this pool ("
                              ++ pool_name pool ++ ").") st)
              end
        end
  end.

End Run.

Arguments world {World} _.
Arguments deployingPoolId {World} _.
Arguments log {World} _.

End HomePool.

(* ================================================================== *)
(** ** client/src/pages/home.tsx: the search form and the chat        *)
(* ================================================================== *)

Module HomeSearch.
Import JS JSString Regex.

(** [isEthereumAddress], lines 37-39 *)
Definition isEthereumAddress (input : string) : bool :=
  test Shared.address_regex (trim input).

(** What [handleSubmit] starts. *)
Inductive Submitted : Type :=
| Nothing
| WalletMutation (address : string)
| LookupMutation (name : string).

(** [handleSubmit], lines 650-666, on the current [query]. *)
Definition handleSubmit (query : string) : Submitted :=
  let trimmed := trim query in
  if String.eqb trimmed "" then Nothing
  else if isEthereumAddress trimmed then WalletMutation trimmed
  else LookupMutation trimmed.

(** The bodies [walletMutation] and [lookupMutation] post, as the server
    reads them. *)
Definition wallet_body (address : string) : option json :=
  Some (JObj [("address"%string, JStr address)]).

Definition lookup_body (name : string) : option json :=
  Some (JObj [("personName"%string, JStr name)]).

End HomeSearch.

Module HomeChat.
Import JS JSString.

(** A chat message; [content] is the value the code stored there, [None]
    for [undefined]. *)
Record ChatMessage : Type := {
  role : string;
  content : option json
}.

(** The state [sendChatMessage] reads and writes. *)
Record Chat : Type := {
  chatInput : string;
  chatMessages : list ChatMessage;
  chatLoading : bool;
  portfolio : option Home.Portfolio
}.

(** A portfolio item as JSON text carries it: an absent [symbol] is left
    out. *)
Definition item_json (i : Home.PortfolioItem) : json :=
  JObj ([("name"%string, JStr (Home.item_name i))]
        ++ match Home.item_symbol i with
           | Some s => [("symbol"%string, JStr s)]
           | None => []
           end
        ++ [("percentage"%string, JNum (Home.percentage i))]).

(** [{ message: userMsg, portfolio: portfolio?.items ?? [] }] *)
Definition chat_body (userMsg : string) (p : option Home.Portfolio) : option json :=
  Some (JObj [("message"%string, JStr userMsg);
              ("portfolio"%string,
               JArr (map item_json
                         match p with
                         | Some q => Home.items q
                         | None => []
                         end))]).

(** An item of [data.portfolio] as the client takes it. *)
Definition received (i : ChatRoute.PortfolioItem) : Home.PortfolioItem :=
  Home.mkItem (ChatRoute.name i) (ChatRoute.symbol i) (ChatRoute.percentage i).

Section Send.
(** The chat endpoint, and whether [apiRequest] throws on a status. *)
Variable endpoint : option json -> ChatRoute.Response.
Variable throws_on : Z -> bool.

(** [sendChatMessage], lines 113-142. *)
Definition sendChatMessage (c : Chat) : Chat :=
  if String.eqb (trim (chatInput c)) "" || chatLoading c then c
  else
    let userMsg := trim (chatInput c) in
    let sent := chatMessages c
                ++ [{| role := "user"; content := Some (JStr userMsg) |}] in
    match endpoint (chat_body userMsg (portfolio c)) with
    | ChatRoute.Reply reply items =>
        {| chatInput := "";
           chatMessages :=
             sent ++ [{| role := "assistant"; content := Some reply |}];
           chatLoading := false;
           portfolio :=
             match items with
             | [] => None
             | _ :: _ =>
                 Some {| Home.source :=
                           match portfolio c with
                           | Some prev => Home.source prev
                           | None => "AI Chat"%string
                           end;
                         Home.items := map received items |}
             end |}
    | ChatRoute.Failure code _ =>
        {| chatInput := "";
           chatMessages :=
             sent ++ [{| role := "assistant";
                         content :=
                           if throws_on code
                           then Some (JStr "Sorry, something went wrong. Please try again.")
                           else None |}];
           chatLoading := false;
           portfolio := portfolio c |}
    end.

End Send.
End HomeChat.

(* ================================================================== *)
(** ** scripts/export-to-github.ts: getAllFiles                       *)
(* ================================================================== *)

Module ExportScript.
Import JS.

(** What [fs.readdirSync(dir, { withFileTypes: true })] lists: an entry has
    a name and is a directory, with its own listing, or is not. *)
#[warnings="-register-all"]
Inductive Dirent : Type :=
| File (name : string)
| Directory (name : string) (entries : list Dirent).

(** [IGNORE] of scripts/export-to-github.ts, lines 5-10. *)
Definition IGNORE : list string :=
  [ "node_modules"; ".git"; "dist"; ".cache"; ".config"; ".local";
    "scripts"; ".upm"; ".replit"; "replit.nix"; ".breakpoints";
    "generated-icon.png"; "replit_zip_error_log.txt";
    "attached_assets"; "references"; "snippets" ]%string.

(** [IGNORE] of the second export script (lines 145-150 of
    contracts/DefiBuddyNFT.sol), which keeps [scripts]. *)
Definition IGNORE_push : list string :=
  [ "node_modules"; ".git"; "dist"; ".cache"; ".config"; ".local";
    ".upm"; ".replit"; "replit.nix"; ".breakpoints";
    "generated-icon.png"; "replit_zip_error_log.txt";
    "attached_assets"; "references"; "snippets" ]%string.

Record Found : Type := { path : string; fullPath : string }.

(** [path.join(dir, name)] for a normalized [dir] and the name of a
    directory entry. *)
Definition path_join (dir name : string) : string := (dir ++ "/" ++ name)%string.

Section Walk.
Variable ignore : list string.

(** [IGNORE.has(entry.name)] or [entry.name.startsWith('.')] *)
Definition skipped (name : string) : bool :=
  existsb (String.eqb name) ignore || String.prefix "." name.

(** [base ? `${base}/${entry.name}` : entry.name] *)
Definition rel_of (base name : string) : string :=
  if String.eqb base "" then name else (base ++ "/" ++ name)%string.

(** One turn of the loop of [getAllFiles], lines 15-23, on an entry of
    [dir]. *)
Fixpoint visit (dir base : string) (entry : Dirent) : list Found :=
  match entry with
  | File name =>
      if skipped name then []
      else [{| path := rel_of base name; fullPath := path_join dir name |}]
  | Directory name entries =>
      if skipped name then []
      else flat_map (visit (path_join dir name) (rel_of base name)) entries
  end.

(** [getAllFiles(dir, base)], lines 12-26, where [dir] lists [entries]. *)
Definition getAllFiles (dir base : string) (entries : list Dirent) : list Found :=
  flat_map (visit dir base) entries.

End Walk.
End ExportScript.

(* ================================================================== *)
(** ** client/src/pages/home.tsx: the report of mintReportAsNFT       *)
(* ================================================================== *)

Module HomeMint.
Import JS.

(** A buddy as the report reads it; [contribution] is
    [Number(b.contribution)]. *)
Record Buddy : Type := {
  buddy_name : string;
  contribution : Q
}.

(** An element of [metadata.buddies]. *)
Record BuddyShare : Type := {
  share_name : string;
  share_contribution : Q;
  share_percentage : Q
}.

(** [buddyList.reduce((sum, b) => sum + Number(b.contribution), 0)],
    line 553 *)
Definition totalFund (buddyList : list Buddy) : Q := sumQ contribution buddyList.

(** The callback of [buddyList.map], lines 573-576. *)
Definition buddy_share (totalFund : Q) (b : Buddy) : BuddyShare :=
  let pct := if ltb 0 totalFund then (contribution b / totalFund * 100)%Q else 0%Q in
  {| share_name := buddy_name b;
     share_contribution := contribution b;
     share_percentage := (inject_Z (Math_round (pct * 10)) / 10)%Q |}.

(** [metadata.buddies] *)
Definition buddies (buddyList : list Buddy) : list BuddyShare :=
  map (buddy_share (totalFund buddyList)) buddyList.

End HomeMint.

(* ================================================================== *)
(** * Vocabulary of the statements and sample inputs                  *)
(* ================================================================== *)

Section ChatRescaleTerms.
Import JS ChatRoute.


(** The condition of line 464. *)
Definition fires (total : Q) : Prop :=
  (0 < total)%Q /\ ((1 # 2) < Qabs (total - 100))%Q.


End ChatRescaleTerms.

Section NormalizationTerms.
Import JS.

Definition token (n : string) (usd : Q) : WalletRoute.RawToken :=
  WalletRoute.mkRawToken n n "0.0000" usd.

Definition zero_reply : list ChatRoute.PortfolioItem :=
  [ChatRoute.mkItem "Bitcoin" (Some "BTC"%string) 0; ChatRoute.mkItem "Ether" (Some "ETH"%string) 0].

Definition short_reply : list ChatRoute.PortfolioItem :=
  [ChatRoute.mkItem "Bitcoin" (Some "BTC"%string) 50; ChatRoute.mkItem "Ether" (Some "ETH"%string) 30].

Definition three_equal : list WalletRoute.RawToken :=
  [token "A" 1; token "B" 1; token "C" 1].


Definition worthless (l : list WalletRoute.RawToken) : Prop :=
  Forall (fun t => WalletRoute.balanceUsd t == 0) l.

Definition six_worthless : list WalletRoute.RawToken :=
  [token "A" 0; token "B" 0; token "C" 0; token "D" 0; token "E" 0; token "F" 0].

End NormalizationTerms.

Section ChatTerms.
Import JS ChatRoute.

(** [{"reply": "Done", "portfolio": [{"name": "Bitcoin", "symbol": "BTC",
     "percentage": 0}, {"name": "Ether", "symbol": "ETH", "percentage": 0}]}] *)
Definition zero_reply_json : json :=
  JObj [("reply", JStr "Done");
        ("portfolio",
         JArr [JObj [("name", JStr "Bitcoin"); ("symbol", JStr "BTC");
                     ("percentage", JNum 0)];
               JObj [("name", JStr "Ether"); ("symbol", JStr "ETH");
                     ("percentage", JNum 0)]])]%string.

(** [{"reply": "Done", "portfolio": [{"name": "Bitcoin", "symbol": "BTC",
     "percentage": 50}, {"name": "Ether", "symbol": "ETH", "percentage": 30}]}] *)
Definition short_reply_json : json :=
  JObj [("reply", JStr "Done");
        ("portfolio",
         JArr [JObj [("name", JStr "Bitcoin"); ("symbol", JStr "BTC");
                     ("percentage", JNum 50)];
               JObj [("name", JStr "Ether"); ("symbol", JStr "ETH");
                     ("percentage", JNum 30)]])]%string.

(** [{"reply": 42, "portfolio": []}] *)
Definition numeric_reply_json : json :=
  JObj [("reply", JNum 42); ("portfolio", JArr [])]%string.

(** The texts of the sample replies, written with [dq] for the double
    quote. *)
Definition dq : string := String (ascii_of_nat 34) "".

Definition quoted (s : string) : string := (dq ++ s ++ dq)%string.

Definition item_text (n sym pct : string) : string :=
  ("{" ++ quoted "name" ++ ": " ++ quoted n ++ ", "
   ++ quoted "symbol" ++ ": " ++ quoted sym ++ ", "
   ++ quoted "percentage" ++ ": " ++ pct ++ "}")%string.

Definition reply_text (reply items : string) : string :=
  ("{" ++ quoted "reply" ++ ": " ++ reply ++ ", "
   ++ quoted "portfolio" ++ ": [" ++ items ++ "]}")%string.

Definition zero_reply_text : string :=
  reply_text (quoted "Done")
    (item_text "Bitcoin" "BTC" "0" ++ ", " ++ item_text "Ether" "ETH" "0").

Definition short_reply_text : string :=
  reply_text (quoted "Done")
    (item_text "Bitcoin" "BTC" "50" ++ ", " ++ item_text "Ether" "ETH" "30").

Definition numeric_reply_text : string := reply_text "42" "".

(** [JSON.parse] on the sample texts; any other text counts as
    unparseable here. *)
Definition parse_samples (content : string) : option json :=
  if String.eqb content zero_reply_text then Some zero_reply_json
  else if String.eqb content short_reply_text then Some short_reply_json
  else if String.eqb content numeric_reply_text then Some numeric_reply_json
  else if String.eqb content "null" then Some JNull
  else None.

(** The request [{"message": "rebalance", "portfolio": [Bitcoin 50, Ether 30]}]. *)
Definition sample_request : option json :=
  Some (JObj [("message", JStr "rebalance");
              ("portfolio",
               JArr [JObj [("name", JStr "Bitcoin"); ("symbol", JStr "BTC");
                           ("percentage", JNum 50)];
                     JObj [("name", JStr "Ether"); ("symbol", JStr "ETH");
                           ("percentage", JNum 30)]])]%string).

(** A model that always answers with the given text. *)
Definition answers (content : string)
    : string -> list PortfolioItem -> Exn + option string :=
  fun _ _ => inr (Some content).

End ChatTerms.

Section WalletTerms.
Import JS Regex Shared WalletRoute.

(** Every character is one of [a-f], [A-F], [0-9]. *)
Fixpoint all_hex (s : string) : bool :=
  match s with
  | EmptyString => true
  | String c rest =>
      existsb (in_range c) [("a"%char, "f"%char); ("A"%char, "F"%char);
                            ("0"%char, "9"%char)]
      && all_hex rest
  end.

Definition carries_address (body : option json) (s : string) : Prop :=
  exists fields, body = Some (JObj fields) /\ get "address" fields = Some (JStr s).

Definition no_answer : string -> Fetch := fun _ => FetchNotOk 503.
Definition fresh_server : Server := {| walletSearches := []; lookups := [] |}.
Definition vitalik : string := "0xD8dA6BF26964aF9D7eEd9e03E53415D37aA96045".

Definition descending (a b : RawToken) : Prop := (balanceUsd b <= balanceUsd a)%Q.

Definition erc20 (n sym : string) (raw : Q) (dec : Z) (usd_rate : Q) : TokenRow :=
  {| tokenInfo := Some {| info_name := Some n; info_symbol := Some sym;
                          info_decimals := Some dec; info_type := Some "ERC-20"%string;
                          info_price := Some {| rate := Some usd_rate |} |};
     row_balance := Some raw |}.

(** 2 ETH at 2000 USD, six priced ERC-20 holdings and one collectible. *)
Definition sample_wallet : AddressInfo :=
  {| ETH := Some {| eth_balance := Some 2%Q;
                    eth_price := Some {| rate := Some 2000%Q |} |};
     tokens := Some [erc20 "Shiba Inu" "SHIB" 5000000 0 (1 # 1000000);
                     erc20 "USD Coin" "USDC" 10000000000 6 1;
                     erc20 "Dai" "DAI" 500 0 1;
                     {| tokenInfo := Some {| info_name := Some "Punk"%string;
                                             info_symbol := Some "PUNK"%string;
                                             info_decimals := None;
                                             info_type := Some "ERC-721"%string;
                                             info_price := None |};
                        row_balance := Some 1%Q |};
                     erc20 "Chainlink" "LINK" 30 0 10;
                     erc20 "Uniswap" "UNI" 40 0 5;
                     erc20 "Pepe" "PEPE" 1000000 0 (1 # 1000000)];
     error := None |}.

Definition sample_body : option json :=
  Some (JObj [("address"%string, JStr vitalik)]).

End WalletTerms.

Section DeployTerms.
Import JS Home.

(** The symbols sent to the availability check, line 159. *)
Definition symbols_of (p : Portfolio) : list string :=
  filter (fun s => negb (String.eqb s "")) (map symbol_or_name (items p)).

Definition unavailable (checks : list TokenCheck) : list TokenCheck :=
  filter (fun t => negb (available t)) checks.

End DeployTerms.

Section DeploySampleTerms.
Import JS Home.

(** ASCII lower-casing, enough for ticker symbols. *)
Definition lower_char (c : ascii) : ascii :=
  let n := nat_of_ascii c in
  if ((65 <=? n) && (n <=? 90))%nat then ascii_of_nat (n + 32) else c.

Fixpoint lower (s : string) : string :=
  match s with
  | EmptyString => EmptyString
  | String c rest => String (lower_char c) (lower rest)
  end.

Definition listed (sym addr : string) (chain : Z) : ListedToken :=
  {| listed_symbol := sym; listed_address := addr; chainId := chain;
     listed_decimals := 18; listed_name := sym |}.

(** A token list with USDC and DAI on mainnet and BTC only elsewhere. *)
Definition token_list : list ListedToken :=
  [listed "USDC" "0xA0b86991c6218b36c1d19D4a2e9Eb0cE3606eB48" 1;
   listed "BTC" "0x0000000000000000000000000000000000000b7c" 56;
   listed "DAI" "0x6B175474E89094C44Da98b954EedeAC495271d0F" 1].

(** The world is the wallet's balance in wei; a swap spends its value. *)
Definition api : list string -> Z -> (Exn + list TokenCheck) * Z :=
  fun symbols w => (inr (check_tokens lower token_list symbols), w).
Definition network : Z -> (Exn + Z) * Z := fun w => (inr SEPOLIA_CHAIN_ID, w).
Definition signer : Z -> (Exn + unit) * Z := fun w => (inr tt, w).
Definition balance_of : string -> Z -> (Exn + Z) * Z := fun _ w => (inr w, w).
Definition estimate : SwapParams -> Z -> Z -> (Exn + Z) * Z :=
  fun _ _ w => (inr 150000, w).
Definition fee_data : Z -> (Exn + option Z) * Z :=
  fun w => (inr (Some 30000000000), w).
Definition swap : SwapParams -> Z -> Z -> (Exn + unit) * Z :=
  fun _ value w => (inr tt, w - value).
Definition clock : Z -> Z := fun _ => 1700000000000.
Definition show_number : Q -> string := fun _ => "n"%string.
Definition fixed : Q -> nat -> string := fun _ _ => "x"%string.

Definition start (wei : Z) : St Z :=
  {| world := wei; deployLoading := false; deployStatus := None;
     tokenChecks := None; log := [] |}.

Definition me : string := "0xD8dA6BF26964aF9D7eEd9e03E53415D37aA96045".

Definition btc_usdc : Portfolio :=
  {| source := "AI Chat";
     items := [mkItem "Bitcoin" (Some "BTC"%string) 60;
               mkItem "USD Coin" (Some "USDC"%string) 40] |}.

Definition usdc_dai : Portfolio :=
  {| source := "AI Chat";
     items := [mkItem "USD Coin" (Some "usdc"%string) 60;
               mkItem "Dai" None 40] |}.

Definition run_example (p : Portfolio) (wei : Z) : St Z :=
  deployPortfolio Z lower show_number fixed clock api network signer
                  balance_of estimate fee_data swap (Some p) (Some me) (start wei).

Definition usdc_check : TokenCheck :=
  {| symbol := "usdc"; available := true;
     address := Some "0xA0b86991c6218b36c1d19D4a2e9Eb0cE3606eB48"%string;
     decimals := Some 18; name := Some "USDC"%string |}.

Definition dai_check : TokenCheck :=
  {| symbol := "Dai"; available := true;
     address := Some "0x6B175474E89094C44Da98b954EedeAC495271d0F"%string;
     decimals := Some 18; name := Some "DAI"%string |}.

End DeploySampleTerms.

Section NFTTerms.
Import DefiBuddyNFT.

(** The storages the contract can be in: those a sequence of transactions,
    each sent by an account other than [address(0)], leads to. *)
Inductive reachable : Storage -> Prop :=
| reach_deployed : reachable deployed
| reach_step (s : Storage) (sender : address) (c : Call) :
    reachable s -> sender <> 0 -> reachable (execute sender c s).

(** The number of token ids below [n] that [owners] gives to [a]. *)
Fixpoint owned (owners : uint256 -> address) (a : address) (n : nat) : Z :=
  match n with
  | O => 0
  | S k => owned owners a k + (if owners (Z.of_nat k) =? a then 1 else 0)
  end.

(** What every reachable storage satisfies. *)
Record consistent (s : Storage) : Prop := {
  next_range : 0 <= _nextTokenId s <= MAX_UINT256;
  unminted_unowned :
    forall id, ~ (0 <= id < _nextTokenId s) -> _owners s id = 0;
  unowned_unapproved :
    forall id, _owners s id = 0 -> _tokenApprovals s id = 0;
  zero_has_no_operator :
    forall x, _operatorApprovals s 0 x = false;
  balances_count :
    forall a, _balances s a = owned (_owners s) a (Z.to_nat (_nextTokenId s))
}.

End NFTTerms.

Section NFTSamples.
Import DefiBuddyNFT.

(** Account 7 mints a report to itself, then one to [address(0)]. *)
Definition minted_once : Storage :=
  execute 7 (CallMint 7 "https://defibuddy.example/api/nft/metadata/1") deployed.

Definition minted_to_zero : Storage :=
  execute 7 (CallMint 0 "https://defibuddy.example/api/nft/metadata/2") minted_once.

End NFTSamples.

Section PoolsTerms.
Import JS JSString PoolsRoute.

Definition llama_pool (i sym proj ch : string) (tvl : Q) (y : option Q) : LlamaPool :=
  {| pool := i; chain := ch; project := proj; symbol := sym; tvlUsd := tvl;
     apy := y; apyBase := None; apyReward := None |}.

(** Five entries of the pool list: two match USDC on Uniswap, one is too
    small, one is on another chain, one is another project. *)
Definition llama_sample : list LlamaPool :=
  [llama_pool "p1" "USDC-WETH" "uniswap-v3" "Ethereum" 5000000 (Some 12%Q);
   llama_pool "p2" "WBTC/USDC" "uniswap-v2" "Ethereum" 900000 (Some 30%Q);
   llama_pool "p3" "USDC-DAI" "uniswap-v3" "Ethereum" 50000 (Some 90%Q);
   llama_pool "p4" "USDC-WETH" "uniswap-v3" "Arbitrum" 7000000 (Some 40%Q);
   llama_pool "p5" "USDC-WETH" "curve-dex" "Ethereum" 8000000 (Some 50%Q)].

Definition symbols_body (symbols : list string) : option json :=
  Some (JObj [("symbols"%string, JArr (map JStr symbols))]).

End PoolsTerms.

Section CryptoTerms.
Import JS CryptoRoute.

(** [{"investments": [{"name": "Bitcoin", "percentage": 60},
                      {"name": "Dogecoin", "percentage": 60}]}] *)
Definition overweight_json : json :=
  JObj [("investments",
         JArr [JObj [("name", JStr "Bitcoin"); ("percentage", JNum 60)];
               JObj [("name", JStr "Dogecoin"); ("percentage", JNum 60)]])]%string.

Definition overweight_text : string :=
  ("{" ++ quoted "investments" ++ ": [{" ++ quoted "name" ++ ": "
   ++ quoted "Bitcoin" ++ ", " ++ quoted "percentage" ++ ": 60}, {"
   ++ quoted "name" ++ ": " ++ quoted "Dogecoin" ++ ", "
   ++ quoted "percentage" ++ ": 60}]}")%string.

Definition parse_overweight (content : string) : option json :=
  if String.eqb content overweight_text then Some overweight_json else None.

Definition person_body (n : string) : option json :=
  Some (JObj [("personName"%string, JStr n)]).

Definition no_searches : Server := {| searches := []; asked := [] |}.

End CryptoTerms.

Section DeployLoopTerms.
Import JS Home.

(** How many swaps a stretch of the log holds. *)
Definition swaps (l : list Event) : nat := List.length (filter is_swap l).

(** A swap as the portfolio run submits it for [addr]: ETH in, pool fee
    3000, a non-zero amount sent as the transaction's value, any non-zero
    output accepted. *)
Definition portfolio_swap (addr : string) (e : Event) : Prop :=
  match e with
  | ExactInputSingle p value =>
      value = amountIn p /\ value <> 0
      /\ tokenIn p = WETH_ADDRESS /\ fee p = 3000
      /\ recipient p = addr /\ amountOutMinimum p = 1
      /\ sqrtPriceLimitX96 p = 0
  | _ => True
  end.

(** A world in which every gas estimate fails. *)
Definition no_estimate : SwapParams -> Z -> Z -> (Exn + Z) * Z :=
  fun _ _ w => (inl (OtherError "cannot estimate gas"), w).

(** A world in which the first swap is rejected: the wallet's last digit
    tells whether one was tried. *)
Definition swap_once_rejected : SwapParams -> Z -> Z -> (Exn + unit) * Z :=
  fun _ value w =>
    if Z.even w then (inl (OtherError "execution reverted"), w + 1)
    else (inr tt, w - value).

End DeployLoopTerms.

Section PoolDeployTerms.
Import JS JSString HomePool.

(** [l1] is [l2] with some elements left out. *)
Inductive subsequence {A} : list A -> list A -> Prop :=
| sub_nil : subsequence [] []
| sub_skip x l1 l2 : subsequence l1 l2 -> subsequence l1 (x :: l2)
| sub_keep x l1 l2 : subsequence l1 l2 -> subsequence (x :: l1) (x :: l2).

(** The pool fees of the swaps in a stretch of the log, oldest first. *)
Fixpoint swap_fees (l : list Event) : list Z :=
  match l with
  | [] => []
  | ExactInputSingle p _ :: rest => swap_fees rest ++ [fee p]
  | _ :: rest => swap_fees rest
  end.

(** A swap as the pool deployment submits it for [addr] and the token
    [tokenInfo]. *)
Definition pool_swap (addr : string) (tokenInfo : TokenCheck) (e : Event) : Prop :=
  match e with
  | ExactInputSingle p value =>
      value = amountIn p /\ value <> 0
      /\ tokenIn p = WETH_ADDRESS /\ tokenOut p = address tokenInfo
      /\ recipient p = addr /\ amountOutMinimum p = 1
  | _ => True
  end.

(** A wallet of [wei] that holds MetaMask; swaps at pool fee 3000 revert,
    the others go through. *)
Definition pool_start (wei : Z) : St Z :=
  {| world := wei; deployingPoolId := None; log := [] |}.

Definition ok {A} (f : Z -> (Exn + A) * Z) : Z -> (Thrown + A) * Z :=
  fun w => match f w with
           | (inl e, w') => (inl (Native e), w')
           | (inr a, w') => (inr a, w')
           end.

Definition swap_not_at_3000 : SwapParams -> Z -> Z -> (Thrown + unit) * Z :=
  fun p value w =>
    if fee p =? 3000
    then (inl (Ethers (Some (CodeName "CALL_EXCEPTION")) None "execution reverted"), w)
    else (inr tt, w - value).

Definition swap_user_rejects : SwapParams -> Z -> Z -> (Thrown + unit) * Z :=
  fun _ _ w =>
    (inl (Ethers (Some (CodeName "ACTION_REJECTED")) None "user rejected action"), w).

(** ASCII upper-casing. *)
Fixpoint upper (s : string) : string :=
  match s with
  | EmptyString => EmptyString
  | String c rest =>
      let n := nat_of_ascii c in
      String (if ((97 <=? n) && (n <=? 122))%nat then ascii_of_nat (n - 32) else c)
             (upper rest)
  end.

Definition dai_usdc_pool : PoolRef := {| pool_id := "p7"; pool_name := "DAI-USDC" |}.
Definition usdc_weth_pool : PoolRef := {| pool_id := "p1"; pool_name := "USDC-WETH" |}.

Definition usdc_only : Portfolio :=
  {| source := "AI Chat"; items := [mkItem "USD Coin" (Some "USDC"%string) 60] |}.

Definition pool_run (swapper : SwapParams -> Z -> Z -> (Thrown + unit) * Z)
    (p : Portfolio) (pool : PoolRef) (wei : Z) : St Z :=
  deployToPool Z lower upper show_number fixed clock (fun _ => true)
    (fun symbols => ok (api symbols)) (ok network) (ok signer)
    (fun a => ok (balance_of a)) (fun q v => ok (estimate q v)) (ok fee_data)
    swapper (Some p) (Some me) pool (pool_start wei).

End PoolDeployTerms.

Section ClientTerms.
Import JS JSString HomeChat.

(** An item of the client's portfolio as the chat endpoint reads it. *)
Definition as_sent (i : Home.PortfolioItem) : ChatRoute.PortfolioItem :=
  ChatRoute.mkItem (Home.item_name i) (Home.item_symbol i) (Home.percentage i).

(** The items a chat request carries. *)
Definition sent_items (p : option Home.Portfolio) : list ChatRoute.PortfolioItem :=
  match p with
  | Some q => map as_sent (Home.items q)
  | None => []
  end.

(** [portfolio?.items ?? []] *)
Definition items_of (p : option Home.Portfolio) : list Home.PortfolioItem :=
  match p with
  | Some q => Home.items q
  | None => []
  end.

Definition typing (text : string) (p : option Home.Portfolio) : Chat :=
  {| chatInput := text; chatMessages := []; chatLoading := false; portfolio := p |}.

End ClientTerms.

Section ExportTerms.
Import ExportScript.

(** Every file below an entry, as the names on the way to it. *)
Fixpoint files_of (e : Dirent) : list (list string) :=
  match e with
  | File name => [[name]]
  | Directory name entries => map (cons name) (flat_map files_of entries)
  end.

(** No name on the way is ignored or hidden. *)
Definition visible (ignore : list string) (names : list string) : bool :=
  forallb (fun n => negb (skipped ignore n)) names.

(** No entry has the empty name. *)
Fixpoint named (e : Dirent) : bool :=
  match e with
  | File name => negb (String.eqb name "")
  | Directory name entries => negb (String.eqb name "") && forallb named entries
  end.

Definition workspace : list Dirent :=
  [ Directory "client" [Directory "src" [File "App.tsx"; File ".env"]];
    Directory "scripts" [File "export-to-github.ts"];
    Directory "node_modules" [File "index.js"];
    File ".replit";
    File "package.json" ]%string.

End ExportTerms.

Section MintTerms.
Import JS HomeMint.

(** Three buddies with equal contributions. *)
Definition three_buddies : list Buddy :=
  [ {| buddy_name := "Ann"; contribution := 50 |};
    {| buddy_name := "Bob"; contribution := 50 |};
    {| buddy_name := "Cy"; contribution := 50 |} ]%Q.

End MintTerms.

(* ================================================================== *)
(** * Properties                                                      *)
(* ================================================================== *)

(** ** Sums and rounding *)

Section SumFacts.
Import JS.

Lemma sumZ_from {A} (f : A -> Z) (l : list A) (a : Z) :
  fold_left (fun s t => s + f t) l a = a + sumZ f l.
Proof.
  unfold sumZ. revert a.
  induction l as [|x l IH]; intros a; simpl.
  - lia.
  - rewrite IH, (IH (f x)). lia.
Qed.

Lemma sumZ_cons {A} (f : A -> Z) (x : A) (l : list A) :
  sumZ f (x :: l) = f x + sumZ f l.
Proof. unfold sumZ at 1. simpl. apply sumZ_from. Qed.

Lemma sumZ_map {A B} (g : A -> B) (f : B -> Z) (l : list A) :
  sumZ f (map g l) = sumZ (fun x => f (g x)) l.
Proof.
  induction l as [|x l IH]; [reflexivity|].
  simpl. rewrite !sumZ_cons, IH. reflexivity.
Qed.

Lemma sumQ_from {A} (f : A -> Q) (l : list A) (a : Q) :
  (fold_left (fun s t => s + f t) l a == a + sumQ f l)%Q.
Proof.
  unfold sumQ. revert a.
  induction l as [|x l IH]; intros a; simpl.
  - ring.
  - rewrite IH, (IH (0 + f x)%Q). ring.
Qed.

Lemma sumQ_cons {A} (f : A -> Q) (x : A) (l : list A) :
  (sumQ f (x :: l) == f x + sumQ f l)%Q.
Proof. unfold sumQ at 1. simpl. rewrite sumQ_from. ring. Qed.

(** A list of numbers that hold the integers [zs] sums to their sum. *)
Lemma sumQ_Forall2 {A} (f : A -> Q) (l : list A) (zs : list Z) :
  Forall2 (fun x z => f x == inject_Z z) l zs ->
  sumQ f l == inject_Z (sumZ (fun z => z) zs).
Proof.
  induction 1 as [|x z l zs Hx _ IH]; [reflexivity|].
  rewrite sumQ_cons, sumZ_cons, inject_Z_plus, Hx, IH. reflexivity.
Qed.


Lemma ltb_lt (a b : Q) : ltb a b = true <-> (a < b)%Q.
Proof. unfold ltb, Qlt. apply Z.ltb_lt. Qed.

Lemma ltb_ge (a b : Q) : ltb a b = false <-> (b <= a)%Q.
Proof. unfold ltb, Qle. apply Z.ltb_ge. Qed.

(** Rounding an integer gives it back. *)
Lemma Math_round_integer (z : Z) (x : Q) :
  x == inject_Z z -> Math_round x = z.
Proof.
  intros Hx. unfold Math_round.
  assert (H1 : (inject_Z z <= x + (1 # 2))%Q).
  { rewrite Hx. rewrite <- (Qplus_0_r (inject_Z z)) at 1.
    apply Qplus_le_r. discriminate. }
  assert (H2 : (x + (1 # 2) < inject_Z (z + 1))%Q).
  { rewrite Hx, inject_Z_plus. apply Qplus_lt_r. reflexivity. }
  apply Qfloor_resp_le in H1. rewrite Qfloor_Z in H1.
  assert (H4 : (inject_Z (Qfloor (x + (1 # 2))) < inject_Z (z + 1))%Q).
  { eapply Qle_lt_trans; [apply Qfloor_le | exact H2]. }
  rewrite <- Zlt_Qlt in H4. lia.
Qed.

End SumFacts.

(** ** The wallet lookup's percentages *)

Section WalletPercentages.
Import JS WalletRoute.

Lemma spread_add_to_first (d : Z) (l : list WalletToken) :
  map spread (add_to_first d l) = map spread l.
Proof. destruct l; reflexivity. Qed.


(** Every output entry is its input entry with a percentage added. *)
Lemma topTokens_spread (l : list RawToken) : map spread (topTokens l) = l.
Proof.
  unfold topTokens.
  match goal with |- context [if ?c then _ else _] => destruct c end.
  - rewrite spread_add_to_first, map_map. apply map_id.
  - rewrite map_map. apply map_id.
Qed.


(** Sorting a list none of whose elements must follow another changes
    nothing. *)
Lemma sort_all_zero (l : list RawToken) :
  Forall (fun t => balanceUsd t == 0) l -> sort after l = l.
Proof.
  induction 1 as [|x l Hx Hl IH]; [reflexivity|].
  simpl. rewrite IH. destruct Hl as [|y r Hy _]; [reflexivity|].
  simpl. replace (after x y) with false; [reflexivity|].
  symmetry. apply ltb_ge. rewrite Hx, Hy. apply Qle_refl.
Qed.


End WalletPercentages.

(** ** The chat edit's rescaling *)

Section ChatRescale.
Import JS ChatRoute.

Lemma fires_dec (total : Q) :
  ltb 0 total && ltb (1 # 2) (Qabs (total - 100)) = true <-> fires total.
Proof.
  unfold fires. rewrite andb_true_iff, !ltb_lt. reflexivity.
Qed.


Lemma rescale_idle (items : list PortfolioItem) :
  ~ fires (sumQ percentage items) -> rescale items = items.
Proof.
  intros Hf. unfold rescale.
  destruct (0 <? List.length items)%nat; [|reflexivity].
  destruct (ltb 0 _ && ltb _ _) eqn:E; [|reflexivity].
  apply fires_dec in E. contradiction.
Qed.








End ChatRescale.

(** ** Claims on the normalization *)

Section NormalizationClaims.
Import JS.

Example wallet_70_20_10 :
  map WalletRoute.percentage
      (WalletRoute.topTokens [token "A" 70; token "B" 20; token "C" 10])
  = [70; 20; 10].
Proof. vm_compute. reflexivity. Qed.

Example wallet_1_1_1 :
  map WalletRoute.percentage (WalletRoute.topTokens three_equal) = [34; 33; 33].
Proof. vm_compute. reflexivity. Qed.

Example wallet_first_item_below_second :
  map WalletRoute.percentage
      (WalletRoute.topTokens [token "A" (75 # 2); token "B" (75 # 2);
                              token "C" (25 # 2); token "D" (25 # 2)])
  = [36; 38; 13; 13].
Proof. vm_compute. reflexivity. Qed.

Example chat_50_30 :
  map (fun i => Qred (ChatRoute.percentage i)) (ChatRoute.rescale short_reply)
  = [62; 38]%Q.
Proof. vm_compute. reflexivity. Qed.








(** A wallet of worthless tokens is kept in input order, cut to five. *)
Lemma worthless_top5 (rawTokens : list WalletRoute.RawToken) :
  worthless rawTokens -> WalletRoute.top5Raw rawTokens = firstn 5 rawTokens.
Proof.
  intros Hz. unfold WalletRoute.top5Raw, slice0.
  rewrite sort_all_zero by exact Hz. reflexivity.
Qed.

(** Six worthless tokens in a wallet come back as five at 20 each. *)
Example six_worthless_lookup :
  map WalletRoute.percentage
      (WalletRoute.topTokens (WalletRoute.top5Raw six_worthless))
  = [20; 20; 20; 20; 20].
Proof. vm_compute. reflexivity. Qed.

Lemma pct_of_percentage (total : Q) (arr : list WalletRoute.RawToken)
    (t : WalletRoute.RawToken) (p : Z) :
  total == 100 -> WalletRoute.balanceUsd t == inject_Z p ->
  WalletRoute.pct total arr t = p.
Proof.
  intros Ht Hp. unfold WalletRoute.pct.
  replace (ltb 0 total) with true
    by (symmetry; apply ltb_lt; rewrite Ht; reflexivity).
  apply Math_round_integer. rewrite Hp, Ht. field.
Qed.

(** C3.  A non-empty list of integer percentages that sums to 100, taken as
    weights, is reproduced as it is by the wallet lookup's percentage code;
    the chat edit's rescaling leaves every list of total 100 untouched.
    Neither needs the percentages to be non-negative. *)
Theorem normalization_idempotent :
  (forall (l : list WalletRoute.RawToken) (ps : list Z),
      l <> [] ->
      Forall2 (fun t p => WalletRoute.balanceUsd t == inject_Z p) l ps ->
      sumZ (fun z => z) ps = 100 ->
      map WalletRoute.percentage (WalletRoute.topTokens l) = ps)
  /\ (forall items : list ChatRoute.PortfolioItem,
        sumQ ChatRoute.percentage items == 100 ->
        ChatRoute.rescale items = items).
Proof.
  split.
  - intros l ps Hne HF Hsum.
    assert (Ht : sumQ WalletRoute.balanceUsd l == 100).
    { rewrite (sumQ_Forall2 _ _ _ HF), Hsum. reflexivity. }
    unfold WalletRoute.topTokens.
    set (total := sumQ WalletRoute.balanceUsd l) in *.
    set (mapped := map _ l).
    assert (Hm : map WalletRoute.percentage mapped = ps).
    { subst mapped. rewrite map_map. cbn [WalletRoute.percentage].
      generalize l at 1. intros arr. clearbody total. clear Hne Hsum.
      induction HF as [|t p l ps Hp _ IH]; [reflexivity|].
      cbn [map]. rewrite IH, (pct_of_percentage total arr t p Ht Hp).
      reflexivity. }
    replace (sumZ WalletRoute.percentage mapped) with 100.
    + cbn [Z.eqb Pos.eqb negb andb]. exact Hm.
    + rewrite <- Hsum, <- Hm, sumZ_map. reflexivity.
  - intros items Hsum. apply rescale_idle.
    intros [_ Hf]. rewrite Hsum in Hf. discriminate.
Qed.

Lemma normalization_idempotent_witness :
  map WalletRoute.percentage
      (WalletRoute.topTokens [token "A" 36; token "B" 38; token "C" 13; token "D" 13])
  = [36; 38; 13; 13].
Proof.
  apply (proj1 normalization_idempotent
           [token "A" 36; token "B" 38; token "C" 13; token "D" 13]).
  - discriminate.
  - repeat constructor.
  - reflexivity.
Defined.

End NormalizationClaims.

(** ** Claims on the chat edit *)

Section ChatClaims.
Import JS ChatRoute.

Example zero_reply_validates :
  responseSchema_safeParse zero_reply_json = Some ("Done"%string, zero_reply).
Proof. reflexivity. Qed.




(** What does hold for a malformed reply: when the endpoint answers with a
    reply at all, the portfolio is the one it was sent and the reply is a
    truthy value; it answers with an error only when the reply parsed to
    [null]. *)
Lemma malformed_reply_keeps_portfolio
    (JSON_parse : string -> option json) (content : string)
    (portfolio : list PortfolioItem) :
  (JSON_parse content = None
   \/ exists parsed, JSON_parse content = Some parsed
                     /\ responseSchema_safeParse parsed = None) ->
  match interpret JSON_parse content portfolio with
  | Reply r p => p = portfolio /\ truthy (Some r) = true
  | Failure _ _ => JSON_parse content = Some JNull
  end.
Proof.
  unfold interpret. intros [Hn | [parsed [Hp Hs]]].
  - rewrite Hn. split; reflexivity.
  - rewrite Hp, Hs.
    destruct parsed as [| b | q | s | l | f]; cbn [parsed_reply chat_error];
      try (split; reflexivity).
    destruct (get "reply" f) as [v|] eqn:Ev; [|split; reflexivity].
    destruct (truthy (Some v)) eqn:Et; split; auto.
Qed.

(** Once the request is read and the model has answered with a non-empty
    text, the endpoint's answer is [interpret] of that text. *)
Lemma chat_interprets
    (completion : string -> list PortfolioItem -> Exn + option string)
    (JSON_parse : string -> option json) (body : option json)
    (msg content : string) (portfolio : list PortfolioItem) :
  request_parse body = inr (msg, portfolio) ->
  completion msg portfolio = inr (Some content) ->
  content <> ""%string ->
  chat completion JSON_parse body = interpret JSON_parse content portfolio.
Proof.
  intros Hr Hc Hne. unfold chat. rewrite Hr, Hc.
  destruct (String.eqb content "") eqn:E; [|reflexivity].
  apply String.eqb_eq in E. contradiction.
Qed.

Example sample_request_parses :
  request_parse sample_request = inr ("rebalance"%string, short_reply).
Proof. reflexivity. Qed.

Example unparseable_reply_keeps_portfolio :
  chat (answers "Sorry, I cannot do that.") parse_samples sample_request
  = Reply (JStr "I had trouble processing that. Could you try rephrasing?")
          short_reply.
Proof. vm_compute. reflexivity. Qed.

(** C4 fails on the code.  The reply [{"reply": 42, "portfolio": []}] does
    not validate ([reply] is no string); the endpoint then answers with the
    number 42 as its reply.  The reply [null] does not validate either; the
    endpoint then answers 500 with neither reply nor portfolio. *)
Theorem malformed_reply_not_a_string :
  responseSchema_safeParse numeric_reply_json = None
  /\ chat (answers numeric_reply_text) parse_samples sample_request
     = Reply (JNum 42) short_reply
  /\ responseSchema_safeParse JNull = None
  /\ chat (answers "null") parse_samples sample_request
     = Failure 500 "Cannot read properties of null (reading 'reply')".
Proof. repeat split; vm_compute; reflexivity. Qed.

End ChatClaims.

(** ** The pattern matcher decides the language of the pattern *)

Section RegexFacts.
Import Regex.

Lemma append_nil_inv (s1 s2 : string) :
  (s1 ++ s2)%string = EmptyString -> s1 = EmptyString /\ s2 = EmptyString.
Proof. destruct s1; simpl; [auto | discriminate]. Qed.

Lemma matches_nullable (r : regex) (s : string) :
  matches r s -> s = EmptyString -> nullable r = true.
Proof.
  induction 1 as [| c | c rs Hc | r1 r2 s1 s2 _ IH1 _ IH2
                  | r1 r2 s _ IH | r1 r2 s _ IH]; intros Hs; simpl;
    try discriminate; try reflexivity.
  - apply append_nil_inv in Hs as [H1 H2]. rewrite IH1, IH2; auto.
  - rewrite IH; auto.
  - rewrite IH; auto using orb_true_r.
Qed.

Lemma nullable_matches (r : regex) : nullable r = true -> matches r EmptyString.
Proof.
  induction r as [| | c | rs | r1 IH1 r2 IH2 | r1 IH1 r2 IH2]; simpl;
    try discriminate.
  - intros _. constructor.
  - intros H. apply andb_true_iff in H as [H1 H2].
    change EmptyString with (EmptyString ++ EmptyString)%string.
    constructor; auto.
  - intros H. apply orb_true_iff in H as [H | H].
    + apply MAltL; auto.
    + apply MAltR; auto.
Qed.

Lemma matches_deriv (r : regex) (s' : string) :
  matches r s' -> forall c s, s' = String c s -> matches (deriv c r) s.
Proof.
  induction 1 as [| d | d rs Hd | r1 r2 s1 s2 H1 IH1 H2 IH2
                  | r1 r2 s0 _ IH | r1 r2 s0 _ IH]; intros c s Hs; simpl.
  - discriminate.
  - injection Hs as -> <-. rewrite Ascii.eqb_refl. constructor.
  - injection Hs as -> <-. rewrite Hd. constructor.
  - destruct s1 as [|c1 s1]; simpl in Hs.
    + rewrite (matches_nullable _ _ H1 eq_refl). apply MAltR. auto.
    + injection Hs as -> <-.
      destruct (nullable r1).
      * apply MAltL. constructor; auto.
      * constructor; auto.
  - apply MAltL; auto.
  - apply MAltR; auto.
Qed.

Lemma deriv_matches (r : regex) :
  forall c s, matches (deriv c r) s -> matches r (String c s).
Proof.
  induction r as [| | d | rs | r1 IH1 r2 IH2 | r1 IH1 r2 IH2];
    intros c s H; simpl in H.
  - inversion H.
  - inversion H.
  - destruct (Ascii.eqb c d) eqn:E; inversion H; subst.
    apply Ascii.eqb_eq in E. subst. constructor.
  - destruct (existsb (in_range c) rs) eqn:E; inversion H; subst.
    constructor. exact E.
  - assert (HSeq : forall t, matches (Seq (deriv c r1) r2) t ->
                             matches (Seq r1 r2) (String c t)).
    { intros t Ht. inversion Ht; subst.
      change (String c (s1 ++ s2)) with (String c s1 ++ s2)%string.
      constructor; auto. }
    destruct (nullable r1) eqn:N.
    + inversion H; subst; [auto|].
      change (String c s) with (EmptyString ++ String c s)%string.
      constructor; [apply nullable_matches, N | auto].
    + auto.
  - inversion H; subst; [apply MAltL | apply MAltR]; auto.
Qed.

(** [test] accepts exactly the strings of the language. *)
Lemma test_matches (r : regex) (s : string) : test r s = true <-> matches r s.
Proof.
  revert r. induction s as [|c s IH]; intros r; simpl.
  - split; [apply nullable_matches | intros H; apply (matches_nullable _ _ H eq_refl)].
  - rewrite IH. split; [apply deriv_matches | intros H; apply (matches_deriv _ _ H _ _ eq_refl)].
Qed.

End RegexFacts.

(** ** Claims on the wallet lookup *)

Section WalletClaims.
Import JS Regex Shared WalletRoute.

Lemma times_hex_shape (n : nat) (s : string) :
  matches (times n hex_class) s <-> String.length s = n /\ all_hex s = true.
Proof.
  revert s. induction n as [|n IH]; intros s; simpl.
  - split.
    + intros H. inversion H; subst. split; reflexivity.
    + intros [H _]. destruct s; [constructor | discriminate].
  - split.
    + intros H. inversion H as [| | | r1 r2 s1 s2 H1 H2 | |]; subst.
      inversion H1 as [| | c rs Hc | | |]; subst.
      apply IH in H2 as [Hl Hh]. simpl. rewrite Hl.
      split; [reflexivity|].
      apply andb_true_iff. split; assumption.
    + intros [Hl Hh]. destruct s as [|c s]; [discriminate|].
      simpl in Hl, Hh. apply andb_true_iff in Hh as [Hc Hh].
      change (String c s) with (String c EmptyString ++ s)%string.
      constructor; [constructor; exact Hc|].
      apply IH. split; [congruence | assumption].
Qed.

(** The language of the address pattern: ["0x"] and forty hex digits. *)
Lemma address_shape (s : string) :
  matches address_regex s
  <-> exists h, s = ("0x" ++ h)%string /\ String.length h = 40%nat /\ all_hex h = true.
Proof.
  unfold address_regex. split.
  - intros H. inversion H as [| | | r1 r2 s1 s2 H1 H2 | |]; subst.
    inversion H1; subst.
    inversion H2 as [| | | r1' r2' s1' s2' H3 H4 | |]; subst.
    inversion H3; subst.
    exists s2'. split; [reflexivity|]. apply (times_hex_shape 40). exact H4.
  - intros [h [-> Hh]].
    change ("0x" ++ h)%string with ("0" ++ ("x" ++ h))%string.
    constructor; [constructor|]. constructor; [constructor|].
    apply (times_hex_shape 40). exact Hh.
Qed.

Lemma input_parse_accepts (body : option json) (s : string) :
  wallet_lookup_input_parse body = inr s
  <-> carries_address body s /\ matches address_regex s.
Proof.
  unfold wallet_lookup_input_parse, carries_address. split.
  - intros H. destruct body as [[| | | | |fields]|]; try discriminate.
    destruct (get "address" fields) as [[| | |a| |]|] eqn:Ea; try discriminate.
    destruct (test address_regex a) eqn:Et; [|discriminate].
    injection H as ->. split; [eauto|]. apply test_matches. exact Et.
  - intros [[fields [-> Hg]] Hm]. rewrite Hg.
    apply test_matches in Hm. rewrite Hm. reflexivity.
Qed.

Lemma input_parse_rejects (body : option json) :
  (forall s, wallet_lookup_input_parse body <> inr s) ->
  exists m, wallet_lookup_input_parse body = inl (ZodError m).
Proof.
  unfold wallet_lookup_input_parse. intros H.
  destruct body as [[| | | | |fields]|]; eauto.
  destruct (get "address" fields) as [[| | |a| |]|]; eauto.
  destruct (test address_regex a); eauto.
  exfalso. apply (H a). reflexivity.
Qed.

(** C6.  A request that does not carry a string matching
    [^0x[a-fA-F0-9]{40}$] in its [address] field is answered 400 and leaves
    the server as it was: Ethplorer is not asked and no history row is
    written.  A request that carries a matching address passes validation
    with that address, and the lookup for it is then made. *)
Theorem wallet_lookup_validates_address
    (toFixed : Q -> nat -> string) (ethplorer : string -> Fetch)
    (body : option json) (st : Server) :
  ((forall s, carries_address body s -> ~ matches address_regex s) ->
     wallet_lookup toFixed ethplorer body st
     = (Res 400 (Message "Invalid Ethereum address format"), st))
  /\ (forall s, carries_address body s -> matches address_regex s ->
        wallet_lookup_input_parse body = inr s
        /\ lookups (snd (wallet_lookup toFixed ethplorer body st))
           = s :: lookups st).
Proof.
  split.
  - intros Hbad.
    destruct (input_parse_rejects body) as [m Hm].
    { intros s Hs. apply input_parse_accepts in Hs as [Hc Hmatch].
      exact (Hbad s Hc Hmatch). }
    unfold wallet_lookup. rewrite Hm. reflexivity.
  - intros s Hc Hmatch.
    assert (Hp : wallet_lookup_input_parse body = inr s)
      by (apply input_parse_accepts; split; assumption).
    split; [exact Hp|].
    unfold wallet_lookup. rewrite Hp.
    destruct (ethplorer s) as [[| | |]| |data]; try reflexivity.
    destruct (error data); reflexivity.
Qed.

Example vitalik_matches : test address_regex vitalik = true.
Proof. vm_compute. reflexivity. Qed.

Example elon_does_not_match : test address_regex "Elon Musk" = false.
Proof. vm_compute. reflexivity. Qed.

Example trailing_newline_does_not_match :
  test address_regex (vitalik ++ String "010"%char "") = false.
Proof. vm_compute. reflexivity. Qed.

Lemma wallet_lookup_validates_address_witness :
  wallet_lookup (fun _ _ => "0"%string) no_answer
                (Some (JObj [("address"%string, JStr "Elon Musk")])) fresh_server
  = (Res 400 (Message "Invalid Ethereum address format"), fresh_server)
  /\ wallet_lookup_input_parse (Some (JObj [("address"%string, JStr vitalik)]))
     = inr vitalik.
Proof.
  split.
  - apply (proj1 (wallet_lookup_validates_address (fun _ _ => "0"%string) no_answer
                    (Some (JObj [("address"%string, JStr "Elon Musk")]))
                    fresh_server)).
    intros s [fields [Hb Hg]] Hm.
    injection Hb as <-. injection Hg as <-.
    apply test_matches in Hm. discriminate Hm.
  - apply (proj2 (wallet_lookup_validates_address (fun _ _ => "0"%string) no_answer
                    (Some (JObj [("address"%string, JStr vitalik)]))
                    fresh_server) vitalik).
    + exists [("address"%string, JStr vitalik)]. split; reflexivity.
    + apply test_matches. vm_compute. reflexivity.
Defined.

(** *** Sorting and truncation *)

Lemma insert_count {A} (after p : A -> A -> bool) (z x : A) (l : list A) :
  List.length (filter (p z) (insert after x l))
  = List.length (filter (p z) (x :: l)).
Proof.
  induction l as [|y r IH]; [reflexivity|].
  simpl in *. destruct (after x y); [|reflexivity].
  simpl. destruct (p z y), (p z x); simpl in *; lia.
Qed.

Lemma sort_count {A} (after p : A -> A -> bool) (z : A) (l : list A) :
  List.length (filter (p z) (sort after l)) = List.length (filter (p z) l).
Proof.
  induction l as [|x r IH]; [reflexivity|].
  simpl sort. rewrite insert_count. simpl. destruct (p z x); simpl; lia.
Qed.

(** An element that fewer than [n] others must precede lands among the
    first [n]. *)
Lemma insert_in_firstn {A} (after : A -> A -> bool) (x : A) (l : list A) (n : nat) :
  (List.length (filter (after x) l) < n)%nat ->
  In x (firstn n (insert after x l)).
Proof.
  revert n. induction l as [|y r IH]; intros n Hn.
  - destruct n; [simpl in Hn; lia | left; reflexivity].
  - simpl in *. destruct (after x y).
    + destruct n; simpl in *; [lia|]. right. apply IH. lia.
    + destruct n; [lia | left; reflexivity].
Qed.

Lemma insert_Forall {A} (after : A -> A -> bool) (P : A -> Prop) (x : A) (l : list A) :
  P x -> Forall P l -> Forall P (insert after x l).
Proof.
  intros Hx Hl. induction Hl as [|y r Hy Hr IH]; simpl.
  - constructor; auto.
  - destruct (after x y); repeat constructor; auto.
Qed.

Lemma insert_descending (x : RawToken) (l : list RawToken) :
  StronglySorted descending l -> StronglySorted descending (insert after x l).
Proof.
  induction 1 as [|y r Hs IH Hy]; simpl.
  - repeat constructor.
  - destruct (after x y) eqn:E.
    + constructor; [exact IH|].
      apply insert_Forall; [|exact Hy].
      apply ltb_lt in E. apply Qlt_le_weak. exact E.
    + apply ltb_ge in E.
      constructor; [constructor; assumption|].
      constructor; [exact E|].
      eapply Forall_impl; [|exact Hy].
      intros z Hz. unfold descending in *. eapply Qle_trans; eassumption.
Qed.

Lemma sort_descending (l : list RawToken) :
  StronglySorted descending (sort after l).
Proof.
  induction l as [|x r IH]; simpl; [constructor | apply insert_descending, IH].
Qed.

Lemma in_firstn {A} (z : A) (n : nat) (l : list A) :
  In z (firstn n l) -> In z l.
Proof.
  revert n. induction l as [|y r IH]; intros [|n]; simpl; try tauto.
  intros [H | H]; [left; exact H | right; exact (IH n H)].
Qed.

Lemma firstn_descending (n : nat) (l : list RawToken) :
  StronglySorted descending l -> StronglySorted descending (firstn n l).
Proof.
  intros H. revert n.
  induction H as [|x r Hs IH Hx]; intros [|n]; simpl; try constructor.
  - apply IH.
  - rewrite Forall_forall in *. intros z Hz. apply Hx.
    exact (in_firstn z n r Hz).
Qed.

(** A 200 answer is the normalized top five of what Ethplorer reported for
    the validated address. *)
Lemma wallet_lookup_200
    (toFixed : Q -> nat -> string) (ethplorer : string -> Fetch)
    (body : option json) (st st' : Server) (addr : string)
    (toks : list WalletToken) :
  wallet_lookup toFixed ethplorer body st = (Res 200 (Lookup addr toks), st') ->
  exists data,
    ethplorer addr = FetchOk data
    /\ toks = topTokens (top5Raw (rawTokens toFixed data)).
Proof.
  unfold wallet_lookup.
  destruct (wallet_lookup_input_parse body) as [[| | |]|a]; try discriminate.
  destruct (ethplorer a) as [[| | |]| |data] eqn:Ef; try discriminate.
  destruct (error data); [discriminate|].
  cbn. intros H. injection H as <- <- _.
  exists data. split; [exact Ef | reflexivity].
Qed.

(** And a validated request that Ethplorer answers without an error is
    answered 200, with one more history row. *)
Lemma wallet_lookup_answers
    (toFixed : Q -> nat -> string) (ethplorer : string -> Fetch)
    (body : option json) (st : Server) (addr : string) (data : AddressInfo) :
  wallet_lookup_input_parse body = inr addr ->
  ethplorer addr = FetchOk data ->
  error data = None ->
  exists st',
    wallet_lookup toFixed ethplorer body st
    = (Res 200 (Lookup addr (topTokens (top5Raw (rawTokens toFixed data)))), st')
    /\ List.length (walletSearches st') = S (List.length (walletSearches st)).
Proof.
  intros Hp Hf He. unfold wallet_lookup. rewrite Hp, Hf, He. cbn.
  eexists. split; [reflexivity|]. cbn. rewrite length_app. simpl. lia.
Qed.

(** C7.  A successful wallet lookup returns at most 5 tokens, in descending
    order of USD balance; and when the wallet's ETH balance is positive and
    fewer than five holdings are worth strictly more than the ETH holding,
    the Ethereum entry is among the returned tokens. *)
Theorem wallet_lookup_top5
    (toFixed : Q -> nat -> string) (ethplorer : string -> Fetch)
    (body : option json) (st st' : Server) (addr : string)
    (toks : list WalletToken) :
  wallet_lookup toFixed ethplorer body st = (Res 200 (Lookup addr toks), st') ->
  (List.length toks <= 5)%nat
  /\ StronglySorted descending (map spread toks)
  /\ exists data,
       ethplorer addr = FetchOk data
       /\ forall (e : EthInfo) (b : Q),
            ETH data = Some e ->
            eth_balance e = Some b ->
            (0 < b)%Q ->
            (List.length (filter (after (ethEntry toFixed e)) (rawTokens toFixed data))
             < 5)%nat ->
            exists t, In t toks
                      /\ spread t = ethEntry toFixed e
                      /\ name (spread t) = "Ethereum"%string
                      /\ symbol (spread t) = "ETH"%string.
Proof.
  intros H. apply wallet_lookup_200 in H as [data [Hf ->]].
  pose proof (topTokens_spread (top5Raw (rawTokens toFixed data))) as Hsp.
  split; [|split].
  - rewrite <- (length_map spread), Hsp. unfold top5Raw, slice0.
    rewrite length_firstn. lia.
  - rewrite Hsp. apply firstn_descending, sort_descending.
  - exists data. split; [exact Hf|].
    intros e b He _ _ Hrank.
    assert (Hin : In (ethEntry toFixed e) (top5Raw (rawTokens toFixed data))).
    { unfold top5Raw, slice0, rawTokens in *. rewrite He in *.
      cbn [app sort] in *. apply insert_in_firstn.
      rewrite sort_count. cbn [filter] in Hrank.
      destruct (after (ethEntry toFixed e) (ethEntry toFixed e)); simpl in Hrank; lia. }
    rewrite <- Hsp in Hin. apply in_map_iff in Hin as [t [Ht Hin]].
    exists t. rewrite Ht. repeat split; assumption || reflexivity.
Qed.

Example sample_wallet_lookup :
  match fst (wallet_lookup (fun _ _ => "0"%string) (fun _ => FetchOk sample_wallet)
                           sample_body fresh_server) with
  | Res 200 (Lookup a toks) =>
      map (fun t => (symbol (spread t), percentage t)) toks
      = [("USDC", 67); ("ETH", 27); ("DAI", 3); ("LINK", 2); ("UNI", 1)]%string
  | _ => False
  end.
Proof. vm_compute. reflexivity. Qed.

Lemma wallet_lookup_top5_witness :
  exists toks st',
    wallet_lookup (fun _ _ => "0"%string) (fun _ => FetchOk sample_wallet)
                  sample_body fresh_server
    = (Res 200 (Lookup vitalik toks), st')
    /\ (List.length toks <= 5)%nat
    /\ exists t, In t toks /\ name (spread t) = "Ethereum"%string.
Proof.
  eexists. eexists. split; [vm_compute; reflexivity|].
  match goal with
  | |- (List.length ?toks <= 5)%nat /\ _ =>
      destruct (wallet_lookup_top5 (fun _ _ => "0"%string)
                  (fun _ => FetchOk sample_wallet) sample_body fresh_server
                  {| walletSearches :=
                       [{| id := 1; address := vitalik; search_tokens := toks |}];
                     lookups := [vitalik] |}
                  vitalik toks ltac:(vm_compute; reflexivity))
        as [Hlen [_ [data [Hf Heth]]]]
  end.
  split; [exact Hlen|].
  injection Hf as <-.
  destruct (Heth {| eth_balance := Some 2%Q;
                    eth_price := Some {| rate := Some 2000%Q |} |} 2%Q
              eq_refl eq_refl ltac:(reflexivity)
              ltac:(apply Nat.ltb_lt; vm_compute; reflexivity))
    as [t [Hin [_ [Hname _]]]].
  exists t. split; assumption.
Defined.

End WalletClaims.

(** ** Claims on the deployment run *)

Section ShareClaims.
Import JS Home.







End ShareClaims.

Section DeployClaims.
Import JS Home.

Variable World : Type.
Variable toLowerCase : string -> string.
Variable string_of_number : Q -> string.
Variable toFixed : Q -> nat -> string.
Variable Date_now : World -> Z.
Variable api_check_tokens : list string -> World -> (Exn + list TokenCheck) * World.
Variable getNetwork : World -> (Exn + Z) * World.
Variable getSigner : World -> (Exn + unit) * World.
Variable getBalance : string -> World -> (Exn + Z) * World.
Variable estimateGas : SwapParams -> Z -> World -> (Exn + Z) * World.
Variable getFeeData : World -> (Exn + option Z) * World.
Variable exactInputSingle : SwapParams -> Z -> World -> (Exn + unit) * World.

Local Abbreviation deploy :=
  (deployPortfolio World toLowerCase string_of_number toFixed Date_now
     api_check_tokens getNetwork getSigner getBalance estimateGas getFeeData
     exactInputSingle).

Local Abbreviation run_loop :=
  (loop World toLowerCase string_of_number toFixed Date_now
     getBalance estimateGas getFeeData exactInputSingle).

(** Reduce the projections of the run's state after a step. *)
Ltac state_step :=
  cbn [world deployLoading deployStatus tokenChecks log snd fst].

Lemma unavailable_nonempty (checks : list TokenCheck) :
  (exists t, In t checks /\ available t = false) ->
  (0 <? List.length (unavailable checks))%nat = true.
Proof.
  intros [t [Hin Ht]]. apply Nat.ltb_lt.
  assert (H : In t (unavailable checks)).
  { apply filter_In. split; [exact Hin | rewrite Ht; reflexivity]. }
  destruct (unavailable checks); [contradiction | simpl; lia].
Qed.

(** C8.  When the availability check answers and marks at least one symbol
    unavailable, the run stops there: the check is the only call it makes to
    the outside, so no swap is submitted, and the status it leaves names the
    unavailable symbols. *)
Theorem unavailable_token_aborts_run
    (p : Portfolio) (addr : string) (st : St World)
    (checks : list TokenCheck) (w : World) :
  items p <> [] ->
  addr <> ""%string ->
  api_check_tokens (symbols_of p) (world st) = (inr checks, w) ->
  (exists t, In t checks /\ available t = false) ->
  let st' := deploy (Some p) (Some addr) st in
  log st' = CheckTokens (symbols_of p) :: log st
  /\ filter is_swap (log st') = filter is_swap (log st)
  /\ deployStatus st'
     = Some (string_of_nat (List.length (unavailable checks)) ++ " asset"
             ++ (if (1 <? List.length (unavailable checks))%nat then "s" else "")
             ++ " not available on Uniswap: "
             ++ join ", " (map symbol (unavailable checks)))%string
  /\ (forall t, In t checks -> available t = false ->
                In (symbol t) (map symbol (unavailable checks)))
  /\ tokenChecks st' = Some checks
  /\ deployLoading st' = false
  /\ world st' = w.
Proof.
  intros Hne Haddr Hapi Hmiss st'.
  assert (Hst : st' = {| world := w; deployLoading := false;
                         deployStatus := Some (missing_status (unavailable checks));
                         tokenChecks := Some checks;
                         log := CheckTokens (symbols_of p) :: log st |}).
  { subst st'. unfold deployPortfolio.
    destruct (items p) as [|i r] eqn:Ei; [congruence|].
    cbn [List.length Nat.eqb].
    destruct (String.eqb addr "") eqn:Ea; [apply String.eqb_eq in Ea; congruence|].
    unfold deploy_try, bind, try_catch, call, setDeployLoading, setDeployStatus,
      setTokenChecks. state_step.
    fold (symbols_of p) in *. unfold symbols_of in *. rewrite Ei in *.
    rewrite Hapi.
    fold (unavailable checks). rewrite (unavailable_nonempty checks Hmiss).
    reflexivity. }
  rewrite Hst. state_step.
  repeat split.
  - intros t Hin Ht. apply in_map. apply filter_In.
    split; [exact Hin | rewrite Ht; reflexivity].
Qed.

(** The margin: the estimate plus a fifth of it, rounded down. *)
Lemma gasCost_margin (gasEstimate gasPrice : Z) :
  gasCost gasEstimate gasPrice
  = gasEstimate * gasPrice + Z.quot (gasEstimate * gasPrice * 20) 100.
Proof.
  unfold gasCost.
  replace (gasEstimate * gasPrice * 120)
    with (gasEstimate * gasPrice * 20 + gasEstimate * gasPrice * 100) by ring.
  rewrite Z.quot_add by nia. ring.
Qed.

(** C9.  The gas cost the run compares is the estimate at the current gas
    price plus 20% of it.  When, for the token at hand, that cost is at least
    the balance just read, the loop ends there whatever tokens are left: the
    only calls made are the balance read, the gas estimate and the fee
    query, no swap is submitted, and the status says that gas cannot be
    paid. *)
Theorem gas_cutoff_halts_run
    (addr : string) (p : Portfolio) (total : Q)
    (token : TokenCheck) (rest : list TokenCheck) (item : PortfolioItem)
    (n : nat) (st : St World)
    (balance prelim gasEstimate : Z) (feeGasPrice : option Z) (w1 w2 w3 : World) :
  find_item toLowerCase p token = Some item ->
  getBalance addr (world st) = (inr balance, w1) ->
  share balance (percentage item) total = inr prelim ->
  prelim <> 0 ->
  let params :=
    {| tokenIn := WETH_ADDRESS; tokenOut := address token; fee := 3000;
       recipient := addr; deadline := Date_now w1 / 1000 + 1800;
       amountIn := prelim; amountOutMinimum := 1; sqrtPriceLimitX96 := 0 |} in
  estimateGas params prelim w1 = (inr gasEstimate, w2) ->
  getFeeData w2 = (inr feeGasPrice, w3) ->
  let cost := gasCost gasEstimate (gasPrice_of feeGasPrice) in
  balance <= cost ->
  cost = gasEstimate * gasPrice_of feeGasPrice
         + Z.quot (gasEstimate * gasPrice_of feeGasPrice * 20) 100
  /\ exists st',
       run_loop addr p total (token :: rest) n st = (inr n, st')
       /\ world st' = w3
       /\ log st'
          = Toast "Not enough ETH for gas"
                  ("The " ++ symbol token ++ " swap needs ~" ++ eth_text toFixed cost
                   ++ " ETH in gas but your wallet can't cover it.")
            :: GetFeeData :: EstimateGas params prelim :: GetBalance :: log st
       /\ filter is_swap (log st') = filter is_swap (log st)
       /\ deployStatus st'
          = Some ("Not enough ETH for gas. Need ~" ++ eth_text toFixed cost
                  ++ " ETH for " ++ symbol token ++ " swap.")%string.
Proof.
  intros Hfind Hbal Hshare Hprelim params Hest Hfee cost Hcost.
  split; [apply gasCost_margin|].
  eexists. split.
  - cbn [loop]. rewrite Hfind.
    unfold iteration, bind, call, throw_or, try_catch, setDeployStatus, toast,
      now, ret.
    state_step.
    rewrite Hbal. state_step.
    rewrite Hshare.
    replace (prelim =? 0) with false by (symmetry; apply Z.eqb_neq; exact Hprelim).
    state_step.
    fold params. rewrite Hest.
    state_step.
    rewrite Hfee. fold cost.
    replace (balance <=? cost) with true by (symmetry; apply Z.leb_le; exact Hcost).
    state_step.
    reflexivity.
  - state_step.
    repeat split.
Qed.

End DeployClaims.

(** ** A concrete world for the deployment run *)

Section DeployExamples.
Import JS Home.

Example one_of_two_unavailable :
  deployStatus (run_example btc_usdc 1000000000000000000)
  = Some "1 asset not available on Uniswap: BTC"%string
  /\ log (run_example btc_usdc 1000000000000000000)
     = [CheckTokens ["BTC"; "USDC"]%string].
Proof. vm_compute. split; reflexivity. Qed.

Example both_available_two_swaps :
  deployStatus (run_example usdc_dai 1000000000000000000)
  = Some "Portfolio deployed! 2/2 swaps completed."%string
  /\ List.length (filter is_swap (log (run_example usdc_dai 1000000000000000000)))
     = 2%nat.
Proof. vm_compute. split; reflexivity. Qed.

Example poor_wallet_halts_at_first_token :
  deployStatus (run_example usdc_dai 1000)
  = Some "No swaps were completed. Transactions may have been rejected."%string
  /\ map (fun e => match e with
                    | EstimateGas q _ => tokenOut q
                    | _ => None
                    end)
         (log (run_example usdc_dai 1000))
     = [None; None; Some "0xA0b86991c6218b36c1d19D4a2e9Eb0cE3606eB48"%string;
        None; None; None; None; None].
Proof. vm_compute. split; reflexivity. Qed.

Lemma unavailable_token_aborts_run_witness :
  log (run_example btc_usdc 1000000000000000000)
  = [CheckTokens ["BTC"; "USDC"]%string]
  /\ deployStatus (run_example btc_usdc 1000000000000000000)
     = Some "1 asset not available on Uniswap: BTC"%string.
Proof.
  destruct (unavailable_token_aborts_run Z lower show_number fixed clock api
              network signer balance_of estimate fee_data swap
              btc_usdc me (start 1000000000000000000)
              (check_tokens lower token_list ["BTC"; "USDC"]%string)
              1000000000000000000
              ltac:(discriminate) ltac:(discriminate) eq_refl
              ltac:(eexists; split; [left; reflexivity | reflexivity]))
    as [Hlog [_ [Hstatus _]]].
  split; [exact Hlog | exact Hstatus].
Defined.

Lemma gas_cutoff_halts_run_witness :
  exists st',
    loop Z lower show_number fixed clock balance_of estimate fee_data swap
         me usdc_dai 100 [usdc_check; dai_check] 0 (start 1000)
    = (inr 0%nat, st')
    /\ filter is_swap (log st') = [].
Proof.
  destruct (gas_cutoff_halts_run Z lower show_number fixed clock
              balance_of estimate fee_data swap
              me usdc_dai 100 usdc_check [dai_check]
              (mkItem "USD Coin" (Some "usdc"%string) 60) 0 (start 1000)
              1000 600 150000 (Some 30000000000) 1000 1000 1000
              eq_refl eq_refl eq_refl ltac:(discriminate) eq_refl eq_refl
              ltac:(discriminate))
    as [_ [st' [Hrun [_ [_ [Hswaps _]]]]]].
  exists st'. split; [exact Hrun | exact Hswaps].
Defined.

End DeployExamples.

(** ** The report NFT contract *)

Section NFTFacts.
Import DefiBuddyNFT.

Lemma write_same {A} (m : Z -> A) (k : Z) (v : A) : write m k v k = v.
Proof. unfold write. rewrite Z.eqb_refl. reflexivity. Qed.

Lemma write_other {A} (m : Z -> A) (k k' : Z) (v : A) :
  k' <> k -> write m k v k' = m k'.
Proof. intros H. unfold write. apply Z.eqb_neq in H. rewrite H. reflexivity. Qed.

Lemma owned_bounds (owners : uint256 -> address) (a : address) (n : nat) :
  0 <= owned owners a n <= Z.of_nat n.
Proof.
  induction n as [|k IH]; simpl owned; [lia|].
  destruct (owners (Z.of_nat k) =? a); lia.
Qed.

(** Writing an owner at or above the counted range changes no count. *)
Lemma owned_write_above (owners : uint256 -> address) (a v : address)
    (id : Z) (n : nat) :
  Z.of_nat n <= id -> owned (write owners id v) a n = owned owners a n.
Proof.
  induction n as [|k IH]; intros H; simpl owned; [reflexivity|].
  rewrite IH by lia. rewrite write_other by lia. reflexivity.
Qed.

(** Writing an owner inside the range moves one unit of count. *)
Lemma owned_write_inside (owners : uint256 -> address) (a v : address)
    (id : Z) (n : nat) :
  0 <= id < Z.of_nat n ->
  owned (write owners id v) a n
  = owned owners a n - (if owners id =? a then 1 else 0)
    + (if v =? a then 1 else 0).
Proof.
  induction n as [|k IH]; intros H; simpl owned; [lia|].
  destruct (Z.eq_dec id (Z.of_nat k)) as [-> | Hne].
  - rewrite owned_write_above by lia. rewrite write_same. lia.
  - rewrite IH by lia. rewrite write_other by congruence. lia.
Qed.

(** A token inside the range counts for its owner. *)
Lemma owned_positive (owners : uint256 -> address) (id : Z) (n : nat) :
  0 <= id < Z.of_nat n -> 1 <= owned owners (owners id) n.
Proof.
  induction n as [|k IH]; intros H; simpl owned; [lia|].
  destruct (Z.eq_dec id (Z.of_nat k)) as [-> | Hne].
  - rewrite Z.eqb_refl. pose proof (owned_bounds owners (owners (Z.of_nat k)) k). lia.
  - specialize (IH ltac:(lia)).
    destruct (owners (Z.of_nat k) =? owners id); lia.
Qed.

(** With a token of someone else inside the range, a count stays below the
    size of the range. *)
Lemma owned_below (owners : uint256 -> address) (a : address) (id : Z) (n : nat) :
  0 <= id < Z.of_nat n -> owners id <> a -> owned owners a n < Z.of_nat n.
Proof.
  induction n as [|k IH]; intros H Hne; simpl owned; [lia|].
  destruct (Z.eq_dec id (Z.of_nat k)) as [-> | Hk].
  - apply Z.eqb_neq in Hne. rewrite Hne.
    pose proof (owned_bounds owners a k). lia.
  - specialize (IH ltac:(lia) Hne).
    destruct (owners (Z.of_nat k) =? a); lia.
Qed.

(** Who may move a token is never [address(0)]'s business: for a sender
    other than [address(0)], being approved or owner means the token has an
    owner, hence was minted. *)
Lemma authorized_minted (s : Storage) (sender : address) (tokenId : uint256) :
  consistent s -> sender <> 0 ->
  _isApprovedOrOwner s sender tokenId = true ->
  _owners s tokenId <> 0 /\ 0 <= tokenId < _nextTokenId s.
Proof.
  intros C Hs Ha.
  assert (Ho : _owners s tokenId <> 0).
  { intros H0. unfold _isApprovedOrOwner in Ha. rewrite H0 in Ha.
    rewrite (unowned_unapproved s C tokenId H0) in Ha.
    rewrite (zero_has_no_operator s C) in Ha.
    rewrite orb_false_r in Ha. apply orb_true_iff in Ha as [Ha | Ha].
    - apply Z.eqb_eq in Ha. contradiction.
    - apply Z.eqb_eq in Ha. congruence. }
  split; [exact Ho|].
  destruct (Z_le_dec 0 tokenId) as [H1|H1];
    [destruct (Z_lt_dec tokenId (_nextTokenId s)) as [H2|H2]; [lia|]|];
    exfalso; apply Ho; apply (unminted_unowned s C); lia.
Qed.

Lemma deployed_consistent : consistent deployed.
Proof.
  split; simpl; intros; try reflexivity.
  unfold MAX_UINT256. split; [lia|]. apply Z.lt_le_pred. reflexivity.
Qed.

Lemma next_nat (s : Storage) :
  consistent s -> Z.of_nat (Z.to_nat (_nextTokenId s)) = _nextTokenId s.
Proof. intros C. apply Z2Nat.id. apply (next_range s C). Qed.

Lemma mint_consistent (s s' : Storage) (sender to : address) (uri : string)
    (id : uint256) (ev : list Event) :
  consistent s -> mint sender to uri s = Some (id, s', ev) -> consistent s'.
Proof.
  intros C H. unfold mint, incr in H.
  destruct (_nextTokenId s <? MAX_UINT256) eqn:En; [|discriminate].
  destruct (_balances s to <? MAX_UINT256) eqn:Eb; [|discriminate].
  injection H as <- <- <-. apply Z.ltb_lt in En.
  pose proof (next_range s C) as Hr. pose proof (next_nat s C) as Hn.
  split; cbn [_owners _balances _tokenURIs _tokenApprovals _operatorApprovals
              _nextTokenId].
  - lia.
  - intros id Hid. rewrite write_other by lia.
    apply (unminted_unowned s C). lia.
  - intros id Hid. destruct (Z.eq_dec id (_nextTokenId s)) as [-> | Hne].
    + apply (unowned_unapproved s C), (unminted_unowned s C). lia.
    + rewrite write_other in Hid by exact Hne.
      apply (unowned_unapproved s C). exact Hid.
  - apply (zero_has_no_operator s C).
  - intros a. rewrite Z2Nat.inj_add by lia.
    change (Z.to_nat 1) with 1%nat. rewrite Nat.add_1_r. simpl owned.
    rewrite Hn, write_same, owned_write_above by lia.
    rewrite (balances_count s C to). unfold write.
    rewrite (Z.eqb_sym to a).
    destruct (a =? to) eqn:E.
    + apply Z.eqb_eq in E. subst a. lia.
    + rewrite (balances_count s C a). lia.
Qed.

Lemma transferFrom_consistent (s s' : Storage) (sender from to : address)
    (tokenId : uint256) (ev : list Event) :
  consistent s -> sender <> 0 ->
  transferFrom sender from to tokenId s = Some (s', ev) -> consistent s'.
Proof.
  intros C Hs H. unfold transferFrom in H.
  destruct (_isApprovedOrOwner s sender tokenId) eqn:Ea; [|discriminate].
  destruct (from =? _owners s tokenId) eqn:Ef; [|discriminate].
  destruct (to =? 0) eqn:Et; [discriminate|].
  cbn [negb] in H. apply Z.eqb_eq in Ef. apply Z.eqb_neq in Et.
  destruct (authorized_minted s sender tokenId C Hs Ea) as [Ho Hid].
  unfold decr, incr in H.
  destruct (0 <? _balances s from); [|discriminate].
  match type of H with
  | context [if ?c then _ else _] => destruct c; [|discriminate]
  end.
  injection H as <- <-.
  pose proof (next_nat s C) as Hn.
  split; cbn [_owners _balances _tokenURIs _tokenApprovals _operatorApprovals
              _nextTokenId].
  - apply (next_range s C).
  - intros id Hi. rewrite write_other by lia. apply (unminted_unowned s C), Hi.
  - intros id Hi. destruct (Z.eq_dec id tokenId) as [-> | Hne].
    + rewrite write_same in Hi. contradiction.
    + rewrite write_other in Hi by exact Hne. rewrite write_other by exact Hne.
      apply (unowned_unapproved s C), Hi.
  - apply (zero_has_no_operator s C).
  - intros a. rewrite owned_write_inside by lia. rewrite <- Ef.
    rewrite <- !(balances_count s C). unfold write.
    rewrite (Z.eqb_sym from a), (Z.eqb_sym to a).
    destruct (a =? to) eqn:E1, (a =? from) eqn:E2;
      repeat match goal with
             | H : (_ =? _) = true |- _ => apply Z.eqb_eq in H; subst
             | H : (_ =? _) = false |- _ => apply Z.eqb_neq in H
             end;
      rewrite ?Z.eqb_refl;
      repeat match goal with
             | |- context [?x =? ?y] =>
                 destruct (Z.eqb_spec x y); try congruence
             end; lia.
Qed.

Lemma approve_consistent (s s' : Storage) (sender to : address)
    (tokenId : uint256) (ev : list Event) :
  consistent s -> approve sender to tokenId s = Some (s', ev) -> consistent s'.
Proof.
  intros C H. unfold approve, ownerOf in H.
  destruct (_owners s tokenId =? 0) eqn:Eo; [discriminate|].
  destruct (_ || _); [|discriminate]. injection H as <- <-.
  apply Z.eqb_neq in Eo.
  split; cbn [_owners _balances _tokenURIs _tokenApprovals _operatorApprovals
              _nextTokenId]; try apply C.
  intros id Hi. rewrite write_other by congruence.
  apply (unowned_unapproved s C), Hi.
Qed.

Lemma setApprovalForAll_consistent (s s' : Storage) (sender operator : address)
    (approved : bool) (ev : list Event) :
  consistent s -> sender <> 0 ->
  setApprovalForAll sender operator approved s = Some (s', ev) -> consistent s'.
Proof.
  intros C Hs H. injection H as <- <-.
  split; cbn [_owners _balances _tokenURIs _tokenApprovals _operatorApprovals
              _nextTokenId]; try apply C.
  intros x. rewrite write_other by congruence. apply (zero_has_no_operator s C).
Qed.

Lemma execute_consistent (s : Storage) (sender : address) (c : Call) :
  consistent s -> sender <> 0 -> consistent (execute sender c s).
Proof.
  intros C Hs. destruct c as [to uri | from to id | to id | op b]; simpl.
  - destruct (mint sender to uri s) as [[[i s'] ev]|] eqn:E; [|exact C].
    eapply mint_consistent; eassumption.
  - destruct (transferFrom sender from to id s) as [[s' ev]|] eqn:E; [|exact C].
    eapply transferFrom_consistent; eassumption.
  - destruct (approve sender to id s) as [[s' ev]|] eqn:E; [|exact C].
    eapply approve_consistent; eassumption.
  - eapply setApprovalForAll_consistent; [exact C | exact Hs | reflexivity].
Qed.

Lemma reachable_consistent (s : Storage) : reachable s -> consistent s.
Proof.
  induction 1 as [|s sender c _ IH Hs].
  - apply deployed_consistent.
  - apply execute_consistent; assumption.
Qed.

End NFTFacts.

Section NFTProperties.
Import DefiBuddyNFT.

Lemma minted_once_reachable : reachable minted_once.
Proof. apply reach_step; [apply reach_deployed | discriminate]. Qed.

Lemma minted_to_zero_reachable : reachable minted_to_zero.
Proof. apply reach_step; [apply minted_once_reachable | discriminate]. Qed.

(** In every reachable storage the balance of an account is the number of
    minted tokens it owns. *)
Theorem nft_balance_counts_owned_tokens (s : Storage) (a : address) :
  reachable s -> a <> 0 ->
  balanceOf s a = Some (owned (_owners s) a (Z.to_nat (_nextTokenId s)))
  /\ 0 <= _balances s a <= _nextTokenId s.
Proof.
  intros R Ha. apply reachable_consistent in R.
  unfold balanceOf. apply Z.eqb_neq in Ha. rewrite Ha.
  rewrite (balances_count s R a). split; [reflexivity|].
  pose proof (owned_bounds (_owners s) a (Z.to_nat (_nextTokenId s))).
  rewrite (next_nat s R) in H. exact H.
Qed.

Lemma nft_balance_counts_owned_tokens_witness :
  balanceOf minted_to_zero 7 = Some 1.
Proof.
  exact (proj1 (nft_balance_counts_owned_tokens minted_to_zero 7
                  minted_to_zero_reachable ltac:(discriminate))).
Defined.

(** In a reachable storage a transfer by the owner, the approved account or
    an operator, to an account other than [address(0)], never reverts: the
    balance arithmetic cannot underflow or overflow.  It makes [to] the
    owner, clears the token's approval and emits one [Transfer]. *)
Theorem nft_authorized_transfer_succeeds
    (s : Storage) (sender to : address) (tokenId : uint256) :
  reachable s -> sender <> 0 -> to <> 0 ->
  _isApprovedOrOwner s sender tokenId = true ->
  exists s',
    transferFrom sender (_owners s tokenId) to tokenId s
    = Some (s', [Transfer (_owners s tokenId) to tokenId])
    /\ ownerOf s' tokenId = Some to
    /\ getApproved s' tokenId = Some 0
    /\ _nextTokenId s' = _nextTokenId s
    /\ forall id, id <> tokenId -> _owners s' id = _owners s id.
Proof.
  intros R Hs Ht Ha. apply reachable_consistent in R.
  destruct (authorized_minted s sender tokenId R Hs Ha) as [Ho Hid].
  pose proof (next_nat s R) as Hn. pose proof (next_range s R) as Hr.
  assert (Hid' : 0 <= tokenId < Z.of_nat (Z.to_nat (_nextTokenId s))) by lia.
  pose proof (owned_positive (_owners s) tokenId _ Hid') as Hpos.
  rewrite <- (balances_count s R) in Hpos.
  unfold transferFrom. rewrite Ha, Z.eqb_refl.
  apply Z.eqb_neq in Ht as Ht'. rewrite Ht'. cbn [negb].
  unfold decr. replace (0 <? _balances s (_owners s tokenId)) with true
    by (symmetry; apply Z.ltb_lt; lia).
  unfold incr.
  match goal with
  | |- context [if ?c then _ else _] => replace c with true
  end.
  - eexists. split; [reflexivity|].
    unfold ownerOf, getApproved.
    cbn [_owners _tokenApprovals _nextTokenId].
    rewrite !write_same, Ht'. repeat split.
    intros id Hne. apply write_other. exact Hne.
  - symmetry. apply Z.ltb_lt. unfold write.
    destruct (to =? _owners s tokenId) eqn:E.
    + pose proof (owned_bounds (_owners s) (_owners s tokenId)
                               (Z.to_nat (_nextTokenId s))) as Hb.
      rewrite <- (balances_count s R) in Hb. lia.
    + apply Z.eqb_neq in E.
      assert (Hlt : owned (_owners s) to (Z.to_nat (_nextTokenId s))
                    < Z.of_nat (Z.to_nat (_nextTokenId s)))
        by (apply (owned_below _ _ tokenId); [exact Hid' | congruence]).
      rewrite <- (balances_count s R) in Hlt. lia.
Qed.

Lemma nft_authorized_transfer_succeeds_witness :
  exists s',
    transferFrom 7 7 9 0 minted_once = Some (s', [Transfer 7 9 0])
    /\ ownerOf s' 0 = Some 9.
Proof.
  destruct (nft_authorized_transfer_succeeds minted_once 7 9 0
              minted_once_reachable ltac:(discriminate) ltac:(discriminate)
              eq_refl) as [s' [H1 [H2 _]]].
  exists s'. split; [exact H1 | exact H2].
Defined.

(** In a reachable storage with an unused token id left, [mint] never
    reverts, whoever sends it and whoever receives: it returns the next id,
    counts one more token, stores the URI, and leaves every other token's
    owner and URI alone.  The receiver may be [address(0)]; the token then
    has no owner. *)
Theorem nft_mint_succeeds
    (s : Storage) (sender to : address) (uri : string) :
  reachable s -> _nextTokenId s < MAX_UINT256 ->
  exists s',
    mint sender to uri s
    = Some (_nextTokenId s, s', [Transfer 0 to (_nextTokenId s)])
    /\ _nextTokenId s' = _nextTokenId s + 1
    /\ _owners s' (_nextTokenId s) = to
    /\ _tokenURIs s' (_nextTokenId s) = uri
    /\ ownerOf s' (_nextTokenId s) = (if to =? 0 then None else Some to)
    /\ tokenURI s' (_nextTokenId s) = (if to =? 0 then None else Some uri)
    /\ forall id, id <> _nextTokenId s ->
         _owners s' id = _owners s id /\ _tokenURIs s' id = _tokenURIs s id.
Proof.
  intros R Hlt. apply reachable_consistent in R.
  pose proof (owned_bounds (_owners s) to (Z.to_nat (_nextTokenId s))) as Hb.
  rewrite <- (balances_count s R), (next_nat s R) in Hb.
  unfold mint, incr.
  replace (_nextTokenId s <? MAX_UINT256) with true
    by (symmetry; apply Z.ltb_lt; exact Hlt).
  replace (_balances s to <? MAX_UINT256) with true
    by (symmetry; apply Z.ltb_lt; lia).
  eexists. split; [reflexivity|].
  unfold ownerOf, tokenURI. cbn [_owners _tokenURIs _nextTokenId].
  rewrite !write_same. repeat split; apply write_other; assumption.
Qed.

Lemma nft_mint_succeeds_witness :
  exists s',
    mint 7 0 "u" minted_once = Some (1, s', [Transfer 0 0 1])
    /\ ownerOf s' 1 = None.
Proof.
  destruct (nft_mint_succeeds minted_once 7 0 "u" minted_once_reachable
              ltac:(reflexivity)) as [s' [H1 [_ [_ [_ [H2 _]]]]]].
  exists s'. split; [exact H1 | exact H2].
Defined.

(** What a transaction does to the owner of a token [id]: nothing, unless it
    is a mint of that very id or a transfer of it that went through. *)
Lemma execute_owner (s : Storage) (sender : address) (c : Call) (id : uint256) :
  _owners (execute sender c s) id = _owners s id
  \/ (exists to uri, c = CallMint to uri /\ id = _nextTokenId s)
  \/ (exists from to ev s',
        c = CallTransferFrom from to id
        /\ transferFrom sender from to id s = Some (s', ev)
        /\ _owners (execute sender c s) id = to /\ to <> 0).
Proof.
  destruct c as [to uri | from to tid | to tid | op b]; simpl.
  - unfold mint, incr. destruct (_ <? _); [|left; reflexivity].
    destruct (_ <? _); [|left; reflexivity]. cbn [_owners].
    destruct (Z.eq_dec id (_nextTokenId s)) as [-> | Hne].
    + right. left. eauto.
    + left. apply write_other. exact Hne.
  - destruct (transferFrom sender from to tid s) as [[s' ev]|] eqn:E;
      [|left; reflexivity].
    destruct (Z.eq_dec id tid) as [-> | Hne].
    + right. right. exists from, to, ev, s'. split; [reflexivity|].
      split; [exact E|]. unfold transferFrom in E.
      destruct (negb _); [discriminate|]. destruct (negb _); [discriminate|].
      destruct (to =? 0) eqn:Et; [discriminate|].
      destruct (decr _); [|discriminate]. destruct (incr _); [|discriminate].
      injection E as <- _. cbn [_owners]. rewrite write_same.
      split; [reflexivity | apply Z.eqb_neq; exact Et].
    + left. unfold transferFrom in E.
      destruct (negb _); [discriminate|]. destruct (negb _); [discriminate|].
      destruct (to =? 0); [discriminate|].
      destruct (decr _); [|discriminate]. destruct (incr _); [|discriminate].
      injection E as <- _. cbn [_owners]. apply write_other. exact Hne.
  - left. unfold approve. destruct (ownerOf s tid); [|reflexivity].
    destruct (_ || _); reflexivity.
  - left. reflexivity.
Qed.

(** The URI of an owned token is permanent: no transaction of an account
    other than [address(0)] changes what [tokenURI] answers for it. *)
Theorem nft_token_uri_is_permanent
    (s : Storage) (sender : address) (c : Call) (id : uint256) (uri : string) :
  reachable s -> sender <> 0 ->
  tokenURI s id = Some uri ->
  tokenURI (execute sender c s) id = Some uri.
Proof.
  intros R Hs Hu. apply reachable_consistent in R.
  unfold tokenURI in *.
  destruct (_owners s id =? 0) eqn:Eo; [discriminate|].
  apply Z.eqb_neq in Eo. injection Hu as Hu.
  assert (Hid : 0 <= id < _nextTokenId s).
  { destruct (Z_le_dec 0 id) as [H1|H1];
      [destruct (Z_lt_dec id (_nextTokenId s)) as [H2|H2]; [lia|]|];
      exfalso; apply Eo; apply (unminted_unowned s R); lia. }
  assert (Huri : _tokenURIs (execute sender c s) id = _tokenURIs s id).
  { destruct c as [to u | from to tid | to tid | op b]; simpl.
    - unfold mint, incr. destruct (_ <? _); [|reflexivity].
      destruct (_ <? _); [|reflexivity]. cbn [_tokenURIs].
      apply write_other. lia.
    - unfold transferFrom.
      destruct (negb _); [reflexivity|]. destruct (negb _); [reflexivity|].
      destruct (to =? 0); [reflexivity|].
      destruct (decr _); [|reflexivity]. destruct (incr _); reflexivity.
    - unfold approve. destruct (ownerOf s tid); [|reflexivity].
      destruct (_ || _); reflexivity.
    - reflexivity. }
  rewrite Huri, Hu.
  destruct (execute_owner s sender c id) as [H | [[to [u [_ H]]] | [from [to [ev [s' [_ [_ [H Hto]]]]]]]]].
  - rewrite H. apply Z.eqb_neq in Eo. rewrite Eo. reflexivity.
  - lia.
  - rewrite H. apply Z.eqb_neq in Hto. rewrite Hto. reflexivity.
Qed.

Lemma nft_token_uri_is_permanent_witness :
  tokenURI (execute 7 (CallTransferFrom 7 9 0) minted_once) 0
  = Some "https://defibuddy.example/api/nft/metadata/1"%string.
Proof.
  apply (nft_token_uri_is_permanent minted_once 7 (CallTransferFrom 7 9 0) 0).
  - exact minted_once_reachable.
  - discriminate.
  - reflexivity.
Defined.

(** Ownership of an owned token changes only through a transfer of that
    token sent by its owner, its approved account or an operator of the
    owner. *)
Theorem nft_owner_changes_only_by_authorized_transfer
    (s : Storage) (sender : address) (c : Call) (id : uint256) :
  reachable s -> sender <> 0 ->
  _owners s id <> 0 ->
  _owners (execute sender c s) id <> _owners s id ->
  _isApprovedOrOwner s sender id = true
  /\ exists to, c = CallTransferFrom (_owners s id) to id
                /\ _owners (execute sender c s) id = to.
Proof.
  intros R Hs Ho Hch. apply reachable_consistent in R.
  destruct (execute_owner s sender c id) as [H | [[to [u [_ H]]] | [from [to [ev [s' [Hc [Ht [H Hto]]]]]]]]].
  - contradiction.
  - exfalso. apply Ho. apply (unminted_unowned s R). lia.
  - unfold transferFrom in Ht.
    destruct (_isApprovedOrOwner s sender id); [|discriminate].
    destruct (from =? _owners s id) eqn:Ef; [|discriminate].
    apply Z.eqb_eq in Ef. subst from.
    split; [reflexivity|]. exists to. split; assumption.
Qed.

Lemma nft_owner_changes_only_by_authorized_transfer_witness :
  _isApprovedOrOwner minted_once 7 0 = true
  /\ exists to, CallTransferFrom 7 9 0 = CallTransferFrom 7 to 0
                /\ _owners (execute 7 (CallTransferFrom 7 9 0) minted_once) 0 = to.
Proof.
  apply (nft_owner_changes_only_by_authorized_transfer minted_once 7
           (CallTransferFrom 7 9 0) 0).
  - exact minted_once_reachable.
  - discriminate.
  - discriminate.
  - discriminate.
Defined.

(** A token minted to [address(0)] is lost for good: no transaction of an
    account other than [address(0)] gives it an owner, and a transfer or an
    approval of it reverts. *)
Theorem nft_token_of_zero_address_is_stuck
    (s : Storage) (sender : address) (id : uint256) :
  reachable s -> sender <> 0 ->
  0 <= id < _nextTokenId s ->
  _owners s id = 0 ->
  (forall c, _owners (execute sender c s) id = 0)
  /\ (forall from to, transferFrom sender from to id s = None)
  /\ (forall to, approve sender to id s = None)
  /\ ownerOf s id = None.
Proof.
  intros R Hs Hid Ho. pose proof (reachable_consistent s R) as C.
  assert (Hna : _isApprovedOrOwner s sender id = false).
  { destruct (_isApprovedOrOwner s sender id) eqn:E; [|reflexivity].
    destruct (authorized_minted s sender id C Hs E) as [H _]. contradiction. }
  repeat split.
  - intros c.
    destruct (execute_owner s sender c id) as [H | [[to [u [_ H]]] | [from [to [ev [s' [_ [Ht _]]]]]]]].
    + congruence.
    + lia.
    + unfold transferFrom in Ht. rewrite Hna in Ht. discriminate.
  - intros from to. unfold transferFrom. rewrite Hna. reflexivity.
  - intros to. unfold approve, ownerOf. rewrite Ho. reflexivity.
  - unfold ownerOf. rewrite Ho. reflexivity.
Qed.

Lemma nft_token_of_zero_address_is_stuck_witness :
  transferFrom 7 0 7 1 minted_to_zero = None
  /\ ownerOf minted_to_zero 1 = None.
Proof.
  destruct (nft_token_of_zero_address_is_stuck minted_to_zero 7 1
              minted_to_zero_reachable ltac:(discriminate)
              ltac:(split; [discriminate | reflexivity]) eq_refl)
    as [_ [H1 [_ H2]]].
  split; [apply H1 | exact H2].
Defined.

End NFTProperties.

(** ** The pools route *)

Lemma insert_In {A} (after : A -> A -> bool) (x y : A) (l : list A) :
  In y (JS.insert after x l) <-> y = x \/ In y l.
Proof.
  induction l as [|z r IH]; simpl.
  - intuition.
  - destruct (after x z); simpl; rewrite ?IH; intuition.
Qed.

Lemma sort_In {A} (after : A -> A -> bool) (y : A) (l : list A) :
  In y (JS.sort after l) <-> In y l.
Proof.
  induction l as [|x r IH]; simpl; [reflexivity|].
  rewrite insert_In, IH. intuition.
Qed.

Lemma firstn_sorted {A} (R : A -> A -> Prop) (n : nat) (l : list A) :
  StronglySorted R l -> StronglySorted R (firstn n l).
Proof.
  intros H. revert n.
  induction H as [|x r Hs IH Hx]; intros [|n]; simpl; try constructor.
  - apply IH.
  - rewrite Forall_forall in *. intros z Hz. apply Hx.
    exact (in_firstn z n r Hz).
Qed.

(** Sorting by a numeric key, larger first. *)
Lemma insert_by_key_sorted {A} (key : A -> Q) (x : A) (l : list A) :
  StronglySorted (fun a b => (key b <= key a)%Q) l ->
  StronglySorted (fun a b => (key b <= key a)%Q)
                 (JS.insert (fun a b => JS.ltb (key a) (key b)) x l).
Proof.
  induction 1 as [|y r Hs IH Hy]; simpl.
  - repeat constructor.
  - destruct (JS.ltb (key x) (key y)) eqn:E.
    + constructor; [exact IH|].
      apply insert_Forall; [|exact Hy].
      apply ltb_lt in E. apply Qlt_le_weak. exact E.
    + apply ltb_ge in E.
      constructor; [constructor; assumption|].
      constructor; [exact E|].
      eapply Forall_impl; [|exact Hy].
      intros z Hz. cbv beta in *. eapply Qle_trans; eassumption.
Qed.

Lemma sort_by_key_sorted {A} (key : A -> Q) (l : list A) :
  StronglySorted (fun a b => (key b <= key a)%Q)
                 (JS.sort (fun a b => JS.ltb (key a) (key b)) l).
Proof.
  induction l as [|x r IH]; simpl; [constructor | apply insert_by_key_sorted, IH].
Qed.

Section PoolsFacts.
Import JS JSString PoolsRoute.

(** When the request validates and the pool list arrives, the answer holds
    at most 20 pools in descending order of APR, and each of them comes from
    a listed pool of an Uniswap project on Ethereum with more than 100,000
    USD locked, one part of whose name, lower-cased, is a lower-cased
    requested symbol. *)
Theorem uniswap_pools_are_filtered_sorted_capped
    (toLowerCase : string -> string) (body : option json)
    (symbols : list string) (poolsData : PoolsData) (listed : list LlamaPool) :
  symbols_parse body = inr symbols ->
  data poolsData = Some listed ->
  status poolsData = "success"%string ->
  exists out,
    uniswap_pools toLowerCase (FetchOk poolsData) body = Pools out
    /\ (List.length out <= 20)%nat
    /\ StronglySorted (fun a b => (apr b <= apr a)%Q) out
    /\ forall p, In p out ->
         exists q, In q listed
           /\ p = to_pool q
           /\ includes "uniswap" (project q) = true
           /\ chain q = "Ethereum"%string
           /\ (100000 < tvlUsd q)%Q
           /\ exists part,
                In part (map trim (split separator (toLowerCase (symbol q))))
                /\ In part (map toLowerCase symbols).
Proof.
  intros Hp Hd Hs. unfold uniswap_pools. rewrite Hp, Hd, Hs.
  rewrite String.eqb_refl. cbn [negb].
  eexists. split; [reflexivity|]. unfold matchingPools, slice0.
  split; [rewrite length_firstn; lia|].
  split; [apply firstn_sorted, (sort_by_key_sorted apr)|].
  intros p Hin. apply in_firstn in Hin. apply sort_In in Hin.
  apply in_map_iff in Hin as [q [Hq Hin]].
  apply filter_In in Hin as [Hin Hm].
  unfold uniswapPools in Hin. apply filter_In in Hin as [Hin Hf].
  apply andb_true_iff in Hf as [Hf Htvl]. apply andb_true_iff in Hf as [Hu Hc].
  exists q. split; [exact Hin|]. split; [symmetry; exact Hq|].
  split; [exact Hu|]. split; [apply String.eqb_eq; exact Hc|].
  split; [apply ltb_lt; exact Htvl|].
  unfold matching in Hm. apply existsb_exists in Hm as [part [Hpart Hex]].
  apply existsb_exists in Hex as [sym [Hsym Heq]].
  apply String.eqb_eq in Heq. rewrite <- Heq in Hsym.
  exists part. split; assumption.
Qed.

Example pools_for_usdc :
  match uniswap_pools lower (FetchOk {| status := "success"; data := Some llama_sample |})
                      (symbols_body ["USDC"%string]) with
  | Pools out => map (fun p => (id p, Qred (apr p))) out
                 = [("p2"%string, 30%Q); ("p1"%string, 12%Q)]
  | Failure _ _ => False
  end.
Proof. vm_compute. reflexivity. Qed.

Lemma uniswap_pools_are_filtered_sorted_capped_witness :
  exists out,
    uniswap_pools lower (FetchOk {| status := "success"; data := Some llama_sample |})
                  (symbols_body ["USDC"%string]) = Pools out
    /\ (List.length out <= 20)%nat.
Proof.
  destruct (uniswap_pools_are_filtered_sorted_capped lower
              (symbols_body ["USDC"%string]) ["USDC"%string]
              {| status := "success"; data := Some llama_sample |} llama_sample
              eq_refl eq_refl eq_refl) as [out [H1 [H2 _]]].
  exists out. split; assumption.
Defined.

End PoolsFacts.

(** ** The personality lookup route and the token check *)

Section CryptoFacts.
Import JS CryptoRoute.



Example overweight_reply_is_passed_through :
  fst (crypto_lookup (fun _ => inr (Some overweight_text)) parse_overweight
                     (person_body "Elon Musk") no_searches)
  = Lookup "Elon Musk" [mkInvestment "Bitcoin" 60; mkInvestment "Dogecoin" 60].
Proof. vm_compute. reflexivity. Qed.


End CryptoFacts.

Section CheckTokensFacts.
Import JS UniswapRoute.

(** The token check answers one entry per requested symbol, in order and
    under the symbol as it was sent; an entry is available exactly when the
    list has a token of chain 1 whose symbol equals it up to case, and an
    unavailable entry carries no address, decimals or name. *)
Theorem check_tokens_reports_chain_1_listing
    (toLowerCase : string -> string) (tokenList : list ListedToken)
    (symbols : list string) :
  map symbol (check_tokens toLowerCase tokenList symbols) = symbols
  /\ forall t, In t (check_tokens toLowerCase tokenList symbols) ->
       (available t = true <->
          exists l, In l tokenList /\ chainId l = 1
                    /\ toLowerCase (listed_symbol l) = toLowerCase (symbol t))
       /\ (available t = false ->
             address t = None /\ decimals t = None /\ name t = None).
Proof.
  unfold check_tokens. split.
  - rewrite map_map. rewrite <- (map_id symbols) at 2. apply map_ext.
    intros sym. unfold check. destruct (find _ _); reflexivity.
  - intros t Hin. apply in_map_iff in Hin as [sym [<- _]]. unfold check.
    destruct (find _ _) as [l|] eqn:Ef; cbn [available symbol address decimals name].
    + split; [|discriminate]. split; [|reflexivity]. intros _.
      apply find_some in Ef as [Hl He]. apply filter_In in Hl as [Hl Hc].
      exists l. split; [exact Hl|]. split; [apply Z.eqb_eq; exact Hc|].
      apply String.eqb_eq. exact He.
    + split; [|intros _; repeat split]. split; [discriminate|].
      intros [l [Hl [Hc He]]]. exfalso.
      assert (Hin : In l (filter (fun t => chainId t =? 1) tokenList)).
      { apply filter_In. split; [exact Hl | apply Z.eqb_eq; exact Hc]. }
      pose proof (find_none _ _ Ef l Hin) as Hn. cbv beta in Hn.
      rewrite He, String.eqb_refl in Hn. discriminate.
Qed.

Lemma check_tokens_reports_chain_1_listing_witness :
  address (check lower (filter (fun t => chainId t =? 1) token_list) "BTC") = None.
Proof.
  refine (proj1 (proj2 (proj2 (check_tokens_reports_chain_1_listing lower token_list
                                 ["BTC"%string])
                              (check lower (filter (fun t => chainId t =? 1) token_list) "BTC")
                              _) _)).
  - left. reflexivity.
  - reflexivity.
Defined.

End CheckTokensFacts.

(** ** The loop of the portfolio run *)

Section DeployLoopFacts.
Import JS Home.

Variable World : Type.
Variable toLowerCase : string -> string.
Variable string_of_number : Q -> string.
Variable toFixed : Q -> nat -> string.
Variable Date_now : World -> Z.
Variable api_check_tokens : list string -> World -> (Exn + list TokenCheck) * World.
Variable getNetwork : World -> (Exn + Z) * World.
Variable getSigner : World -> (Exn + unit) * World.
Variable getBalance : string -> World -> (Exn + Z) * World.
Variable estimateGas : SwapParams -> Z -> World -> (Exn + Z) * World.
Variable getFeeData : World -> (Exn + option Z) * World.
Variable exactInputSingle : SwapParams -> Z -> World -> (Exn + unit) * World.

Local Abbreviation one_turn :=
  (iteration World string_of_number toFixed Date_now
     getBalance estimateGas getFeeData exactInputSingle).

Local Abbreviation the_loop :=
  (loop World toLowerCase string_of_number toFixed Date_now
     getBalance estimateGas getFeeData exactInputSingle).

Local Abbreviation the_run :=
  (deployPortfolio World toLowerCase string_of_number toFixed Date_now
     api_check_tokens getNetwork getSigner getBalance estimateGas getFeeData
     exactInputSingle).

Lemma swaps_app (l1 l2 : list Event) : swaps (l1 ++ l2) = (swaps l1 + swaps l2)%nat.
Proof. unfold swaps. rewrite filter_app, length_app. reflexivity. Qed.

(** The events a step put in front of [old]. *)
Ltac added_to old cur :=
  lazymatch cur with
  | old => constr:(@nil Event)
  | ?e :: ?rest => let p := added_to old rest in constr:(e :: p)
  end.

Ltac give_added :=
  lazymatch goal with
  | |- exists new, ?cur = new ++ ?old /\ _ =>
      let p := added_to old cur in exists p
  end.

Ltac run_step := cbn [world deployLoading deployStatus tokenChecks log fst snd].

Ltac run_step_in H :=
  cbn [world deployLoading deployStatus tokenChecks log fst snd] in H.

(** One turn of the loop adds to the log, submits at most one swap, a
    well-formed one, and raises the count by at most that. *)
Lemma iteration_trace (addr : string) (total : Q) (token : TokenCheck)
    (item : PortfolioItem) (n : nat) (st : St World) :
  exists new,
    log (snd (one_turn addr total token item n st)) = new ++ log st
    /\ (swaps new <= 1)%nat
    /\ Forall (portfolio_swap addr) new
    /\ match fst (one_turn addr total token item n st) with
       | inr (_, n') => (n <= n' <= n + swaps new)%nat
       | inl _ => True
       end.
Proof.
  unfold iteration, bind, call, throw_or, try_catch, setDeployStatus, toast,
    now, ret. run_step.
  destruct (getBalance addr (world st)) as [[e|balance] w1]; run_step.
  { give_added. repeat split; auto. repeat constructor. }
  destruct (share balance (percentage item) total) as [e|prelim]; run_step.
  { give_added. repeat split; auto. repeat constructor. }
  destruct (prelim =? 0); run_step.
  { give_added. repeat split; auto; try lia. repeat constructor. }
  match goal with
  | |- context [estimateGas ?p ?v w1] =>
      destruct (estimateGas p v w1) as [[e|gasEstimate] w2]
  end; run_step.
  { give_added. repeat split; auto; try lia. repeat constructor. }
  destruct (getFeeData w2) as [[e|feeGasPrice] w3]; run_step.
  { give_added. repeat split; auto. repeat constructor. }
  destruct (balance <=? gasCost gasEstimate (gasPrice_of feeGasPrice)); run_step.
  { give_added. repeat split; auto; try lia. repeat constructor. }
  destruct (share (balance - gasCost gasEstimate (gasPrice_of feeGasPrice))
                  (percentage item) total) as [e|amount]; run_step.
  { give_added. repeat split; auto. repeat constructor. }
  destruct (amount =? 0) eqn:Ea; run_step.
  { give_added. repeat split; auto; try lia. repeat constructor. }
  apply Z.eqb_neq in Ea.
  match goal with
  | |- context [exactInputSingle ?p ?v w3] =>
      destruct (exactInputSingle p v w3) as [[e|[]] w4]
  end; run_step.
  - give_added. split; [reflexivity|].
    split; [cbn; lia|]. split; [|cbn; lia].
    repeat constructor; assumption.
  - give_added. split; [reflexivity|].
    split; [cbn; lia|]. split; [|cbn; lia].
    repeat constructor; assumption.
Qed.

(** Whatever the chain does, the loop submits at most one swap per token,
    every swap sends its [amountIn], which is not zero, as the value, with
    pool fee 3000 and minimum output 1, and the number of completed swaps it
    reports is at most the number it submitted. *)
Theorem deploy_loop_submits_bounded_well_formed_swaps
    (addr : string) (p : Portfolio) (total : Q) (tokens : list TokenCheck)
    (n : nat) (st : St World) :
  exists new,
    log (snd (the_loop addr p total tokens n st)) = new ++ log st
    /\ (swaps new <= List.length tokens)%nat
    /\ Forall (portfolio_swap addr) new
    /\ forall n', fst (the_loop addr p total tokens n st) = inr n' ->
                  (n <= n' <= n + swaps new)%nat.
Proof.
  revert n st. induction tokens as [|token rest IH]; intros n st.
  - exists []. cbn. split; [reflexivity|]. split; [lia|]. split; [constructor|].
    intros n' H. injection H as <-. lia.
  - cbn [loop]. destruct (find_item toLowerCase p token) as [item|].
    + destruct (iteration_trace addr total token item n st)
        as [new1 [Hlog1 [Hs1 [Hwf1 Hn1]]]].
      unfold bind.
      destruct (one_turn addr total token item n st) as [[e|[[|] n1]] st1];
        cbn [fst snd] in *.
      * exists new1. split; [exact Hlog1|]. split; [simpl; lia|].
        split; [exact Hwf1|]. intros n' H. discriminate.
      * destruct (IH n1 st1) as [new2 [Hlog2 [Hs2 [Hwf2 Hn2]]]].
        exists (new2 ++ new1). rewrite Hlog2, Hlog1, app_assoc, swaps_app.
        split; [reflexivity|]. split; [simpl; lia|].
        split; [apply Forall_app; split; assumption|].
        intros n' H. specialize (Hn2 n' H). lia.
      * exists new1. unfold ret. cbn [fst snd].
        split; [exact Hlog1|]. split; [simpl; lia|].
        split; [exact Hwf1|]. intros n' H. injection H as <-. lia.
    + destruct (IH n st) as [new [Hlog [Hs [Hwf Hn]]]].
      exists new. split; [exact Hlog|]. split; [simpl; lia|].
      split; [exact Hwf|]. exact Hn.
Qed.

(** A token whose gas estimate fails is skipped, not fatal: the loop shows a
    toast and goes on with the remaining tokens and the same count, having
    made only the balance read and the failed estimate. *)
Theorem failed_gas_estimate_skips_token
    (addr : string) (p : Portfolio) (total : Q)
    (token : TokenCheck) (rest : list TokenCheck) (item : PortfolioItem)
    (n : nat) (st : St World)
    (balance prelim : Z) (e : Exn) (w1 w2 : World) :
  find_item toLowerCase p token = Some item ->
  getBalance addr (world st) = (inr balance, w1) ->
  share balance (percentage item) total = inr prelim ->
  prelim <> 0 ->
  let params :=
    {| tokenIn := WETH_ADDRESS; tokenOut := address token; fee := 3000;
       recipient := addr; deadline := Date_now w1 / 1000 + 1800;
       amountIn := prelim; amountOutMinimum := 1; sqrtPriceLimitX96 := 0 |} in
  estimateGas params prelim w1 = (inl e, w2) ->
  the_loop addr p total (token :: rest) n st
  = the_loop addr p total rest n
      {| world := w2;
         deployLoading := deployLoading st;
         deployStatus :=
           Some ("Estimating gas for ETH → " ++ symbol token ++ " ("
                 ++ string_of_number (percentage item) ++ "%)...")%string;
         tokenChecks := tokenChecks st;
         log := Toast ("Skipped " ++ symbol token)
                      "Could not estimate gas for this swap."
                :: EstimateGas params prelim :: GetBalance :: log st |}.
Proof.
  intros Hfind Hbal Hshare Hprelim params Hest.
  cbn [loop]. rewrite Hfind.
  unfold iteration, bind, call, throw_or, try_catch, setDeployStatus, toast,
    now, ret. run_step.
  rewrite Hbal. run_step. rewrite Hshare.
  replace (prelim =? 0) with false by (symmetry; apply Z.eqb_neq; exact Hprelim).
  run_step. fold params. rewrite Hest. run_step. reflexivity.
Qed.


(** Conditions without which a run submits no swap: a non-empty portfolio
    and a connected address, a token check that answered with every entry
    available, a wallet on chain 11155111, a signer, and a balance that is
    not zero. *)
Theorem deploy_swaps_only_after_all_checks
    (portfolio : option Portfolio) (connectedAddress : option string)
    (st : St World) :
  filter is_swap (log (the_run portfolio connectedAddress st))
  <> filter is_swap (log st) ->
  exists p addr checks balance w1 w2 w3 w4,
    portfolio = Some p /\ items p <> []
    /\ connectedAddress = Some addr /\ addr <> ""%string
    /\ api_check_tokens
         (filter (fun s => negb (String.eqb s ""))
                 (map symbol_or_name (items p))) (world st)
       = (inr checks, w1)
    /\ Forall (fun t => available t = true) checks
    /\ getNetwork w1 = (inr SEPOLIA_CHAIN_ID, w2)
    /\ getSigner w2 = (inr tt, w3)
    /\ getBalance addr w3 = (inr balance, w4)
    /\ balance <> 0.
Proof.
  unfold deployPortfolio. intros H.
  destruct portfolio as [p|]; [|exfalso; apply H; reflexivity].
  destruct (items p) as [|i r] eqn:Ei; [exfalso; apply H; reflexivity|].
  cbn [List.length Nat.eqb] in H.
  destruct connectedAddress as [addr|]; [|exfalso; apply H; reflexivity].
  destruct (String.eqb addr "") eqn:Ea; [exfalso; apply H; reflexivity|].
  apply String.eqb_neq in Ea.
  unfold deploy_try, bind, try_catch, call, setDeployLoading, setDeployStatus,
    setTokenChecks in H. run_step_in H. rewrite Ei in H.
  rewrite <- Ei in *.
  destruct (api_check_tokens _ (world st)) as [[e|checks] w1] eqn:Eapi;
    run_step_in H; [exfalso; apply H; reflexivity|].
  destruct (0 <? List.length (filter (fun t => negb (available t)) checks))%nat
    eqn:Em; run_step_in H; [exfalso; apply H; reflexivity|].
  destruct (getNetwork w1) as [[e|chain] w2] eqn:En;
    run_step_in H; [exfalso; apply H; reflexivity|].
  destruct (chain =? SEPOLIA_CHAIN_ID) eqn:Ec; cbn [negb] in H;
    run_step_in H; [|exfalso; apply H; reflexivity].
  apply Z.eqb_eq in Ec. subst chain.
  destruct (getSigner w2) as [[e|[]] w3] eqn:Es;
    run_step_in H; [exfalso; apply H; reflexivity|].
  destruct (getBalance addr w3) as [[e|balance] w4] eqn:Eb;
    run_step_in H; [exfalso; apply H; reflexivity|].
  destruct (balance =? 0) eqn:Ez; run_step_in H;
    [exfalso; apply H; reflexivity|].
  apply Z.eqb_neq in Ez.
  exists p, addr, checks, balance, w1, w2, w3, w4.
  repeat split; try assumption; try congruence.
  apply Forall_forall. intros t Ht.
  destruct (available t) eqn:Eav; [reflexivity|]. exfalso.
  apply Nat.ltb_ge in Em.
  assert (Hin : In t (filter (fun t => negb (available t)) checks))
    by (apply filter_In; split; [exact Ht | rewrite Eav; reflexivity]).
  destruct (filter _ checks); [contradiction | simpl in Em; lia].
Qed.

End DeployLoopFacts.

Section DeployLoopWitnesses.
Import JS Home.

Lemma deploy_loop_submits_bounded_well_formed_swaps_witness :
  exists new,
    log (snd (loop Z lower show_number fixed clock balance_of estimate fee_data
                   swap me usdc_dai 100 [usdc_check; dai_check] 0
                   (start 1000000000000000000)))
    = new ++ []
    /\ (swaps new <= 2)%nat
    /\ Forall (portfolio_swap me) new.
Proof.
  destruct (deploy_loop_submits_bounded_well_formed_swaps Z lower show_number
              fixed clock balance_of estimate fee_data swap
              me usdc_dai 100 [usdc_check; dai_check] 0
              (start 1000000000000000000)) as [new [H1 [H2 [H3 _]]]].
  exists new. repeat split; assumption.
Defined.

Lemma failed_gas_estimate_skips_token_witness :
  fst (loop Z lower show_number fixed clock balance_of no_estimate fee_data
            swap me usdc_dai 100 [usdc_check; dai_check] 0
            (start 1000000000000000000))
  = inr 0%nat
  /\ swaps (log (snd (loop Z lower show_number fixed clock balance_of
                           no_estimate fee_data swap me usdc_dai 100
                           [usdc_check; dai_check] 0
                           (start 1000000000000000000)))) = 0%nat.
Proof.
  rewrite (failed_gas_estimate_skips_token Z lower show_number fixed clock
             balance_of no_estimate fee_data swap
             me usdc_dai 100 usdc_check [dai_check]
             (mkItem "USD Coin" (Some "usdc"%string) 60) 0
             (start 1000000000000000000)
             1000000000000000000 600000000000000000
             (OtherError "cannot estimate gas")
             1000000000000000000 1000000000000000000
             eq_refl eq_refl eq_refl ltac:(discriminate) eq_refl).
  split; vm_compute; reflexivity.
Defined.


Example rejected_swap_then_completed_swap :
  deployStatus
    (deployPortfolio Z lower show_number fixed clock api network signer
       balance_of estimate fee_data swap_once_rejected
       (Some usdc_dai) (Some me) (start 1000000000000000000))
  = Some "Portfolio deployed! 1/2 swaps completed."%string.
Proof. vm_compute. reflexivity. Qed.

Lemma deploy_swaps_only_after_all_checks_witness :
  exists p addr checks balance w1 w2 w3 w4,
    Some usdc_dai = Some p /\ items p <> []
    /\ Some me = Some addr /\ addr <> ""%string
    /\ api (filter (fun s => negb (String.eqb s ""))
                   (map symbol_or_name (items p))) 1000000000000000000
       = (inr checks, w1)
    /\ Forall (fun t => available t = true) checks
    /\ network w1 = (inr SEPOLIA_CHAIN_ID, w2)
    /\ signer w2 = (inr tt, w3)
    /\ balance_of addr w3 = (inr balance, w4)
    /\ balance <> 0.
Proof.
  apply (deploy_swaps_only_after_all_checks Z lower show_number fixed clock
           api network signer balance_of estimate fee_data swap
           (Some usdc_dai) (Some me) (start 1000000000000000000)).
  vm_compute. discriminate.
Defined.

End DeployLoopWitnesses.

(** ** Deployment into one pool *)

Section PoolDeployFacts.
Import JS JSString HomePool.

Variable World : Type.
Variable toLowerCase : string -> string.
Variable toUpperCase : string -> string.
Variable string_of_number : Q -> string.
Variable toFixed : Q -> nat -> string.
Variable Date_now : World -> Z.
Variable has_ethereum : World -> bool.
Variable api_check_tokens : list string -> World -> (Thrown + list TokenCheck) * World.
Variable getNetwork : World -> (Thrown + Z) * World.
Variable getSigner : World -> (Thrown + unit) * World.
Variable getBalance : string -> World -> (Thrown + Z) * World.
Variable estimateGas : SwapParams -> Z -> World -> (Thrown + Z) * World.
Variable getFeeData : World -> (Thrown + option Z) * World.
Variable exactInputSingle : SwapParams -> Z -> World -> (Thrown + unit) * World.

Local Abbreviation one_tier :=
  (tier World string_of_number toFixed Date_now estimateGas getFeeData
        exactInputSingle).

Local Abbreviation all_tiers :=
  (tiers World string_of_number toFixed Date_now estimateGas getFeeData
         exactInputSingle).

Local Abbreviation pool_deploy :=
  (deployToPool World toLowerCase toUpperCase string_of_number toFixed Date_now
     has_ethereum api_check_tokens getNetwork getSigner getBalance estimateGas
     getFeeData exactInputSingle).

Ltac pool_added_to old cur :=
  lazymatch cur with
  | old => constr:(@nil Event)
  | ?e :: ?rest => let p := pool_added_to old rest in constr:(e :: p)
  end.

Ltac pool_give_added :=
  lazymatch goal with
  | |- exists new, ?cur = new ++ ?old /\ _ =>
      let p := pool_added_to old cur in exists p
  end.

Ltac pool_step := cbn [world deployingPoolId log fst snd].

Lemma swap_fees_app (l1 l2 : list Event) :
  swap_fees (l1 ++ l2) = swap_fees l2 ++ swap_fees l1.
Proof.
  induction l1 as [|e l IH]; simpl; [rewrite app_nil_r; reflexivity|].
  destruct e; try exact IH. rewrite IH, app_assoc. reflexivity.
Qed.

Lemma subsequence_nil {A} (l : list A) : subsequence [] l.
Proof. induction l; constructor; assumption. Qed.

(** One tier adds to the log at most one swap, at that tier's fee and well
    formed; when the turn ends in [Swapped] one was submitted. *)
Lemma tier_trace (addr : string) (tokenInfo : TokenCheck) (balance : Z)
    (pct : Q) (fee_tier : Z) (st : St World) :
  exists new,
    log (snd (one_tier addr tokenInfo balance pct fee_tier st)) = new ++ log st
    /\ (swap_fees new = [] \/ swap_fees new = [fee_tier])
    /\ Forall (pool_swap addr tokenInfo) new
    /\ (fst (one_tier addr tokenInfo balance pct fee_tier st) = inr Swapped ->
        swap_fees new = [fee_tier]).
Proof.
  unfold tier, bind, call, native, toast, setDeployingPoolId, now, ret. pool_step.
  destruct (hundredth balance pct) as [e|prelim]; pool_step.
  { pool_give_added. repeat split; auto; try discriminate. }
  destruct (prelim =? 0); pool_step.
  { pool_give_added. repeat split; auto; try discriminate. repeat constructor. }
  match goal with
  | |- context [estimateGas ?p ?v (world st)] =>
      destruct (estimateGas p v (world st)) as [[e|gasEstimate] w2]
  end; pool_step.
  { pool_give_added. repeat split; auto; try discriminate. repeat constructor. }
  destruct (getFeeData w2) as [[e|feeGasPrice] w3]; pool_step.
  { pool_give_added. repeat split; auto; try discriminate. repeat constructor. }
  destruct (balance <=? gasCost gasEstimate (gasPrice_of feeGasPrice)); pool_step.
  { pool_give_added. repeat split; auto; try discriminate. repeat constructor. }
  destruct (hundredth (balance - gasCost gasEstimate (gasPrice_of feeGasPrice)) pct)
    as [e|amount]; pool_step.
  { pool_give_added. repeat split; auto; try discriminate. repeat constructor. }
  destruct (amount =? 0) eqn:Ea; pool_step.
  { pool_give_added. repeat split; auto; try discriminate. repeat constructor. }
  apply Z.eqb_neq in Ea.
  match goal with
  | |- context [exactInputSingle ?p ?v w3] =>
      destruct (exactInputSingle p v w3) as [[e|[]] w4]
  end; pool_step.
  - pool_give_added. split; [reflexivity|]. split; [right; reflexivity|].
    split; [|reflexivity]. repeat constructor; assumption.
  - pool_give_added. split; [reflexivity|]. split; [right; reflexivity|].
    split; [|reflexivity]. repeat constructor; assumption.
Qed.

(** The fee-tier loop submits its swaps at fees taken from the tier list in
    the list's order, at most one per tier, each sending its non-zero
    [amountIn] as value for the checked token; and it ends in [Success] only
    with a swap as its last call. *)
Theorem pool_tiers_are_tried_in_order
    (addr : string) (tokenInfo : TokenCheck) (balance : Z) (pct : Q)
    (fees : list Z) (lastErr : option Thrown) (st : St World) :
  exists new,
    log (snd (all_tiers addr tokenInfo balance pct fees lastErr st)) = new ++ log st
    /\ subsequence (swap_fees new) fees
    /\ Forall (pool_swap addr tokenInfo) new
    /\ (fst (all_tiers addr tokenInfo balance pct fees lastErr st) = Success ->
        exists p v rest, new = ExactInputSingle p v :: rest).
Proof.
  revert lastErr st. induction fees as [|f rest IH]; intros lastErr st.
  - exists []. cbn. split; [reflexivity|]. split; [constructor|].
    split; [constructor|]. discriminate.
  - cbn [tiers].
    destruct (tier_trace addr tokenInfo balance pct f st)
      as [new1 [Hlog1 [Hfee1 [Hwf1 Hsw1]]]].
    assert (Hsub1 : forall l, subsequence l rest ->
                              subsequence (swap_fees new1 ++ l) (f :: rest)).
    { intros l Hl. destruct Hfee1 as [-> | ->]; simpl;
        [apply sub_skip | apply sub_keep]; exact Hl. }
    destruct (one_tier addr tokenInfo balance pct f st) as [[err|[| |]] st1] eqn:Et;
      cbn [fst snd] in *.
    + destruct (user_rejected err).
      * exists new1. cbn [fst snd]. split; [exact Hlog1|].
        split; [rewrite <- (app_nil_r (swap_fees new1));
                apply Hsub1, subsequence_nil|].
        split; [exact Hwf1|]. discriminate.
      * destruct (IH (Some err) st1) as [new2 [Hlog2 [Hsub2 [Hwf2 Hs2]]]].
        exists (new2 ++ new1). rewrite Hlog2, Hlog1, app_assoc, swap_fees_app.
        split; [reflexivity|]. split; [apply Hsub1, Hsub2|].
        split; [apply Forall_app; split; assumption|].
        intros H. destruct (Hs2 H) as [p [v [r ->]]]. simpl. eauto.
    + exists new1. cbn [fst snd]. split; [exact Hlog1|].
      split; [rewrite <- (app_nil_r (swap_fees new1));
              apply Hsub1, subsequence_nil|].
      split; [exact Hwf1|]. intros _.
      specialize (Hsw1 eq_refl).
      clear - Hsw1 Et Hlog1.
      unfold tier, bind, call, native, toast, setDeployingPoolId, now, ret in Et.
      revert Et. pool_step.
      destruct (hundredth balance pct) as [e|prelim]; pool_step; [discriminate|].
      destruct (prelim =? 0); pool_step; [discriminate|].
      match goal with
      | |- context [estimateGas ?p ?v (world st)] =>
          destruct (estimateGas p v (world st)) as [[e|gasEstimate] w2]
      end; pool_step; [discriminate|].
      destruct (getFeeData w2) as [[e|feeGasPrice] w3]; pool_step; [discriminate|].
      destruct (balance <=? gasCost gasEstimate (gasPrice_of feeGasPrice));
        pool_step; [discriminate|].
      destruct (hundredth (balance - gasCost gasEstimate (gasPrice_of feeGasPrice)) pct)
        as [e|amount]; pool_step; [discriminate|].
      destruct (amount =? 0); pool_step; [discriminate|].
      match goal with
      | |- context [exactInputSingle ?p ?v w3] =>
          destruct (exactInputSingle p v w3) as [[e|[]] w4]
      end; pool_step; [discriminate|].
      intros Et. injection Et as <-. cbn [log] in Hlog1.
      match type of Hlog1 with
      | ?a :: ?b :: ?c :: log st = _ =>
          assert (Hn : new1 = [a; b; c])
            by (apply (app_inv_tail (log st)); rewrite <- Hlog1; reflexivity)
      end.
      rewrite Hn. eauto.
    + destruct (IH lastErr st1) as [new2 [Hlog2 [Hsub2 [Hwf2 Hs2]]]].
      exists (new2 ++ new1). rewrite Hlog2, Hlog1, app_assoc, swap_fees_app.
      split; [reflexivity|]. split; [apply Hsub1, Hsub2|].
      split; [apply Forall_app; split; assumption|].
      intros H. destruct (Hs2 H) as [p [v [r ->]]]. simpl. eauto.
    + exists new1. cbn [fst snd]. split; [exact Hlog1|].
      split; [rewrite <- (app_nil_r (swap_fees new1));
              apply Hsub1, subsequence_nil|].
      split; [exact Hwf1|]. discriminate.
Qed.

(** Once a swap is submitted at a fee tier, its result decides: success
    ends the loop at once, a rejection by the user (code ACTION_REJECTED or
    4001) is thrown on at once, and any other failure is remembered while
    the loop moves to the next tier. *)
Theorem pool_swap_result_decides
    (addr : string) (tokenInfo : TokenCheck) (balance : Z) (pct : Q)
    (f : Z) (rest : list Z) (lastErr : option Thrown) (st : St World)
    (prelim gasEstimate amount : Z) (feeGasPrice : option Z) (w2 w3 : World) :
  hundredth balance pct = inr prelim ->
  prelim <> 0 ->
  let params :=
    {| tokenIn := WETH_ADDRESS; tokenOut := address tokenInfo; fee := f;
       recipient := addr; deadline := Date_now (world st) / 1000 + 1800;
       amountIn := prelim; amountOutMinimum := 1; sqrtPriceLimitX96 := 0 |} in
  estimateGas params prelim (world st) = (inr gasEstimate, w2) ->
  getFeeData w2 = (inr feeGasPrice, w3) ->
  let cost := gasCost gasEstimate (gasPrice_of feeGasPrice) in
  cost < balance ->
  hundredth (balance - cost) pct = inr amount ->
  amount <> 0 ->
  let finalParams :=
    {| tokenIn := WETH_ADDRESS; tokenOut := address tokenInfo; fee := f;
       recipient := addr; deadline := Date_now (world st) / 1000 + 1800;
       amountIn := amount; amountOutMinimum := 1; sqrtPriceLimitX96 := 0 |} in
  let after w4 :=
    {| world := w4; deployingPoolId := deployingPoolId st;
       log := ExactInputSingle finalParams amount :: GetFeeData
              :: EstimateGas params prelim :: log st |} in
  all_tiers addr tokenInfo balance pct (f :: rest) lastErr st
  = match exactInputSingle finalParams amount w3 with
    | (inr _, w4) => (Success, after w4)
    | (inl err, w4) =>
        if user_rejected err then (Rethrown err, after w4)
        else all_tiers addr tokenInfo balance pct rest (Some err) (after w4)
    end.
Proof.
  intros Hprelim Hnz params Hest Hfee cost Hcost Hamount Hanz finalParams after.
  cbn [tiers]. unfold tier, bind, call, native, toast, setDeployingPoolId,
    now, ret. pool_step.
  rewrite Hprelim.
  replace (prelim =? 0) with false by (symmetry; apply Z.eqb_neq; exact Hnz).
  pool_step. fold params. rewrite Hest. pool_step. rewrite Hfee. fold cost.
  replace (balance <=? cost) with false by (symmetry; apply Z.leb_gt; exact Hcost).
  pool_step. rewrite Hamount.
  replace (amount =? 0) with false by (symmetry; apply Z.eqb_neq; exact Hanz).
  pool_step. cbn [tokenIn tokenOut fee recipient deadline amountOutMinimum
                  sqrtPriceLimitX96 params].
  fold finalParams.
  destruct (exactInputSingle finalParams amount w3) as [[err|[]] w4]; pool_step;
    reflexivity.
Qed.

Lemma pick_target_in (others : list string) (t : string) :
  pick_target others = Some t -> In t others.
Proof.
  unfold pick_target.
  assert (Hhd : hd_error others = Some t -> In t others)
    by (destruct others; simpl; [discriminate | intros H; injection H as ->; auto]).
  destruct (find _ others) as [s|] eqn:Ef; [|exact Hhd].
  destruct (String.eqb s ""); [exact Hhd|].
  intros H. injection H as <-. apply find_some in Ef. apply Ef.
Qed.

Lemma match_pool_found (p : Portfolio) (all parts : list string)
    (item : PortfolioItem) (target : string) :
  match_pool toLowerCase p all parts = Some (item, Some target) ->
  In item (items p)
  /\ In (toLowerCase (symbol_or_name item)) parts
  /\ In target all
  /\ target <> toLowerCase (symbol_or_name item).
Proof.
  induction parts as [|ps rest IH]; simpl; [discriminate|].
  destruct (find_by_symbol toLowerCase p ps) as [found|] eqn:Ef.
  - intros H. injection H as <- Ht.
    unfold find_by_symbol in Ef. apply find_some in Ef as [Hin He].
    apply String.eqb_eq in He.
    apply pick_target_in in Ht. apply filter_In in Ht as [Hall Hne].
    split; [exact Hin|]. split; [left; symmetry; exact He|].
    split; [exact Hall|]. rewrite He.
    apply negb_true_iff, String.eqb_neq in Hne. exact Hne.
  - intros H. destruct (IH H) as [H1 [H2 [H3 H4]]]. auto.
Qed.

(** A pool deployment submits a swap only for a target that is a part of the
    pool's name other than the portfolio asset it matched, is not empty and
    is neither eth nor weth, and only after the token check answered that
    target first, available and with an address, with the wallet on chain
    11155111. *)
Theorem pool_deploy_swaps_only_checked_target
    (portfolio : option Portfolio) (connectedAddress : option string)
    (pool : PoolRef) (st : St World) :
  filter is_swap (log (pool_deploy portfolio connectedAddress pool st))
  <> filter is_swap (log st) ->
  exists p addr item target tokenInfo others w1 w2,
    portfolio = Some p /\ connectedAddress = Some addr
    /\ In item (items p)
    /\ In (toLowerCase (symbol_or_name item)) (poolSymbols toLowerCase pool)
    /\ In target (poolSymbols toLowerCase pool)
    /\ target <> toLowerCase (symbol_or_name item)
    /\ target <> ""%string /\ is_eth target = false
    /\ api_check_tokens [target] (world st) = (inr (tokenInfo :: others), w1)
    /\ available tokenInfo = true /\ has_address tokenInfo = true
    /\ getNetwork w1 = (inr SEPOLIA_CHAIN_ID, w2).
Proof.
  unfold deployToPool. intros H.
  destruct portfolio as [p|]; [|exfalso; apply H; reflexivity].
  destruct (List.length (items p) =? 0)%nat; [exfalso; apply H; reflexivity|].
  destruct connectedAddress as [addr|]; [|exfalso; apply H; reflexivity].
  destruct (String.eqb addr ""); [exfalso; apply H; reflexivity|].
  destruct (has_ethereum (world st)); cbn [negb] in H;
    [|exfalso; apply H; reflexivity].
  destruct (match_pool toLowerCase p _ _) as [[item [target|]]|] eqn:Em;
    [| exfalso; apply H; reflexivity | exfalso; apply H; reflexivity].
  destruct (String.eqb target "") eqn:Ee; [exfalso; apply H; reflexivity|].
  destruct (is_eth target) eqn:Eeth; [exfalso; apply H; reflexivity|].
  apply match_pool_found in Em as [Hi [Hp [Ht Hne]]].
  apply String.eqb_neq in Ee.
  unfold deploy_try, deploy_failed, bind, call, toast, setDeployingPoolId in H.
  cbn [world deployingPoolId log fst snd] in H.
  destruct (api_check_tokens [target] (world st)) as [[e|tokens] w1] eqn:Eapi;
    cbn [world deployingPoolId log fst snd] in H;
    [exfalso; apply H; reflexivity|].
  destruct tokens as [|tokenInfo others]; cbn [hd_error] in H;
    [exfalso; apply H; reflexivity|].
  destruct (available tokenInfo) eqn:Eav; cbn [andb] in H;
    [|exfalso; apply H; reflexivity].
  destruct (has_address tokenInfo) eqn:Eha; [|exfalso; apply H; reflexivity].
  cbn [world deployingPoolId log fst snd] in H.
  destruct (getNetwork w1) as [[e|chain] w2] eqn:En;
    cbn [world deployingPoolId log fst snd] in H;
    [exfalso; apply H; reflexivity|].
  destruct (chain =? SEPOLIA_CHAIN_ID) eqn:Ec; cbn [negb] in H;
    [|exfalso; apply H; reflexivity].
  apply Z.eqb_eq in Ec. subst chain.
  exists p, addr, item, target, tokenInfo, others, w1, w2.
  repeat split; assumption.
Qed.

End PoolDeployFacts.

Section PoolDeployWitnesses.
Import JS JSString HomePool.

Example pool_reverts_at_3000_then_swaps_at_500 :
  swap_fees (log (pool_run swap_not_at_3000 usdc_only dai_usdc_pool
                           1000000000000000000))
  = [3000; 500]
  /\ hd_error (log (pool_run swap_not_at_3000 usdc_only dai_usdc_pool
                             1000000000000000000))
     = Some (Toast "Deployed successfully!"
                   "Swapped n% of your ETH into DAI via DAI-USDC pool.").
Proof. vm_compute. split; reflexivity. Qed.

Example pool_user_rejection_stops_at_first_tier :
  swap_fees (log (pool_run swap_user_rejects usdc_only dai_usdc_pool
                           1000000000000000000))
  = [3000]
  /\ hd_error (log (pool_run swap_user_rejects usdc_only dai_usdc_pool
                             1000000000000000000))
     = Some (Toast "Deploy failed" "user rejected action").
Proof. vm_compute. split; reflexivity. Qed.

Example pool_paired_with_weth_is_refused :
  log (pool_run swap_not_at_3000 usdc_only usdc_weth_pool 1000000000000000000)
  = [Toast "Already holding ETH"
           "This pool pairs your asset with ETH — you already hold ETH in your wallet."].
Proof. vm_compute. reflexivity. Qed.

Lemma pool_tiers_are_tried_in_order_witness :
  exists new,
    log (snd (tiers Z show_number fixed clock (fun q v => ok (estimate q v))
                    (ok fee_data) swap_not_at_3000 me dai_check
                    1000000000000000000 60 feeTiers None
                    (pool_start 1000000000000000000)))
    = new ++ []
    /\ subsequence (swap_fees new) feeTiers.
Proof.
  destruct (pool_tiers_are_tried_in_order Z show_number fixed clock
              (fun q v => ok (estimate q v)) (ok fee_data) swap_not_at_3000
              me dai_check 1000000000000000000 60 feeTiers None
              (pool_start 1000000000000000000)) as [new [H1 [H2 _]]].
  exists new. split; assumption.
Defined.

Lemma pool_swap_result_decides_witness :
  fst (tiers Z show_number fixed clock (fun q v => ok (estimate q v))
             (ok fee_data) swap_user_rejects me dai_check
             1000000000000000000 60 feeTiers None
             (pool_start 1000000000000000000))
  = Rethrown (Ethers (Some (CodeName "ACTION_REJECTED")) None "user rejected action").
Proof.
  unfold feeTiers.
  rewrite (pool_swap_result_decides Z show_number fixed clock
             (fun q v => ok (estimate q v)) (ok fee_data) swap_user_rejects
             me dai_check 1000000000000000000 60 3000 [500; 10000; 100] None
             (pool_start 1000000000000000000)
             600000000000000000 150000 596760000000000000 (Some 30000000000)
             1000000000000000000 1000000000000000000
             eq_refl ltac:(discriminate) eq_refl eq_refl ltac:(reflexivity)
             eq_refl ltac:(discriminate)).
  reflexivity.
Defined.

Lemma pool_deploy_swaps_only_checked_target_witness :
  exists p addr item target tokenInfo others w1 w2,
    Some usdc_only = Some p /\ Some me = Some addr
    /\ In item (items p)
    /\ In (lower (symbol_or_name item)) (poolSymbols lower dai_usdc_pool)
    /\ In target (poolSymbols lower dai_usdc_pool)
    /\ target <> lower (symbol_or_name item)
    /\ target <> ""%string /\ is_eth target = false
    /\ ok (api [target]) 1000000000000000000 = (inr (tokenInfo :: others), w1)
    /\ available tokenInfo = true /\ has_address tokenInfo = true
    /\ ok network w1 = (inr SEPOLIA_CHAIN_ID, w2).
Proof.
  apply (pool_deploy_swaps_only_checked_target Z lower upper show_number fixed
           clock (fun _ => true) (fun symbols => ok (api symbols)) (ok network)
           (ok signer) (fun a => ok (balance_of a))
           (fun q v => ok (estimate q v)) (ok fee_data) swap_not_at_3000
           (Some usdc_only) (Some me) dai_usdc_pool
           (pool_start 1000000000000000000)).
  vm_compute. discriminate.
Defined.

End PoolDeployWitnesses.

(** ** The search form and the chat of the client *)

Section TrimFacts.
Import JSString.

Lemma trimEnd_head (c : ascii) (s : string) :
  trimEnd (String c s) = EmptyString
  \/ exists k, trimEnd (String c s) = String c k.
Proof.
  simpl. destruct (trimEnd s); [destruct (is_space c)|]; eauto.
Qed.

Lemma trimEnd_idempotent (s : string) : trimEnd (trimEnd s) = trimEnd s.
Proof.
  induction s as [|c r IH]; [reflexivity|].
  simpl. destruct (trimEnd r) as [|d k] eqn:E.
  - destruct (is_space c) eqn:Ec; [reflexivity|]. simpl. rewrite Ec. reflexivity.
  - change (trimEnd (String c (String d k)))
      with (match trimEnd (String d k) with
            | EmptyString => if is_space c then EmptyString else String c EmptyString
            | kept => String c kept
            end).
    rewrite IH. reflexivity.
Qed.

(** What [trimStart] returns does not begin with a space. *)
Lemma trimStart_head (s : string) :
  trimStart s = EmptyString
  \/ exists c k, trimStart s = String c k /\ is_space c = false.
Proof.
  induction s as [|c r IH]; simpl; [auto|].
  destruct (is_space c) eqn:E; [exact IH|]. right. eauto.
Qed.

Lemma trimStart_fixed (c : ascii) (k : string) :
  is_space c = false -> trimStart (String c k) = String c k.
Proof. intros H. simpl. rewrite H. reflexivity. Qed.

(** Trimming twice is trimming once. *)
Lemma trim_idempotent (s : string) : trim (trim s) = trim s.
Proof.
  unfold trim.
  assert (H : trimStart (trimEnd (trimStart s)) = trimEnd (trimStart s)).
  { destruct (trimStart_head s) as [-> | [c [k [-> Hc]]]]; [reflexivity|].
    destruct (trimEnd_head c k) as [-> | [k' ->]]; [reflexivity|].
    apply trimStart_fixed. exact Hc. }
  rewrite H. apply trimEnd_idempotent.
Qed.

End TrimFacts.

Section SearchFacts.
Import JS JSString Regex HomeSearch.

(** The search form starts nothing for a blank query; it starts the wallet
    lookup exactly when the trimmed query is ["0x"] and forty hex digits, and
    the address it then posts passes the server's validation; any other
    query goes, trimmed and not empty, to the personality lookup, whose
    input schema accepts it. *)
Theorem submit_dispatch_agrees_with_server (query : string) :
  match handleSubmit query with
  | Nothing => trim query = ""%string
  | WalletMutation a =>
      a = trim query
      /\ matches Shared.address_regex a
      /\ Shared.wallet_lookup_input_parse (wallet_body a) = inr a
  | LookupMutation n =>
      n = trim query /\ n <> ""%string
      /\ ~ matches Shared.address_regex n
      /\ CryptoRoute.input_parse (lookup_body n) = inr n
  end.
Proof.
  unfold handleSubmit, isEthereumAddress. rewrite trim_idempotent.
  destruct (String.eqb (trim query) "") eqn:Ee.
  - apply String.eqb_eq. exact Ee.
  - destruct (test Shared.address_regex (trim query)) eqn:Et.
    + apply test_matches in Et. split; [reflexivity|]. split; [exact Et|].
      apply input_parse_accepts. split; [|exact Et].
      eexists. split; reflexivity.
    + split; [reflexivity|]. split; [apply String.eqb_neq; exact Ee|].
      split; [|reflexivity].
      intros Hm. apply test_matches in Hm. congruence.
Qed.

Example padded_address_is_a_wallet_query :
  handleSubmit ("  " ++ vitalik ++ " ") = WalletMutation vitalik.
Proof. vm_compute. reflexivity. Qed.

Example a_name_is_a_personality_query :
  handleSubmit " Elon Musk" = LookupMutation "Elon Musk".
Proof. vm_compute. reflexivity. Qed.

End SearchFacts.

Section ChatClientFacts.
Import JS JSString HomeChat.

Lemma received_as_sent (l : list Home.PortfolioItem) :
  map received (map as_sent l) = l.
Proof.
  induction l as [|i r IH]; [reflexivity|].
  simpl. rewrite IH. destruct i; reflexivity.
Qed.

Lemma parse_item_json (i : Home.PortfolioItem) :
  ChatRoute.parse_item (item_json i) = Some (as_sent i).
Proof. destruct i as [n [s|] p]; reflexivity. Qed.

Lemma parse_items_json (l : list Home.PortfolioItem) :
  ChatRoute.parse_items (map item_json l) = Some (map as_sent l).
Proof.
  induction l as [|i r IH]; [reflexivity|].
  simpl map. cbn [ChatRoute.parse_items]. rewrite parse_item_json, IH. reflexivity.
Qed.

(** The request the chat sends always passes the endpoint's schema, and the
    endpoint reads back the very message and items the client holds; read
    back by the client, the items are the client's own. *)
Theorem chat_request_round_trip (userMsg : string) (p : option Home.Portfolio) :
  userMsg <> ""%string ->
  ChatRoute.request_parse (chat_body userMsg p) = inr (userMsg, sent_items p)
  /\ map received (sent_items p)
     = match p with Some q => Home.items q | None => [] end.
Proof.
  intros Hne. split.
  - apply String.eqb_neq in Hne.
    unfold chat_body, ChatRoute.request_parse.
    change (get "message" _) with (Some (JStr userMsg)).
    change (get "portfolio" _)
      with (Some (JArr (map item_json
                          match p with Some q => Home.items q | None => [] end))).
    cbv iota beta. rewrite Hne, parse_items_json.
    destruct p; reflexivity.
  - destruct p; [apply received_as_sent | reflexivity].
Qed.

Lemma chat_request_round_trip_witness :
  ChatRoute.request_parse (chat_body "rebalance" (Some usdc_dai))
  = inr ("rebalance"%string, sent_items (Some usdc_dai)).
Proof.
  exact (proj1 (chat_request_round_trip "rebalance" (Some usdc_dai)
                  ltac:(discriminate))).
Defined.

(** A reply of the model that does not parse or does not validate never
    changes the portfolio the client holds, whatever else the endpoint
    answers: after the exchange the client shows the portfolio it had. *)
Theorem malformed_reply_leaves_client_portfolio
    (completion : string -> list ChatRoute.PortfolioItem -> Exn + option string)
    (JSON_parse : string -> option json) (throws_on : Z -> bool)
    (c : Chat) (content : string) :
  trim (chatInput c) <> ""%string ->
  chatLoading c = false ->
  completion (trim (chatInput c)) (sent_items (portfolio c)) = inr (Some content) ->
  content <> ""%string ->
  (JSON_parse content = None
   \/ exists parsed, JSON_parse content = Some parsed
                     /\ ChatRoute.responseSchema_safeParse parsed = None) ->
  let after :=
    portfolio (sendChatMessage (ChatRoute.chat completion JSON_parse) throws_on c) in
  items_of after = items_of (portfolio c)
  /\ forall q, after = Some q -> portfolio c = Some q.
Proof.
  intros Hin Hl Hc Hne Hbad.
  unfold sendChatMessage. rewrite Hl, orb_false_r.
  apply String.eqb_neq in Hin as Hin'. rewrite Hin'.
  rewrite (chat_interprets completion JSON_parse _ (trim (chatInput c)) content
             (sent_items (portfolio c)))
    by (try apply chat_request_round_trip; assumption).
  pose proof (malformed_reply_keeps_portfolio JSON_parse content
                (sent_items (portfolio c)) Hbad) as Hk.
  destruct (ChatRoute.interpret JSON_parse content (sent_items (portfolio c)))
    as [reply items | code m]; cbn [portfolio].
  - destruct Hk as [-> _]. unfold sent_items.
    destruct (portfolio c) as [[src its]|]; cbn [Home.items Home.source].
    + destruct its as [|i r]; [split; [reflexivity | discriminate]|].
      cbn [map]. rewrite received_as_sent.
      replace (received (as_sent i)) with i by (destruct i; reflexivity).
      split; [reflexivity | auto].
    + split; [reflexivity | discriminate].
  - split; [reflexivity | auto].
Qed.

Lemma malformed_reply_leaves_client_portfolio_witness :
  let after :=
    portfolio (sendChatMessage
                 (ChatRoute.chat (answers "Sorry, I cannot do that.") parse_samples)
                 (fun _ => true) (typing " rebalance " (Some usdc_dai))) in
  items_of after = Home.items usdc_dai
  /\ forall q, after = Some q -> Some usdc_dai = Some q.
Proof.
  apply (malformed_reply_leaves_client_portfolio
           (answers "Sorry, I cannot do that.") parse_samples (fun _ => true)
           (typing " rebalance " (Some usdc_dai)) "Sorry, I cannot do that.").
  - vm_compute. discriminate.
  - reflexivity.
  - reflexivity.
  - discriminate.
  - left. vm_compute. reflexivity.
Defined.

End ChatClientFacts.

(** ** The export scripts *)

Section ExportFacts.
Import ExportScript.

Lemma Dirent_nested_ind (P : Dirent -> Prop) :
  (forall name, P (File name)) ->
  (forall name entries, Forall P entries -> P (Directory name entries)) ->
  forall e, P e.
Proof.
  intros Hf Hd.
  fix IH 1. intros [name | name entries]; [apply Hf|].
  apply Hd. induction entries as [|e r IHr]; constructor; [apply IH | exact IHr].
Qed.

Lemma string_app_assoc (a b c : string) :
  ((a ++ b) ++ c)%string = (a ++ (b ++ c))%string.
Proof. induction a as [|x a IH]; [reflexivity|]. simpl. rewrite IH. reflexivity. Qed.

Lemma concat_slash_snoc (pre : list string) (n : string) :
  pre <> [] ->
  String.concat "/" (pre ++ [n]) = (String.concat "/" pre ++ "/" ++ n)%string.
Proof.
  induction pre as [|x r IH]; [congruence|]. intros _.
  destruct r as [|y r']; [reflexivity|].
  change (String.concat "/" ((x :: y :: r') ++ [n]))
    with (x ++ "/" ++ String.concat "/" ((y :: r') ++ [n]))%string.
  rewrite IH by discriminate.
  change (String.concat "/" (x :: y :: r'))
    with (x ++ "/" ++ String.concat "/" (y :: r'))%string.
  rewrite !string_app_assoc. reflexivity.
Qed.

Lemma append_empty (a b : string) : (a ++ b)%string = ""%string -> a = ""%string.
Proof. destruct a; [reflexivity | discriminate]. Qed.

Lemma concat_slash_empty (pre : list string) :
  Forall (fun n => n <> ""%string) pre ->
  String.concat "/" pre = ""%string -> pre = [].
Proof.
  intros Hn H. destruct pre as [|x r]; [reflexivity|].
  inversion Hn as [|? ? Hx _]; subst. exfalso. apply Hx.
  destruct r; [exact H|]. simpl in H. apply append_empty in H. exact H.
Qed.

(** The relative name the loop builds is the names so far, joined. *)
Lemma rel_of_concat (pre : list string) (n : string) :
  Forall (fun n => n <> ""%string) pre ->
  rel_of (String.concat "/" pre) n = String.concat "/" (pre ++ [n]).
Proof.
  intros Hn. unfold rel_of.
  destruct (String.eqb (String.concat "/" pre) "") eqn:E.
  - apply String.eqb_eq in E. apply concat_slash_empty in E; [|exact Hn].
    subst. reflexivity.
  - rewrite concat_slash_snoc; [reflexivity|].
    intros ->. discriminate.
Qed.

Lemma filter_visible_cons (ignore : list string) (n : string) (l : list (list string)) :
  filter (visible ignore) (map (cons n) l)
  = if skipped ignore n then [] else map (cons n) (filter (visible ignore) l).
Proof.
  induction l as [|x r IH]; [destruct (skipped ignore n); reflexivity|].
  cbn [map filter]. rewrite IH. unfold visible at 1. cbn [forallb].
  destruct (skipped ignore n); [reflexivity|]. cbn [negb andb].
  fold (visible ignore x). destruct (visible ignore x); reflexivity.
Qed.

Lemma visit_paths (ignore : list string) (e : Dirent) :
  forall dir pre,
    named e = true ->
    Forall (fun n => n <> ""%string) pre ->
    map path (visit ignore dir (String.concat "/" pre) e)
    = map (fun names => String.concat "/" (pre ++ names))
          (filter (visible ignore) (files_of e)).
Proof.
  induction e as [name | name entries IH] using Dirent_nested_ind;
    intros dir pre Hnamed Hpre.
  - cbn [visit files_of filter visible forallb].
    destruct (skipped ignore name); [reflexivity|].
    cbn [negb andb map path]. rewrite rel_of_concat by exact Hpre. reflexivity.
  - cbn [visit files_of]. rewrite filter_visible_cons.
    destruct (skipped ignore name); [reflexivity|].
    cbn [named] in Hnamed. apply andb_prop in Hnamed as [Hn Hes].
    apply negb_true_iff, String.eqb_neq in Hn.
    rewrite rel_of_concat by exact Hpre.
    rewrite map_map.
    assert (Hpre' : Forall (fun n => n <> ""%string) (pre ++ [name])).
    { apply Forall_app. split; [exact Hpre | constructor; [exact Hn | constructor]]. }
    generalize (path_join dir name). intros dir'.
    induction entries as [|e r IHr]; [reflexivity|].
    cbn [flat_map forallb] in *. apply andb_prop in Hes as [He Hr].
    inversion IH as [|? ? IHe IHrest]; subst.
    rewrite map_app, filter_app, map_app.
    rewrite (IHe dir' (pre ++ [name]) He Hpre').
    rewrite (IHr IHrest Hr).
    f_equal. apply map_ext. intros names. rewrite <- app_assoc. reflexivity.
Qed.

(** The export uploads exactly the files none of whose names on the way
    from the root is in [IGNORE] or begins with a dot: a skipped directory
    hides everything below it, the files come in the order of the
    listings, and each is named by the names on the way joined with
    slashes. *)
Theorem export_lists_exactly_visible_files
    (ignore : list string) (root : string) (listing : list Dirent) :
  forallb named listing = true ->
  map path (getAllFiles ignore root "" listing)
  = map (String.concat "/")
        (filter (visible ignore) (flat_map files_of listing)).
Proof.
  intros Hn. unfold getAllFiles.
  induction listing as [|e r IH]; [reflexivity|].
  cbn [flat_map forallb] in *. apply andb_prop in Hn as [He Hr].
  rewrite map_app, filter_app, map_app, (IH Hr).
  pose proof (visit_paths ignore e root [] He (Forall_nil _)) as Hv.
  cbn [String.concat app] in Hv. rewrite Hv. reflexivity.
Qed.

Lemma export_lists_exactly_visible_files_witness :
  map path (getAllFiles IGNORE "/home/runner/workspace" "" workspace)
  = [ "client/src/App.tsx"; "package.json" ]%string.
Proof.
  rewrite (export_lists_exactly_visible_files IGNORE "/home/runner/workspace"
             workspace); reflexivity.
Defined.

Example push_script_keeps_scripts :
  map path (getAllFiles IGNORE_push "/home/runner/workspace" "" workspace)
  = [ "client/src/App.tsx"; "scripts/export-to-github.ts"; "package.json" ]%string.
Proof. reflexivity. Qed.




(** Without the names being non-empty the two differ: below an entry with
    the empty name the relative path starts afresh. *)
Example empty_name_restarts_path :
  getAllFiles IGNORE "/w" "" [Directory "" [File "a"]]
  = [{| path := "a"; fullPath := "/w//a" |}].
Proof. reflexivity. Qed.

End ExportFacts.

(** ** The buddy shares of the report *)

Section MintFacts.
Import JS HomeMint.
Local Open Scope Q_scope.

(** [Math.round] is within a half of its argument. *)
Lemma Math_round_close (y : Q) :
  y - (1 # 2) <= inject_Z (Math_round y) /\ inject_Z (Math_round y) <= y + (1 # 2).
Proof.
  unfold Math_round. split.
  - pose proof (Qlt_floor (y + (1 # 2))) as H.
    rewrite inject_Z_plus in H. change (inject_Z 1) with 1 in H. lra.
  - apply Qfloor_le.
Qed.

Lemma sumQ_nonneg {A} (f : A -> Q) (l : list A) :
  Forall (fun x => 0 <= f x) l -> 0 <= sumQ f l.
Proof.
  induction 1 as [|x l Hx _ IH]; [discriminate|].
  rewrite sumQ_cons. lra.
Qed.

Lemma sumQ_member {A} (f : A -> Q) (l : list A) (x : A) :
  Forall (fun x => 0 <= f x) l -> In x l -> f x <= sumQ f l.
Proof.
  induction 1 as [|y l Hy Hl IH]; intros Hin; [contradiction|].
  rewrite sumQ_cons. pose proof (sumQ_nonneg f l Hl) as Hs.
  destruct Hin as [-> | Hin]; [lra|]. specialize (IH Hin). lra.
Qed.

(** The share of a contribution between nothing and the whole fund. *)
Lemma buddy_share_range (T : Q) (b : Buddy) :
  0 <= contribution b -> contribution b <= T -> 
  0 <= share_percentage (buddy_share T b) <= 100.
Proof.
  intros H0 HT. cbn [buddy_share share_percentage].
  destruct (ltb 0 T) eqn:E.
  - apply ltb_lt in E.
    assert (Hq : 0 <= contribution b / T /\ contribution b / T <= 1).
    { split; [apply Qle_shift_div_l | apply Qle_shift_div_r]; try exact E; lra. }
    set (q := contribution b / T) in *. destruct Hq as [Hq0 Hq1].
    assert (H1 : (0 <= Math_round (q * 100 * 10))%Z).
    { unfold Math_round. change 0%Z with (Qfloor 0).
      apply Qfloor_resp_le. lra. }
    assert (H2 : (Math_round (q * 100 * 10) <= 1000)%Z).
    { unfold Math_round. change 1000%Z with (Qfloor (1000 + (1 # 2))).
      apply Qfloor_resp_le. lra. }
    rewrite Zle_Qle in H1, H2.
    change (inject_Z 0) with 0 in H1. change (inject_Z 1000) with 1000 in H2.
    split.
    + apply Qle_shift_div_l; [reflexivity | lra].
    + apply Qle_shift_div_r; [reflexivity | lra].
  - split; vm_compute; discriminate.
Qed.

(** The shares of a list, each against a fund [T], stay within a twentieth
    per buddy of the exact shares. *)
Lemma buddy_shares_close (T : Q) (l : list Buddy) :
  0 < T ->
  let n := inject_Z (Z.of_nat (List.length l)) in
  let exact := sumQ contribution l / T * 100 in
  exact - n / 20 <= sumQ share_percentage (map (buddy_share T) l)
  /\ sumQ share_percentage (map (buddy_share T) l) <= exact + n / 20.
Proof.
  intros HT. induction l as [|b r IH].
  - cbn. split; vm_compute; discriminate.
  - cbn zeta in *. cbn [map List.length].
    rewrite !sumQ_cons, Nat2Z.inj_succ, <- Z.add_1_r, inject_Z_plus.
    change (inject_Z 1) with 1.
    cbn [buddy_share share_percentage] in *.
    apply ltb_lt in HT as HT'. rewrite HT' in *.
    pose proof (Math_round_close (contribution b / T * 100 * 10)) as [Hlo Hhi].
    set (m := inject_Z (Math_round (contribution b / T * 100 * 10))) in *.
    set (s := sumQ share_percentage _) in *.
    set (k := inject_Z (Z.of_nat (List.length r))) in *.
    assert (Hd : (contribution b + sumQ contribution r) / T * 100
                 == contribution b / T * 100 + sumQ contribution r / T * 100).
    { field. lra. }
    rewrite Hd.
    set (x := contribution b / T * 100) in *.
    set (e := sumQ contribution r / T * 100) in *.
    assert (Hm : m / 10 == m * (1 # 10)) by (field).
    assert (Hk : (k + 1) / 20 == k / 20 + (1 # 20)) by (field).
    rewrite Hm, Hk. destruct IH as [IH1 IH2]. split; lra.
Qed.

(** With contributions that are not negative, every share in the report is
    a percentage between 0 and 100 with one decimal.  The shares are not
    corrected to add up: with a positive fund their sum is within a
    twentieth of a point per buddy of 100, and with an empty fund every
    share is 0. *)
Theorem buddy_shares_are_rounded_percentages (buddyList : list Buddy) :
  Forall (fun b => 0 <= contribution b) buddyList ->
  let shares := buddies buddyList in
  let n := inject_Z (Z.of_nat (List.length buddyList)) in
  Forall (fun s => 0 <= share_percentage s <= 100
                   /\ exists tenths : Z, share_percentage s == inject_Z tenths / 10)
         shares
  /\ (0 < totalFund buddyList ->
      Qabs (sumQ share_percentage shares - 100) <= n / 20)
  /\ (totalFund buddyList <= 0 ->
      Forall (fun s => share_percentage s == 0) shares).
Proof.
  intros Hpos. cbn zeta. unfold buddies. split; [|split].
  - apply Forall_forall. intros s Hs. apply in_map_iff in Hs as [b [<- Hb]].
    split.
    + apply buddy_share_range.
      * rewrite Forall_forall in Hpos. apply Hpos. exact Hb.
      * apply (sumQ_member contribution); assumption.
    + eexists. cbn [buddy_share share_percentage]. reflexivity.
  - intros HT.
    pose proof (buddy_shares_close (totalFund buddyList) buddyList HT) as H.
    cbn zeta in H. fold (totalFund buddyList) in H.
    assert (He : totalFund buddyList / totalFund buddyList * 100 == 100)
      by (field; lra).
    rewrite He in H. destruct H as [H1 H2].
    apply Qabs_Qle_condition. split; lra.
  - intros HT. apply Forall_forall. intros s Hs.
    apply in_map_iff in Hs as [b [<- Hb]].
    cbn [buddy_share share_percentage].
    apply ltb_ge in HT. rewrite HT. reflexivity.
Qed.

Lemma buddy_shares_are_rounded_percentages_witness :
  Qabs (sumQ share_percentage (buddies three_buddies) - 100) <= 3 / 20.
Proof.
  refine (proj1 (proj2 (buddy_shares_are_rounded_percentages three_buddies _)) _).
  - repeat constructor; discriminate.
  - reflexivity.
Defined.

(** Three equal buddies hold 33.3 each: the shares add up to 99.9. *)
Example equal_buddies_do_not_add_up :
  map share_percentage (buddies three_buddies) = [333 / 10; 333 / 10; 333 / 10]
  /\ sumQ share_percentage (buddies three_buddies) == 999 # 10.
Proof. split; vm_compute; reflexivity. Qed.

End MintFacts.

(** ** Permissions after a transfer *)

Section NFTPermissions.
Import DefiBuddyNFT.

(** A transfer that went through takes the token out of every hand but the
    new owner's: an account other than [address(0)] that is neither the new
    owner nor one of the new owner's operators can afterwards neither
    transfer the token nor approve anyone for it, whatever it was allowed
    before (the previous owner, the account approved for the token and the
    previous owner's operators included). *)
Theorem nft_transfer_revokes_old_permissions
    (s s' : Storage) (ev : list Event)
    (sender from to spender from2 to2 : address) (tokenId : uint256) :
  transferFrom sender from to tokenId s = Some (s', ev) ->
  spender <> 0 -> spender <> to ->
  isApprovedForAll s to spender = false ->
  _isApprovedOrOwner s' spender tokenId = false
  /\ transferFrom spender from2 to2 tokenId s' = None
  /\ approve spender to2 tokenId s' = None.
Proof.
  intros Ht Hs Hne Hop. unfold isApprovedForAll in Hop.
  unfold transferFrom in Ht.
  destruct (negb (_isApprovedOrOwner s sender tokenId)); [discriminate|].
  destruct (negb (from =? _owners s tokenId)); [discriminate|].
  destruct (to =? 0) eqn:Eto; [discriminate|].
  destruct (decr (_balances s from)) as [bf|]; [|discriminate].
  destruct (incr (write (_balances s) from bf to)) as [bt|]; [|discriminate].
  injection Ht as <- _.
  assert (Ha : _isApprovedOrOwner
                 {| _owners := write (_owners s) tokenId to;
                    _balances := write (write (_balances s) from bf) to bt;
                    _tokenURIs := _tokenURIs s;
                    _tokenApprovals := write (_tokenApprovals s) tokenId 0;
                    _operatorApprovals := _operatorApprovals s;
                    _nextTokenId := _nextTokenId s |} spender tokenId = false).
  { unfold _isApprovedOrOwner.
    cbn [_owners _tokenApprovals _operatorApprovals].
    rewrite !write_same, Hop.
    apply Z.eqb_neq in Hne. rewrite Hne.
    replace (0 =? spender) with false by (symmetry; apply Z.eqb_neq; lia).
    reflexivity. }
  split; [exact Ha|]. split.
  - unfold transferFrom. rewrite Ha. reflexivity.
  - unfold approve, ownerOf. cbn [_owners _operatorApprovals].
    rewrite write_same, Eto, Hop.
    apply Z.eqb_neq in Hne. rewrite Hne. reflexivity.
Qed.

(** Account 7 gives its report to account 9 and cannot take it back. *)
Lemma nft_transfer_revokes_old_permissions_witness :
  transferFrom 7 9 7 0 (execute 7 (CallTransferFrom 7 9 0) minted_once) = None.
Proof.
  refine (proj1 (proj2 (nft_transfer_revokes_old_permissions
                          minted_once _ _ 7 7 9 7 9 7 0 eq_refl _ _ _))).
  - discriminate.
  - discriminate.
  - reflexivity.
Defined.

End NFTPermissions.
